(** * PSF container loader and VAB instrument bank scanner

    A shallow embedding of [src/PSFFile.cpp] and [src/formats/Vab.cpp],
    and the properties of the two decoders proved over it.

    Conventions.
    - A [BYTE] (C [char], [BYTE], [uint8_t]) is an [ascii]; its unsigned
      value is [byte_val].
    - A [uint32_t]/[UINT] is a [Z], and every 32-bit operation of the source
      is written with its wrap-around, [u32].
    - Methods that assign to members are state passing: they take the object
      and return the result together with the new object.
    - [None] stands for a run with no defined result: the tag loop out of
      fuel, or a [std::vector] indexed past its end. *)

From Stdlib Require Import ZArith QArith_base List Ascii String Lia Bool.
From stdpp Require Import base option list gmap strings.
Import ListNotations.

Local Open Scope Z_scope.

(** ** Bytes and machine integers *)

Abbreviation BYTE := ascii.

Definition byte_val (b : BYTE) : Z := Z.of_N (N_of_ascii b).

Definition byte_of_Z (z : Z) : BYTE := ascii_of_N (Z.to_N (z mod 256)).

Definition NUL : BYTE := Ascii.zero.

(** [uint32_t] arithmetic wraps modulo 2^32. *)
Definition u32 (x : Z) : Z := x mod 2 ^ 32.

(** [(int8_t) b] for a byte value [b]. *)
Definition to_int8 (b : Z) : Z := if 128 <=? b then b - 256 else b.

(** [(int) x] for a 32-bit unsigned value [x]. *)
Definition to_int32 (x : Z) : Z := if 2 ^ 31 <=? x then x - 2 ^ 32 else x.

Definition bytes_of_string (s : string) : list BYTE := list_ascii_of_string s.

(** ** zlib *)

Module Zlib.

(** The values [uncompress] returns. *)
Inductive status : Type :=
  | Z_OK
  | Z_BUF_ERROR
  | Z_DATA_ERROR
  | Z_MEM_ERROR.

(** One bit and one byte of the CRC-32 register, reflected polynomial
    0xEDB88320. *)
Definition crc_bit (c : Z) : Z :=
  if Z.testbit c 0 then Z.lxor (Z.shiftr c 1) 0xEDB88320 else Z.shiftr c 1.

Definition crc_byte (c : Z) (b : BYTE) : Z :=
  Nat.iter 8 crc_bit (Z.lxor c (byte_val b)).

(** Modelled from the spec: zlib's [crc32(crc, buf, len)], which is not
    among the sources: the standard CRC-32 continued from [crc]; on
    [Z_NULL] it returns the accumulator of an empty extent, 0. *)
Definition crc32 (crc : Z) (buf : option (list BYTE)) : Z :=
  match buf with
  | None => 0
  | Some l => Z.lxor (fold_left crc_byte l (Z.lxor crc 0xFFFFFFFF)) 0xFFFFFFFF
  end.

End Zlib.

(** ** The byte source *)

Module RawFile.

(** Modelled from the spec: [RawFile] (RawFile.h is not among the sources),
    a random-access byte source with [size()], [GetBytes], and the
    little-endian readers [GetByte], [GetShort] and [GetWord]. The bytes are
    a total function of the offset: what a read past [size] yields is
    whatever the backing function says there. *)
Record t : Type := mk { size : Z; byte_at : Z -> BYTE }.

Definition GetBytes (f : t) (nIndex nCount : Z) : list BYTE :=
  map (fun k => byte_at f (nIndex + Z.of_nat k)) (seq 0 (Z.to_nat nCount)).

Definition GetByte (f : t) (nIndex : Z) : Z := byte_val (byte_at f nIndex).

Definition GetShort (f : t) (nIndex : Z) : Z :=
  GetByte f nIndex + 2 ^ 8 * GetByte f (nIndex + 1).

Definition GetWord (f : t) (nIndex : Z) : Z :=
  GetByte f nIndex + 2 ^ 8 * GetByte f (nIndex + 1)
  + 2 ^ 16 * GetByte f (nIndex + 2) + 2 ^ 24 * GetByte f (nIndex + 3).

(** A file held in memory; bytes past the end read as NUL. *)
Definition of_bytes (l : list BYTE) : t :=
  mk (Z.of_nat (length l))
     (fun i => if i <? 0 then NUL else nth (Z.to_nat i) l NUL).

End RawFile.

(** ** Owned byte segments *)

Module DataSeg.

(** Modelled from the spec: [DataSeg] (DataSeg.h is not among the sources),
    an owned byte region with its length; [load] replaces the contents,
    [clear] empties it. *)
Record t : Type := mk { data : list BYTE; size : Z }.

Definition empty : t := mk [] 0.

Definition load (buf : list BYTE) (startVirtAddr : Z) (theSize : Z) (_ : t) : t :=
  mk buf theSize.

Definition clear (_ : t) : t := empty.

End DataSeg.

(** ** PSFFile *)

Module PSFFile.

Definition PSF_TAG_SIG : string := "[TAG]".
Definition PSF_TAG_SIG_LEN : Z := 5.

Definition LF : BYTE := "010"%char.

(** The members of [PSFFile]. [errorstr = None] is the NULL message; the
    [parent] pointer, which no method here reads, is left out. *)
Record t : Type := mk {
  exeData : DataSeg.t;
  exeCompData : DataSeg.t;
  reservedData : DataSeg.t;
  tags : gmap string string;
  version : BYTE;
  exeCRC : Z;
  decompressed : bool;
  errorstr : option string
}.

Definition set_exeData (d : DataSeg.t) (p : t) : t :=
  mk d (exeCompData p) (reservedData p) (tags p) (version p) (exeCRC p)
     (decompressed p) (errorstr p).

Definition set_exeCompData (d : DataSeg.t) (p : t) : t :=
  mk (exeData p) d (reservedData p) (tags p) (version p) (exeCRC p)
     (decompressed p) (errorstr p).

Definition set_reservedData (d : DataSeg.t) (p : t) : t :=
  mk (exeData p) (exeCompData p) d (tags p) (version p) (exeCRC p)
     (decompressed p) (errorstr p).

Definition set_tags (m : gmap string string) (p : t) : t :=
  mk (exeData p) (exeCompData p) (reservedData p) m (version p) (exeCRC p)
     (decompressed p) (errorstr p).

Definition set_version (v : BYTE) (p : t) : t :=
  mk (exeData p) (exeCompData p) (reservedData p) (tags p) v (exeCRC p)
     (decompressed p) (errorstr p).

Definition set_exeCRC (c : Z) (p : t) : t :=
  mk (exeData p) (exeCompData p) (reservedData p) (tags p) (version p) c
     (decompressed p) (errorstr p).

Definition set_decompressed (b : bool) (p : t) : t :=
  mk (exeData p) (exeCompData p) (reservedData p) (tags p) (version p)
     (exeCRC p) b (errorstr p).

Definition set_errorstr (e : string) (p : t) : t :=
  mk (exeData p) (exeCompData p) (reservedData p) (tags p) (version p)
     (exeCRC p) (decompressed p) (Some e).

(** [PSFFile::Clear]. [exeCRC] is not reset. *)
Definition Clear (p : t) : t :=
  mk (DataSeg.clear (exeData p)) (DataSeg.clear (exeCompData p))
     (DataSeg.clear (reservedData p)) ∅ NUL (exeCRC p) false None.

(** *** The tag section *)

(** [strchr(&buf[pos], c)] as an index into [buf]: the first [c] at or after
    [pos], the search ending at the first NUL. *)
Fixpoint strchr_scan (s : list BYTE) (pos : nat) (c : BYTE) : option nat :=
  match s with
  | [] => None
  | x :: s' =>
      if decide (x = c) then Some pos
      else if decide (x = NUL) then None
      else strchr_scan s' (S pos) c
  end.

Definition strchr (buf : list BYTE) (pos : nat) (c : BYTE) : option nat :=
  strchr_scan (drop pos buf) pos c.

Definition char_at (buf : list BYTE) (i : nat) : BYTE := default NUL (buf !! i).

(** [*(unsigned char* )p <= 0x20] *)
Definition is_space (b : BYTE) : bool := byte_val b <=? 0x20.

(** [while (pEnd > pStart && *(pEnd - 1) <= 0x20) pEnd--;] *)
Fixpoint trim_back (buf : list BYTE) (pStart pEnd : nat) : nat :=
  match pEnd with
  | O => O
  | S e =>
      if (pStart <? pEnd)%nat && is_space (char_at buf e)
      then trim_back buf pStart e
      else pEnd
  end.

(** [while (p < pEnd && *p <= 0x20) p++;] The loop runs at most
    [pEnd - p] times, which is the count [n] it is started with. *)
Fixpoint trim_front_loop (n : nat) (buf : list BYTE) (p pEnd : nat) : nat :=
  match n with
  | O => p
  | S n' =>
      if (p <? pEnd)%nat && is_space (char_at buf p)
      then trim_front_loop n' buf (S p) pEnd
      else p
  end.

Definition trim_front (buf : list BYTE) (p pEnd : nat) : nat :=
  trim_front_loop (pEnd - p) buf p pEnd.

(** [string(p, pEnd - p)] *)
Definition make_string (buf : list BYTE) (p pEnd : nat) : string :=
  string_of_list_ascii (take (pEnd - p) (drop p buf)).

(** The [lower_bound]/[insert] update of [tags]: append to a name already
    present, after a newline, or insert. *)
Definition tags_add (varName varVal : string) (m : gmap string string)
  : gmap string string :=
  match m !! varName with
  | Some old => <[varName := old +:+ String LF EmptyString +:+ varVal]> m
  | None => <[varName := varVal]> m
  end.

(** The [while (tagCurPos < tagSectionSize)] loop. Every turn moves
    [tagCurPos] past [pNewLine], so [fuel] turns are enough when
    [fuel >= tagSectionSize - tagCurPos]; out of fuel is [None]. *)
Fixpoint parse_tags (fuel : nat) (tagSect : list BYTE)
    (tagSectionSize tagCurPos : nat) (m : gmap string string)
  : option (gmap string string) :=
  if (tagCurPos <? tagSectionSize)%nat then
    match fuel with
    | O => None
    | S fuel' =>
        let pNewLine :=
          match strchr tagSect tagCurPos LF with
          | Some p => p
          | None => tagSectionSize
          end in
        let tagSect := <[pNewLine := NUL]> tagSect in
        match strchr tagSect tagCurPos "="%char with
        | None => parse_tags fuel' tagSect tagSectionSize (pNewLine + 1)%nat m
        | Some pSeparator =>
            let pVarName := tagCurPos in
            let pVarNameEnd := pSeparator in
            let pVarVal := (pSeparator + 1)%nat in
            let pVarValEnd := pNewLine in
            let pVarNameEnd := trim_back tagSect pVarName pVarNameEnd in
            let pVarValEnd := trim_back tagSect pVarVal pVarValEnd in
            let pVarName := trim_front tagSect pVarName pVarNameEnd in
            let pVarVal := trim_front tagSect pVarVal pVarValEnd in
            let varName := make_string tagSect pVarName pVarNameEnd in
            let varVal := make_string tagSect pVarVal pVarValEnd in
            parse_tags fuel' tagSect tagSectionSize (pNewLine + 1)%nat
              (tags_add varName varVal m)
        end
    end
  else Some m.

(** *** Load *)

Definition header_inconsistent (fileSize reservedSize exeSize : Z) : bool :=
  (reservedSize >? fileSize) || (exeSize >? fileSize)
  || (u32 (u32 (16 + reservedSize) + exeSize) >? fileSize).

(** [PSFFile::Load]. The [new] calls do not fail. [hasTagSection] is
    computed as in the source; nothing after it reads it. [tagSect] is the
    section followed by NUL: the buffer of [tagSectionSize + 1] bytes the
    source allocates for it holds both for every file below 2^32 - 1
    bytes. *)
Definition Load (file : RawFile.t) (self : t) : option (bool * t) :=
  let self := Clear self in
  let fileSize := RawFile.size file in
  if fileSize <? 0x10 then
    Some (false, set_errorstr "PSF too small - likely corrupt" self)
  else
  let psfSig := RawFile.GetBytes file 0 4 in
  if negb (bool_decide (take 3 psfSig = bytes_of_string "PSF")) then
    Some (false, set_errorstr "Invalid PSF signature" self)
  else
  let self := set_version (nth 3 psfSig NUL) self in
  let reservedSize := RawFile.GetWord file 4 in
  let exeSize := RawFile.GetWord file 8 in
  let self := set_exeCRC (RawFile.GetWord file 12) self in
  if header_inconsistent fileSize reservedSize exeSize then
    Some (false, set_errorstr "PSF header is inconsistent" self)
  else
  let zexebuf := RawFile.GetBytes file (u32 (16 + reservedSize)) exeSize in
  let self := set_exeCompData (DataSeg.load zexebuf 0 exeSize (exeCompData self)) self in
  if negb (exeCRC self =? Zlib.crc32 (Zlib.crc32 0 None) (Some zexebuf)) then
    let self := set_errorstr "CRC failure - executable data is corrupt" self in
    Some (false, set_exeCompData (DataSeg.clear (exeCompData self)) self)
  else
  let reservebuf := RawFile.GetBytes file 16 reservedSize in
  let self := set_reservedData (DataSeg.load reservebuf 0 reservedSize (reservedData self)) self in
  let tagSectionOffset := u32 (u32 (16 + reservedSize) + exeSize) in
  let tagSectionSize := u32 (fileSize - tagSectionOffset) in
  let hasTagSection :=
    if tagSectionSize >=? PSF_TAG_SIG_LEN then
      bool_decide (RawFile.GetBytes file tagSectionOffset PSF_TAG_SIG_LEN
                   = bytes_of_string PSF_TAG_SIG)
    else false in
  let tagSect := RawFile.GetBytes file tagSectionOffset tagSectionSize ++ [NUL] in
  let tagCurPos := PSF_TAG_SIG_LEN in
  match parse_tags (Z.to_nat tagSectionSize) tagSect (Z.to_nat tagSectionSize)
          (Z.to_nat tagCurPos) (tags self) with
  | None => None
  | Some m => Some (true, set_tags m self)
  end.

(** *** Decompression *)

Section Decompression.

(** zlib's [uncompress(dest, &destLen, source, sourceLen)], which is not
    among the sources: from the capacity of [dest] and the source bytes
    with their length, the status and the contents of [dest] afterwards. *)
Variable uncompress : Z -> list BYTE -> Z -> Zlib.status * list BYTE.

(** [PSFFile::ReadExe], a [const] method: the object comes back as it
    was given. *)
Definition ReadExe (readlen : Z) (self : t) : (bool * list BYTE) * t :=
  let destlen := readlen in
  let '(st, buf) :=
    uncompress destlen (DataSeg.data (exeCompData self))
               (DataSeg.size (exeCompData self)) in
  match st with
  | Zlib.Z_DATA_ERROR => ((false, buf), self)
  | _ => ((true, buf), self)
  end.

(** [PSFFile::Decompress] *)
Definition Decompress (decompressed_size : Z) (self : t) : bool * t :=
  if decompressed_size =? 0 then
    let self := set_exeData (DataSeg.clear (exeData self)) self in
    if DataSeg.size (exeCompData self) =? 0 then (true, self)
    else (false, set_errorstr "Decompression failed" self)
  else
    let destlen := decompressed_size in
    let '(st, buf) :=
      uncompress destlen (DataSeg.data (exeCompData self))
                 (DataSeg.size (exeCompData self)) in
    match st with
    | Zlib.Z_OK =>
        let self :=
          set_exeData (DataSeg.load buf 0 decompressed_size (exeData self)) self in
        (true, set_decompressed true self)
    | _ => (false, set_errorstr "Decompression failed" self)
    end.

End Decompression.

Definition IsDecompressed (self : t) : bool := decompressed self.
Definition GetVersion (self : t) : BYTE := version self.
Definition GetExeSize (self : t) : Z := DataSeg.size (exeData self).
Definition GetCompressedExeSize (self : t) : Z := DataSeg.size (exeCompData self).
Definition GetReservedSize (self : t) : Z := DataSeg.size (reservedData self).
Definition GetError (self : t) : option string := errorstr self.

End PSFFile.

(** ** Vab *)

Module Vab.

(** Modelled from the spec: [SizeOffsetPair] (PSXSpu.h is not among the
    sources), built as [SizeOffsetPair(offset, size)]. *)
Record SizeOffsetPair : Type := mkPair { offset : Z; size : Z }.

(** What goes to [pRoot->AddLogItem]: the arguments each warning is
    formatted from. *)
Inductive LogItem : Type :=
  | TooManyTones (numTones : Z) (program : Z)
  | InvalidVAG (number : Z) (vagOffset vagSize : Z).

(** *** VabRgn *)

(** The members of a region that [LoadRgn] sets. The [double] volume is
    the exact quotient. *)
Record VabRgn : Type := mkRgn {
  rgn_dwOffset : Z;
  rgn_unLength : Z;
  rgn_attr : list BYTE;
  volume : Q;
  pan : Z;
  unityKey : Z;
  keyLow : Z;
  keyHigh : Z;
  sampNum : Z;
  ADSR1 : Z;
  ADSR2 : Z;
  fineTune : Z
}.

(** [VabRgn::VabRgn(instr, offset)] *)
Definition new_VabRgn (offset : Z) : VabRgn :=
  mkRgn offset 0 [] (Qmake 0 1) 0 0 0 0 0 0 0 0.

Definition set_rgn_unLength (x : Z) (r : VabRgn) : VabRgn :=
  mkRgn (rgn_dwOffset r) x (rgn_attr r) (volume r) (pan r) (unityKey r)
        (keyLow r) (keyHigh r) (sampNum r) (ADSR1 r) (ADSR2 r) (fineTune r).

Definition set_rgn_attr (x : list BYTE) (r : VabRgn) : VabRgn :=
  mkRgn (rgn_dwOffset r) (rgn_unLength r) x (volume r) (pan r) (unityKey r)
        (keyLow r) (keyHigh r) (sampNum r) (ADSR1 r) (ADSR2 r) (fineTune r).

Definition set_ADSR1 (x : Z) (r : VabRgn) : VabRgn :=
  mkRgn (rgn_dwOffset r) (rgn_unLength r) (rgn_attr r) (volume r) (pan r)
        (unityKey r) (keyLow r) (keyHigh r) (sampNum r) x (ADSR2 r) (fineTune r).

Definition set_ADSR2 (x : Z) (r : VabRgn) : VabRgn :=
  mkRgn (rgn_dwOffset r) (rgn_unLength r) (rgn_attr r) (volume r) (pan r)
        (unityKey r) (keyLow r) (keyHigh r) (sampNum r) (ADSR1 r) x (fineTune r).

Definition set_sampNum (x : Z) (r : VabRgn) : VabRgn :=
  mkRgn (rgn_dwOffset r) (rgn_unLength r) (rgn_attr r) (volume r) (pan r)
        (unityKey r) (keyLow r) (keyHigh r) x (ADSR1 r) (ADSR2 r) (fineTune r).

(** Modelled from the spec: [VGMRgn::AddVolume] (VGMRgn.h and VGMRgn.cpp
    are not among the sources), which records the volume of the region. *)
Definition AddVolume (vol : Q) (r : VabRgn) : VabRgn :=
  mkRgn (rgn_dwOffset r) (rgn_unLength r) (rgn_attr r) vol (pan r) (unityKey r)
        (keyLow r) (keyHigh r) (sampNum r) (ADSR1 r) (ADSR2 r) (fineTune r).

(** Modelled from the spec: [VGMRgn::AddPan], which records the pan byte. *)
Definition AddPan (p : Z) (r : VabRgn) : VabRgn :=
  mkRgn (rgn_dwOffset r) (rgn_unLength r) (rgn_attr r) (volume r) p (unityKey r)
        (keyLow r) (keyHigh r) (sampNum r) (ADSR1 r) (ADSR2 r) (fineTune r).

(** Modelled from the spec: [VGMRgn::AddUnityKey], which records the unity
    key. *)
Definition AddUnityKey (k : Z) (r : VabRgn) : VabRgn :=
  mkRgn (rgn_dwOffset r) (rgn_unLength r) (rgn_attr r) (volume r) (pan r) k
        (keyLow r) (keyHigh r) (sampNum r) (ADSR1 r) (ADSR2 r) (fineTune r).

(** Modelled from the spec: [VGMRgn::AddKeyLow], which records the byte as
    [keyLow]. *)
Definition AddKeyLow (k : Z) (r : VabRgn) : VabRgn :=
  mkRgn (rgn_dwOffset r) (rgn_unLength r) (rgn_attr r) (volume r) (pan r)
        (unityKey r) k (keyHigh r) (sampNum r) (ADSR1 r) (ADSR2 r) (fineTune r).

(** Modelled from the spec: [VGMRgn::AddKeyHigh], which records the byte as
    [keyHigh]. *)
Definition AddKeyHigh (k : Z) (r : VabRgn) : VabRgn :=
  mkRgn (rgn_dwOffset r) (rgn_unLength r) (rgn_attr r) (volume r) (pan r)
        (unityKey r) (keyLow r) k (sampNum r) (ADSR1 r) (ADSR2 r) (fineTune r).

(** Modelled from the spec: [VGMRgn::AddSampNum], which records the sample
    number in the unsigned [sampNum]. *)
Definition AddSampNum (n : Z) (r : VabRgn) : VabRgn := set_sampNum (u32 n) r.

(** Modelled from the spec: [VGMRgn::SetFineTune], which records the
    cents. *)
Definition SetFineTune (cents : Z) (r : VabRgn) : VabRgn :=
  mkRgn (rgn_dwOffset r) (rgn_unLength r) (rgn_attr r) (volume r) (pan r)
        (unityKey r) (keyLow r) (keyHigh r) (sampNum r) (ADSR1 r) (ADSR2 r) cents.

(** [VabRgn::LoadRgn]. [attr.adsr1] and [attr.adsr2] are the little-endian
    shorts at 16 and 18 of the bytes read into [attr]. The annotation
    items and [PSXConvADSR] do not decide the result and are left out. *)
Definition LoadRgn (file : RawFile.t) (masterVol : Z) (rgn : VabRgn)
  : bool * VabRgn :=
  let dwOffset := rgn_dwOffset rgn in
  let GetByte k := RawFile.GetByte file (u32 (dwOffset + k)) in
  let GetShort k := RawFile.GetShort file (u32 (dwOffset + k)) in
  let rgn := set_rgn_unLength 0x20 rgn in
  let rgn := set_rgn_attr (RawFile.GetBytes file dwOffset 0x20) rgn in
  let rgn := AddVolume (Qmake (GetByte 2 * masterVol) (127 * 127)) rgn in
  let rgn := AddPan (GetByte 3) rgn in
  let rgn := AddUnityKey (GetByte 4) rgn in
  let rgn := AddKeyLow (GetByte 6) rgn in
  let rgn := AddKeyHigh (GetByte 7) rgn in
  let rgn := AddSampNum (GetShort 22 - 1) rgn in
  let rgn := set_ADSR1 (GetShort 16) rgn in
  let rgn := set_ADSR2 (GetShort 18) rgn in
  let rgn := if to_int32 (sampNum rgn) <? 0 then set_sampNum 0 rgn else rgn in
  if keyLow rgn >? keyHigh rgn then (false, rgn)
  else
    let ft := to_int8 (GetByte 5) in
    let cents := Z.quot (ft * 100) 128 in
    (true, SetFineTune cents rgn).

(** *** VabInstr *)

Record VabInstr : Type := mkInstr {
  instr_dwOffset : Z;
  instr_unLength : Z;
  bank : Z;
  instrNum : Z;
  attr : list BYTE;
  masterVol : Z;
  aRgns : list VabRgn
}.

(** [VabInstr::VabInstr(instrSet, offset, length, theBank, theInstrNum)] *)
Definition new_VabInstr (offset length theBank theInstrNum : Z) : VabInstr :=
  mkInstr offset length theBank theInstrNum [] 127 [].

Definition set_attr (x : list BYTE) (instr : VabInstr) : VabInstr :=
  mkInstr (instr_dwOffset instr) (instr_unLength instr) (bank instr)
          (instrNum instr) x (masterVol instr) (aRgns instr).

Definition set_masterVol (x : Z) (instr : VabInstr) : VabInstr :=
  mkInstr (instr_dwOffset instr) (instr_unLength instr) (bank instr)
          (instrNum instr) (attr instr) x (aRgns instr).

(** [aRgns.push_back(rgn)] *)
Definition push_rgn (rgn : VabRgn) (instr : VabInstr) : VabInstr :=
  mkInstr (instr_dwOffset instr) (instr_unLength instr) (bank instr)
          (instrNum instr) (attr instr) (masterVol instr)
          (aRgns instr ++ [rgn]).

(** [attr.tones], the first byte of the program attributes. *)
Definition attr_tones (instr : VabInstr) : Z := byte_val (nth 0 (attr instr) NUL).

(** The [for (int i = 0; i < numRgns; i++)] loop with [n] turns left. *)
Fixpoint LoadInstr_loop (file : RawFile.t) (n : nat) (i : Z) (instr : VabInstr)
  : bool * VabInstr :=
  match n with
  | O => (true, instr)
  | S n' =>
      let rgn := new_VabRgn (u32 (instr_dwOffset instr + i * 0x20)) in
      let '(ok, rgn) := LoadRgn file (masterVol instr) rgn in
      if negb ok then (false, instr)
      else LoadInstr_loop file n' (i + 1) (push_rgn rgn instr)
  end.

(** [VabInstr::LoadInstr] *)
Definition LoadInstr (file : RawFile.t) (instr : VabInstr) : bool * VabInstr :=
  let numRgns := to_int8 (attr_tones instr) in
  LoadInstr_loop file (Z.to_nat numRgns) 0 instr.

(** *** Vab *)

(** The members of [Vab] that [GetInstrPointers] reads and writes.
    [endOffset] is what [GetEndOffset()] returns; [log] is the root's log;
    [sampColl] is the [PSXSampColl] request [(offVAGs, totalVAGSize,
    vagLocations)], whose loading is not part of these sources. Of the
    annotation headers only the length of the tone attributes table is
    kept. *)
Record t : Type := mk {
  rawfile : RawFile.t;
  dwOffset : Z;
  unLength : Z;
  endOffset : Z;
  aInstrs : list VabInstr;
  toneAttrsHdr_unLength : Z;
  log : list LogItem;
  sampColl : option (Z * Z * list SizeOffsetPair)
}.

Definition GetEndOffset (v : t) : Z := endOffset v.
Definition GetByte (v : t) (off : Z) : Z := RawFile.GetByte (rawfile v) off.
Definition GetShort (v : t) (off : Z) : Z := RawFile.GetShort (rawfile v) off.
Definition GetBytes (v : t) (off n : Z) : list BYTE := RawFile.GetBytes (rawfile v) off n.

Definition add_log (item : LogItem) (v : t) : t :=
  mk (rawfile v) (dwOffset v) (unLength v) (endOffset v) (aInstrs v)
     (toneAttrsHdr_unLength v) (log v ++ [item]) (sampColl v).

Definition push_instr (instr : VabInstr) (len : Z) (v : t) : t :=
  mk (rawfile v) (dwOffset v) (unLength v) (endOffset v) (aInstrs v ++ [instr])
     len (log v) (sampColl v).

Definition offProgs (v : t) : Z := u32 (dwOffset v + 0x20).
Definition offToneAttrs (v : t) : Z := u32 (offProgs v + 16 * 128).

(** The instrument made for slot [i] at [offCurrToneAttrs]:
    [new VabInstr(this, offCurrToneAttrs, 0x20 * 16, 0, i)] with [attr] and
    [masterVol] read from the program table. *)
Definition program_instr (v : t) (i : nat) (offCurrToneAttrs : Z) : VabInstr :=
  let offCurrProg := u32 (offProgs v + Z.of_nat i * 16) in
  let newInstr := new_VabInstr offCurrToneAttrs (0x20 * 16) 0 (Z.of_nat i) in
  let newInstr := set_attr (GetBytes v offCurrProg 0x10) newInstr in
  set_masterVol (GetByte v (u32 (offCurrProg + 0x01))) newInstr.

(** The [for (uint32_t i = 0; i < 128; i++)] loop from slot [i] with [n]
    turns left; [break] returns the object as it is. *)
Fixpoint scan_programs (n : nat) (i : nat) (v : t) : t :=
  match n with
  | O => v
  | S n' =>
      let offCurrProg := u32 (offProgs v + Z.of_nat i * 16) in
      let offCurrToneAttrs :=
        u32 (offToneAttrs v + Z.of_nat (length (aInstrs v)) * 32 * 16) in
      if u32 (offCurrToneAttrs + 32 * 16) >? GetEndOffset v then v
      else
        let numTones := GetByte v offCurrProg in
        if numTones >? 32 then
          scan_programs n' (S i) (add_log (TooManyTones numTones (Z.of_nat i)) v)
        else if negb (numTones =? 0) then
          scan_programs n' (S i)
            (push_instr (program_instr v i offCurrToneAttrs)
               (u32 (u32 (offCurrToneAttrs + 32 * 16) - offToneAttrs v)) v)
        else scan_programs n' (S i) v
  end.

(** The locals of the VAG pointer table walk. *)
Record VagScan : Type := mkScan {
  vagLocations : list SizeOffsetPair;
  totalVAGSize : Z;
  vagLog : list LogItem
}.

(** One turn of [for (uint32_t i = 0; i < numVAGs; i++)]. [vagLocations[i - 1]]
    past the end of the vector has no defined value: [None]. *)
Definition vag_iter (file : RawFile.t) (offVAGOffsets vagStartOffset nEndOffset : Z)
    (i : nat) (st : VagScan) : option VagScan :=
  let vagSize :=
    RawFile.GetShort file (u32 (offVAGOffsets + (Z.of_nat i + 1) * 2)) * 8 in
  let vagOffset :=
    if (i =? 0)%nat then Some vagStartOffset
    else
      match vagLocations st !! (i - 1)%nat with
      | Some prev => Some (u32 (u32 (vagStartOffset + offset prev) + size prev))
      | None => None
      end in
  match vagOffset with
  | None => None
  | Some vagOffset =>
      if u32 (vagOffset + vagSize) <=? nEndOffset then
        Some (mkScan (vagLocations st ++ [mkPair vagOffset vagSize])
                     (u32 (totalVAGSize st + vagSize)) (vagLog st))
      else
        Some (mkScan (vagLocations st) (totalVAGSize st)
                     (vagLog st ++ [InvalidVAG (Z.of_nat i + 1) vagOffset vagSize]))
  end.

(** The loop from index [i] with [n] turns left. *)
Fixpoint vag_loop (file : RawFile.t) (offVAGOffsets vagStartOffset nEndOffset : Z)
    (n : nat) (i : nat) (st : VagScan) : option VagScan :=
  match n with
  | O => Some st
  | S n' =>
      match vag_iter file offVAGOffsets vagStartOffset nEndOffset i st with
      | None => None
      | Some st' => vag_loop file offVAGOffsets vagStartOffset nEndOffset n' (S i) st'
      end
  end.

(** [Vab::GetInstrPointers]. The annotation headers ([AddHeader],
    [AddSimpleItem]) are not members of [t]; of the two the source adds on
    entry, the tone attributes header is present by its length
    [toneAttrsHdr_unLength], 32 * 16 when it is created. *)
Definition GetInstrPointers (v : t) : option (bool * t) :=
  let nEndOffset := GetEndOffset v in
  let numPrograms := GetShort v (u32 (dwOffset v + 0x12)) in
  let numVAGs := GetShort v (u32 (dwOffset v + 0x16)) in
  let offVAGOffsets := u32 (offToneAttrs v + 32 * 16 * numPrograms) in
  if numPrograms >? 128 then Some (false, v)
  else if numVAGs >? 255 then Some (false, v)
  else
    let v := scan_programs 128 0 v in
    if u32 (offVAGOffsets + 2 * 256) <=? nEndOffset then
      let vagStartOffset := GetShort v offVAGOffsets * 8 in
      let st := mkScan [] vagStartOffset [] in
      match vag_loop (rawfile v) offVAGOffsets vagStartOffset nEndOffset
              (Z.to_nat numVAGs) 0 st with
      | None => None
      | Some st =>
          let unLength' := u32 (u32 (offVAGOffsets + 2 * 256) - dwOffset v) in
          let offVAGs := u32 (offVAGOffsets + 2 * 256) in
          let request :=
            if (dwOffset v =? 0) && negb (length (vagLocations st) =? 0)%nat
            then Some (offVAGs, totalVAGSize st, vagLocations st)
            else sampColl v in
          Some (true,
                mk (rawfile v) (dwOffset v) unLength' (endOffset v) (aInstrs v)
                   (toneAttrsHdr_unLength v) (log v ++ vagLog st) request)
      end
    else Some (true, v).

End Vab.

(** ** Reference definitions *)

(** The header fields and the sections of a PSF file, as [Load] reads
    them. *)
Module PSFSpec.

Definition reservedSize (file : RawFile.t) : Z := RawFile.GetWord file 4.
Definition exeSize (file : RawFile.t) : Z := RawFile.GetWord file 8.
Definition storedCRC (file : RawFile.t) : Z := RawFile.GetWord file 12.

(** The compressed program section. *)
Definition program_bytes (file : RawFile.t) : list BYTE :=
  RawFile.GetBytes file (u32 (16 + reservedSize file)) (exeSize file).

Definition reserved_bytes (file : RawFile.t) : list BYTE :=
  RawFile.GetBytes file 16 (reservedSize file).

(** The bytes from 16 + reservedSize + exeSize to the end of the file. *)
Definition trailing_region (file : RawFile.t) : list BYTE :=
  let tagSectionOffset := u32 (u32 (16 + reservedSize file) + exeSize file) in
  RawFile.GetBytes file tagSectionOffset
    (u32 (RawFile.size file - tagSectionOffset)).

(** The CRC-32 of the program section the way [Load] computes it. *)
Definition program_crc (file : RawFile.t) : Z :=
  Zlib.crc32 (Zlib.crc32 0 None) (Some (program_bytes file)).

(** The file is through the size, signature and header gates of [Load]. *)
Definition through_gates (file : RawFile.t) : Prop :=
  16 <= RawFile.size file
  /\ take 3 (RawFile.GetBytes file 0 4) = bytes_of_string "PSF"
  /\ PSFFile.header_inconsistent (RawFile.size file) (reservedSize file)
       (exeSize file) = false.

End PSFSpec.

(** The tag format in the words of its description: the text is split into
    lines at LF, a line is split at its first [=], both sides are trimmed,
    and values of one name are joined with LF in the order met. *)
Module TagSpec.

Fixpoint lines_from (cur s : list BYTE) : list (list BYTE) :=
  match s with
  | [] => match cur with [] => [] | _ => [cur] end
  | c :: s' =>
      if decide (c = PSFFile.LF) then cur :: lines_from [] s'
      else lines_from (cur ++ [c]) s'
  end.

(** A last line without LF is a line; an empty text has no line. *)
Definition lines (s : list BYTE) : list (list BYTE) := lines_from [] s.

Fixpoint skip_spaces (l : list BYTE) : list BYTE :=
  match l with
  | [] => []
  | c :: l' => if PSFFile.is_space c then skip_spaces l' else l
  end.

Definition trim (l : list BYTE) : list BYTE :=
  skip_spaces (reverse (skip_spaces (reverse l))).

Fixpoint find_char (c : BYTE) (l : list BYTE) : option nat :=
  match l with
  | [] => None
  | x :: l' => if decide (x = c) then Some O else S <$> find_char c l'
  end.

Definition line_pair (l : list BYTE) : option (string * string) :=
  match find_char "="%char l with
  | None => None
  | Some k =>
      Some (string_of_list_ascii (trim (take k l)),
            string_of_list_ascii (trim (drop (S k) l)))
  end.

Definition pairs (text : list BYTE) : list (string * string) :=
  omap line_pair (lines text).

Definition values_of (k : string) (ps : list (string * string)) : list string :=
  (filter (λ p, p.1 = k) ps).*2.

Definition join2 (a b : string) : string :=
  a +:+ String PSFFile.LF EmptyString +:+ b.

Definition merged (vs : list string) : option string :=
  match vs with
  | [] => None
  | v :: vs' => Some (foldl join2 v vs')
  end.

(** Recording a pair in the mapping. *)
Definition add_pair (m : gmap string string) (p : string * string)
  : gmap string string :=
  PSFFile.tags_add p.1 p.2 m.

Definition nul_free (text : list BYTE) : bool :=
  forallb (fun c => negb (bool_decide (c = NUL))) text.

End TagSpec.

(** The layout rule of the program scan in closed form. *)
Module VabSpec.

Definition numTones_at (v : Vab.t) (i : nat) : Z :=
  Vab.GetByte v (u32 (Vab.offProgs v + Z.of_nat i * 16)).

(** A slot is accepted when it holds 1 to 32 tones. *)
Definition accepted (v : Vab.t) (i : nat) : bool :=
  (0 <? numTones_at v i) && (numTones_at v i <=? 32).

Definition accepted_before (v : Vab.t) (i : nat) : nat :=
  length (filter (λ j, accepted v j = true) (seq 0 i)).

Definition toneAttrOffset (v : Vab.t) (i : nat) : Z :=
  u32 (Vab.offToneAttrs v + Z.of_nat (accepted_before v i) * 32 * 16).

Definition stops_at (v : Vab.t) (i : nat) : bool :=
  u32 (toneAttrOffset v i + 32 * 16) >? Vab.GetEndOffset v.

(** The slots looked at: all 128, or those before the first stop. *)
Definition scanned_slots (v : Vab.t) : nat :=
  match list_find (λ i, stops_at v i = true) (seq 0 128) with
  | Some (k, _) => k
  | None => 128%nat
  end.

(** The state of the VAG table walk on entering turn [i]. *)
Definition vag_state_at (file : RawFile.t)
    (offVAGOffsets vagStartOffset nEndOffset : Z) (i : nat)
  : option Vab.VagScan :=
  Vab.vag_loop file offVAGOffsets vagStartOffset nEndOffset i 0
    (Vab.mkScan [] vagStartOffset []).

(** Two objects over the same source at the same offsets. *)
Definition same_source (v v0 : Vab.t) : Prop :=
  Vab.rawfile v = Vab.rawfile v0
  /\ Vab.dwOffset v = Vab.dwOffset v0
  /\ Vab.endOffset v = Vab.endOffset v0.

(** The instrument the scan records for an accepted slot. *)
Definition slot_instr (v : Vab.t) (i : nat) : Vab.VabInstr :=
  Vab.program_instr v i (toneAttrOffset v i).

(** The warning the scan logs for a slot of more than 32 tones. *)
Definition slot_warning (v : Vab.t) (i : nat) : Vab.LogItem :=
  Vab.TooManyTones (numTones_at v i) (Z.of_nat i).

(** What [LoadRgn] makes of region [j] of a program. *)
Definition region_at (file : RawFile.t) (instr : Vab.VabInstr) (j : nat)
  : bool * Vab.VabRgn :=
  Vab.LoadRgn file (Vab.masterVol instr)
    (Vab.new_VabRgn (u32 (Vab.instr_dwOffset instr + Z.of_nat j * 0x20))).

End VabSpec.

(** ** Sample inputs *)

Definition psf_blank : PSFFile.t :=
  PSFFile.mk DataSeg.empty DataSeg.empty DataSeg.empty ∅ NUL 0 false None.

Definition le32 (x : Z) : list BYTE :=
  [byte_of_Z x; byte_of_Z (x / 2 ^ 8); byte_of_Z (x / 2 ^ 16); byte_of_Z (x / 2 ^ 24)].

(** A PSF image: signature, version, the two lengths, the stored CRC, the
    reserved bytes, the program bytes and what follows them. *)
Definition psf_image (ver : BYTE) (reserved payload : list BYTE) (crc : Z)
    (trailer : list BYTE) : list BYTE :=
  bytes_of_string "PSF" ++ [ver]
  ++ le32 (Z.of_nat (length reserved)) ++ le32 (Z.of_nat (length payload))
  ++ le32 crc ++ reserved ++ payload ++ trailer.

(** No program, no "[TAG]": five other bytes and one line. *)
Definition psf_untagged : RawFile.t :=
  RawFile.of_bytes (psf_image "001"%char [] [] 0 (bytes_of_string "XXXXXa=b")).

(** Three program bytes under a stored CRC of 0. *)
Definition psf_bad_crc : RawFile.t :=
  RawFile.of_bytes
    (psf_image "001"%char (bytes_of_string "rsv") (bytes_of_string "abc") 0
       (bytes_of_string "[TAG]title=x")).

(** Two [comment] lines with a [title] line between them. *)
Definition merge_text : list BYTE :=
  bytes_of_string "comment=foo" ++ [PSFFile.LF]
  ++ bytes_of_string " title = Song " ++ [PSFFile.LF]
  ++ bytes_of_string "comment=bar" ++ [PSFFile.LF].

Definition psf_merge : RawFile.t :=
  RawFile.of_bytes
    (psf_image "001"%char [] [] 0 (bytes_of_string "[TAG]" ++ merge_text)).

(** A tag section with a NUL line between two [comment] lines. *)
Definition psf_nul_tags : RawFile.t :=
  RawFile.of_bytes
    (psf_image "001"%char [] [] 0
       (bytes_of_string "[TAG]comment=foo" ++ [PSFFile.LF; NUL; PSFFile.LF]
        ++ bytes_of_string "comment=bar" ++ [PSFFile.LF])).

(** A 2 GiB file whose header declares 0x7FFFFFF8 bytes of each section;
    everything after the header is NUL. *)
Definition psf_huge : RawFile.t :=
  RawFile.mk (2 ^ 31)
    (fun i => nth (Z.to_nat i)
                (bytes_of_string "PSF" ++ ["001"%char]
                 ++ le32 0x7FFFFFF8 ++ le32 0x7FFFFFF8 ++ le32 0) NUL).

(** An [uncompress] that reports [st] and writes nothing. *)
Definition uncompress_reporting (st : Zlib.status)
  : Z -> list BYTE -> Z -> Zlib.status * list BYTE :=
  fun _ _ _ => (st, []).

Definition sparse_file (sz : Z) (cells : list (Z * Z)) : RawFile.t :=
  RawFile.mk sz
    (fun i => match find (fun c => fst c =? i) cells with
              | Some c => byte_of_Z (snd c)
              | None => NUL
              end).

Definition new_Vab (file : RawFile.t) (offset : Z) : Vab.t :=
  Vab.mk file offset 0 (RawFile.size file) [] (32 * 16) [] None.

(** A bank of 2592 bytes with no program and two VAGs: the first is
    0xFFFF * 8 bytes long, beyond the end, the second 8 bytes. *)
Definition vab_bad_vag : Vab.t :=
  new_Vab (sparse_file 2592 [(0x16, 2); (2082, 0xFF); (2083, 0xFF); (2084, 1)]) 0.

(** A bank of 8192 bytes: slot 0 has 2 tones, slot 1 none, slot 2 has 40,
    slot 5 has 1; the header declares one program. *)
Definition vab_programs : Vab.t :=
  new_Vab (sparse_file 8192
             [(0x12, 1); (0x20, 2); (0x21, 100); (0x40, 40); (0x70, 1); (0x71, 90)]) 0.

(** A bank of 8192 bytes whose slot 0 has two tones. The tone attributes
    start at 2080: the first region has keyLow 40 and keyHigh 80, the
    second keyLow 80 above keyHigh 40. *)
Definition file_bad_region : RawFile.t :=
  sparse_file 8192
    [(0x12, 1); (0x20, 2); (0x21, 127);
     (2086, 40); (2087, 80); (2118, 80); (2119, 40)].

(** The instrument the scan makes of slot 0 of that bank. *)
Definition instr_bad_region : Vab.VabInstr :=
  Vab.program_instr (new_Vab file_bad_region 0) 0 2080.

(** ** Further reference definitions *)

Module TagRef.

(** An end byte, where there is one, is above 0x20. *)
Definition edge_ok (o : option BYTE) : bool :=
  match o with
  | Some c => negb (PSFFile.is_space c)
  | None => true
  end.

(** A byte string with no byte up to 0x20 at either end. *)
Definition trimmed (l : list BYTE) : bool := edge_ok (head l) && edge_ok (last l).

(** A line with neither [=] nor LF in it. *)
Definition plain_line (l : list BYTE) : bool :=
  forallb (fun c => negb (bool_decide (c = "="%char))
                    && negb (bool_decide (c = PSFFile.LF))) l.

(** The text is empty or ends with LF: what follows starts a line. *)
Definition at_line_start (l : list BYTE) : bool :=
  match last l with
  | Some c => bool_decide (c = PSFFile.LF)
  | None => true
  end.

End TagRef.

(** The VAG pointer table read entry by entry, every entry before taken
    as accepted. *)
Module VagRef.

(** The size of entry [i]: the short at table position [i + 1], times 8. *)
Definition vag_size (file : RawFile.t) (offVAGOffsets : Z) (i : nat) : Z :=
  RawFile.GetShort file (u32 (offVAGOffsets + (Z.of_nat i + 1) * 2)) * 8.

(** The offset of entry [i], chained from the entry before. *)
Fixpoint vag_offset (file : RawFile.t) (offVAGOffsets vagStartOffset : Z)
    (i : nat) : Z :=
  match i with
  | O => vagStartOffset
  | S j =>
      u32 (u32 (vagStartOffset + vag_offset file offVAGOffsets vagStartOffset j)
           + vag_size file offVAGOffsets j)
  end.

(** Entry [i] ends at or before the end offset. *)
Definition fits (file : RawFile.t) (offVAGOffsets vagStartOffset nEndOffset : Z)
    (i : nat) : bool :=
  u32 (vag_offset file offVAGOffsets vagStartOffset i
       + vag_size file offVAGOffsets i) <=? nEndOffset.

Definition location (file : RawFile.t) (offVAGOffsets vagStartOffset : Z)
    (i : nat) : Vab.SizeOffsetPair :=
  Vab.mkPair (vag_offset file offVAGOffsets vagStartOffset i)
             (vag_size file offVAGOffsets i).

(** The running total after [n] accepted entries. *)
Fixpoint total (file : RawFile.t) (offVAGOffsets vagStartOffset : Z)
    (n : nat) : Z :=
  match n with
  | O => vagStartOffset
  | S k =>
      u32 (total file offVAGOffsets vagStartOffset k
           + vag_size file offVAGOffsets k)
  end.

End VagRef.

(** ** Further sample inputs *)

Definition psf_loaded : PSFFile.t :=
  PSFFile.mk (DataSeg.mk (bytes_of_string "old") 3) (DataSeg.mk (bytes_of_string "zz") 2)
    DataSeg.empty {[ "k"%string := "v"%string ]} "007"%char 99 true
    (Some "stale"%string).

(** A bank of 4096 bytes with no program and three VAGs of 16, 8 and 24
    bytes behind a start offset of 8. *)
Definition vab_three_vags : Vab.t :=
  new_Vab (sparse_file 4096
             [(0x16, 3); (2080, 1); (2082, 2); (2084, 1); (2086, 3)]) 0.

(** A bank whose header declares 129 programs. *)
Definition vab_too_many_programs : Vab.t :=
  new_Vab (sparse_file 8192 [(0x12, 129); (0x20, 2)]) 0.

(** The 16 header bytes of a PSF image. *)
Definition psf_header (ver : BYTE) (reservedSize exeSize crc : Z) : list BYTE :=
  bytes_of_string "PSF" ++ [ver] ++ le32 reservedSize ++ le32 exeSize ++ le32 crc.

(** The image whose stored CRC is the CRC-32 of its program bytes. *)
Definition psf_file (ver : BYTE) (reserved payload trailer : list BYTE) : RawFile.t :=
  RawFile.of_bytes
    (psf_image ver reserved payload
       (Zlib.crc32 (Zlib.crc32 0 None) (Some payload)) trailer).

(** A tag text with a padded name, a line without [=] and no final LF. *)
Definition ragged_text : list BYTE :=
  bytes_of_string "  artist  =  A B  " ++ [PSFFile.LF]
  ++ bytes_of_string "year=1998".

Definition plain_text : list BYTE := bytes_of_string "no separator here".

(** What [GetInstrPointers] reads of the bank header. *)
Module VabRef.

Definition numPrograms (v : Vab.t) : Z := Vab.GetShort v (u32 (Vab.dwOffset v + 0x12)).
Definition numVAGs (v : Vab.t) : Z := Vab.GetShort v (u32 (Vab.dwOffset v + 0x16)).

Definition offVAGOffsets (v : Vab.t) : Z :=
  u32 (Vab.offToneAttrs v + 32 * 16 * numPrograms v).

Definition vagStartOffset (v : Vab.t) : Z := Vab.GetShort v (offVAGOffsets v) * 8.

(** The 512 bytes of the VAG pointer table end at or before the end
    offset. *)
Definition has_vag_table (v : Vab.t) : bool :=
  u32 (offVAGOffsets v + 2 * 256) <=? Vab.GetEndOffset v.

(** Entry [i] of the table of [v] fits. *)
Definition fits (v : Vab.t) (i : nat) : bool :=
  VagRef.fits (Vab.rawfile v) (offVAGOffsets v) (vagStartOffset v)
    (Vab.GetEndOffset v) i.

Definition locations (v : Vab.t) (n : nat) : list Vab.SizeOffsetPair :=
  map (VagRef.location (Vab.rawfile v) (offVAGOffsets v) (vagStartOffset v))
    (seq 0 n).

Definition in_bounds (v : Vab.t) (loc : Vab.SizeOffsetPair) : Prop :=
  u32 (Vab.offset loc + Vab.size loc) <= Vab.GetEndOffset v.

End VabRef.

(** The regions of a program as [LoadInstr] reads them. *)
Module RgnRef.

(** The offset of region [j] of a program. *)
Definition rgn_offset (instr : Vab.VabInstr) (j : nat) : Z :=
  u32 (Vab.instr_dwOffset instr + Z.of_nat j * 0x20).

(** The key range of region [j] is in order: byte 6 is not above byte 7. *)
Definition key_range_ok (file : RawFile.t) (instr : Vab.VabInstr) (j : nat) : bool :=
  RawFile.GetByte file (u32 (rgn_offset instr j + 6))
  <=? RawFile.GetByte file (u32 (rgn_offset instr j + 7)).

(** The number of turns of the loop of [LoadInstr]. *)
Definition numRgns (instr : Vab.VabInstr) : nat :=
  Z.to_nat (to_int8 (Vab.attr_tones instr)).

End RgnRef.

(** A program of two tones with both key ranges in order. *)
Definition file_good_regions : RawFile.t :=
  sparse_file 8192
    [(0x12, 1); (0x20, 2); (0x21, 127);
     (2082, 127); (2085, 0xFF); (2086, 40); (2087, 80); (2102, 5);
     (2114, 64); (2117, 0x7F); (2118, 0); (2119, 127)].

Definition instr_good_regions : Vab.VabInstr :=
  Vab.program_instr (new_Vab file_good_regions 0) 0 2080.

(** ** The packing rule in exact arithmetic *)

(** The layout of the program scan as the format describes it, over the
    integers: no offset is reduced modulo 2^32 here. *)
Module PackSpec.

(** Slot [i] of the program table, which follows the 32-byte header in
    slots of 16 bytes. *)
Definition progOffset (v : Vab.t) (i : nat) : Z :=
  Vab.dwOffset v + 0x20 + Z.of_nat i * 16.

(** The tone attribute table follows the 128 slots. *)
Definition toneAttrTableOffset (v : Vab.t) : Z :=
  Vab.dwOffset v + 0x20 + 16 * 128.

Definition numTones (v : Vab.t) (i : nat) : Z :=
  RawFile.GetByte (Vab.rawfile v) (progOffset v i).

(** A program is accepted when it is not empty and has at most 32 tones. *)
Definition accepted (v : Vab.t) (i : nat) : bool :=
  (0 <? numTones v i) && (numTones v i <=? 32).

(** The number of programs accepted before slot [i]. *)
Definition acceptedBefore (v : Vab.t) (i : nat) : nat :=
  length (filter (λ j, accepted v j = true) (seq 0 i)).

(** The tone attribute offset of slot [i]. *)
Definition toneAttrOffset (v : Vab.t) (i : nat) : Z :=
  toneAttrTableOffset v + Z.of_nat (acceptedBefore v i) * (32 * 16).

(** The instrument of an accepted slot [i], member by member: offset,
    length, bank, program number, the 16 bytes of the slot, the master
    volume byte and no region. *)
Definition recorded (v : Vab.t) (i : nat) : Vab.VabInstr :=
  Vab.mkInstr (toneAttrOffset v i) (32 * 16) 0 (Z.of_nat i)
    (RawFile.GetBytes (Vab.rawfile v) (progOffset v i) 16)
    (RawFile.GetByte (Vab.rawfile v) (progOffset v i + 1)) [].

(** The warning for a slot of more than 32 tones. *)
Definition warning (v : Vab.t) (i : nat) : Vab.LogItem :=
  Vab.TooManyTones (numTones v i) (Z.of_nat i).

(** Where each recorded program lies: its program number and its offset. *)
Definition placement (instr : Vab.VabInstr) : Z * Z :=
  (Vab.instrNum instr, Vab.instr_dwOffset instr).

End PackSpec.

(** A bank in the last 2081 bytes of a file of 2^32 - 1 bytes: the header
    and the program table end with the file, slots 0 and 1 hold one tone
    each, and the tone attribute table would begin at the last byte. *)
Definition vab_wrapped : Vab.t :=
  new_Vab (sparse_file (2 ^ 32 - 1) [(2 ^ 32 - 2049, 1); (2 ^ 32 - 2033, 1)])
    (2 ^ 32 - 2081).

(** ** The buffer of the tag section *)

Module TagBufRef.

(** [new char[tagSectionSize + 1]]: the number of bytes allocated for the
    copy of the tag section and its terminator, in [UINT] arithmetic. *)
Definition allocated (file : RawFile.t) : Z :=
  let tagSectionOffset :=
    u32 (u32 (16 + PSFSpec.reservedSize file) + PSFSpec.exeSize file) in
  let tagSectionSize := u32 (RawFile.size file - tagSectionOffset) in
  u32 (tagSectionSize + 1).

(** The bytes [Load] puts there: the section and the NUL after it. *)
Definition written (file : RawFile.t) : Z :=
  Z.of_nat (length (PSFSpec.trailing_region file ++ [NUL])).

End TagBufRef.

(** A file of 2^32 - 1 bytes whose header declares 0x7FFFFFF8 reserved
    bytes and as many program bytes: 16 plus the two wraps to 0. *)
Definition psf_wrapped_tags : RawFile.t :=
  sparse_file (2 ^ 32 - 1)
    [(0, 0x50); (1, 0x53); (2, 0x46); (3, 1);
     (4, 0xF8); (5, 0xFF); (6, 0xFF); (7, 0x7F);
     (8, 0xF8); (9, 0xFF); (10, 0xFF); (11, 0x7F)].

(** * Properties *)

(** ** Arithmetic of the header gate *)

Lemma u32_small (x : Z) : 0 <= x < 2 ^ 32 -> u32 x = x.
Proof. intros H. unfold u32. apply Z.mod_small. exact H. Qed.

Lemma u32_range (x : Z) : 0 <= u32 x < 2 ^ 32.
Proof. unfold u32. apply Z.mod_pos_bound. lia. Qed.

(** Below 2^31 - 8 bytes the three comparisons of the gate decide the
    exact sum. *)
Lemma header_gate_exact (fileSize reservedSize exeSize : Z) :
  0 <= reservedSize -> 0 <= exeSize -> fileSize < 2 ^ 31 - 8 ->
  PSFFile.header_inconsistent fileSize reservedSize exeSize = true
  <-> 16 + reservedSize + exeSize > fileSize.
Proof.
  intros Hr He Hf. unfold PSFFile.header_inconsistent.
  rewrite !orb_true_iff, !Z.gtb_gt.
  split.
  - intros [[H | H] | H]; try lia.
    destruct (Z_lt_le_dec fileSize reservedSize) as [|Hr']; [lia|].
    destruct (Z_lt_le_dec fileSize exeSize) as [|He']; [lia|].
    rewrite !u32_small in H by (rewrite ?u32_small; lia). lia.
  - intros H.
    destruct (Z_lt_le_dec fileSize reservedSize) as [|Hr']; [left; left; lia|].
    destruct (Z_lt_le_dec fileSize exeSize) as [|He']; [left; right; lia|].
    right. rewrite !u32_small by (rewrite ?u32_small; lia). lia.
Qed.

(** A header whose exact sum is the file size passes the gate. *)
Lemma header_gate_equality (fileSize reservedSize exeSize : Z) :
  0 <= reservedSize -> 0 <= exeSize -> fileSize < 2 ^ 32 ->
  16 + reservedSize + exeSize = fileSize ->
  PSFFile.header_inconsistent fileSize reservedSize exeSize = false.
Proof.
  intros Hr He Hf Heq. unfold PSFFile.header_inconsistent.
  rewrite !orb_false_iff. repeat split.
  - rewrite Z.gtb_ltb. apply Z.ltb_ge. lia.
  - rewrite Z.gtb_ltb. apply Z.ltb_ge. lia.
  - rewrite Z.gtb_ltb. apply Z.ltb_ge.
    rewrite !u32_small by (rewrite ?u32_small; lia). lia.
Qed.

(** ** The tag loop ends *)

Lemma strchr_scan_ge (s : list BYTE) (pos : nat) (c : BYTE) (p : nat) :
  PSFFile.strchr_scan s pos c = Some p -> (pos <= p)%nat.
Proof.
  revert pos. induction s as [|x s IH]; intros pos H; simpl in H.
  - discriminate.
  - destruct (decide (x = c)).
    + injection H as <-. lia.
    + destruct (decide (x = NUL)); [discriminate|].
      apply IH in H. lia.
Qed.

Lemma strchr_ge (buf : list BYTE) (pos : nat) (c : BYTE) (p : nat) :
  PSFFile.strchr buf pos c = Some p -> (pos <= p)%nat.
Proof. apply strchr_scan_ge. Qed.

(** At or past the end of the section the loop is over. *)
Lemma parse_tags_done (fuel : nat) (buf : list BYTE) (sz pos : nat)
    (m : gmap string string) :
  (sz <= pos)%nat -> PSFFile.parse_tags fuel buf sz pos m = Some m.
Proof.
  intros H. destruct fuel; cbn [PSFFile.parse_tags];
    (replace (pos <? sz)%nat with false by (symmetry; apply Nat.ltb_ge; lia));
    reflexivity.
Qed.

(** With as much fuel as bytes left, the loop returns. *)
Lemma parse_tags_total (fuel : nat) :
  forall (buf : list BYTE) (sz pos : nat) (m : gmap string string),
    (sz - pos <= fuel)%nat ->
    is_Some (PSFFile.parse_tags fuel buf sz pos m).
Proof.
  induction fuel as [|fuel IH]; intros buf sz pos m Hfuel.
  - simpl. destruct (Nat.ltb_spec pos sz); [lia | eauto].
  - simpl. destruct (Nat.ltb_spec pos sz); [| eauto].
    assert (Hnext : (sz - ((match PSFFile.strchr buf pos PSFFile.LF with
                            | Some p => p | None => sz end) + 1) <= fuel)%nat).
    { destruct (PSFFile.strchr buf pos PSFFile.LF) as [p|] eqn:E.
      - apply strchr_ge in E. lia.
      - lia. }
    destruct (PSFFile.strchr _ pos "="%char); apply IH; exact Hnext.
Qed.

(** ** Load *)

Section LoadGates.

Variable file : RawFile.t.
Variable self : PSFFile.t.

Hypothesis gates : PSFSpec.through_gates file.

(** [Load] up to the CRC comparison. *)
Lemma Load_to_crc :
  PSFFile.Load file self
  = if negb (PSFSpec.storedCRC file =? PSFSpec.program_crc file) then
      Some (false,
            PSFFile.mk DataSeg.empty DataSeg.empty DataSeg.empty ∅
              (nth 3 (RawFile.GetBytes file 0 4) NUL) (PSFSpec.storedCRC file)
              false (Some "CRC failure - executable data is corrupt"%string))
    else
      match PSFFile.parse_tags (length (PSFSpec.trailing_region file))
              (PSFSpec.trailing_region file ++ [NUL])
              (length (PSFSpec.trailing_region file)) 5 ∅ with
      | None => None
      | Some m =>
          Some (true,
                PSFFile.mk DataSeg.empty
                  (DataSeg.mk (PSFSpec.program_bytes file) (PSFSpec.exeSize file))
                  (DataSeg.mk (PSFSpec.reserved_bytes file)
                     (PSFSpec.reservedSize file))
                  m (nth 3 (RawFile.GetBytes file 0 4) NUL)
                  (PSFSpec.storedCRC file) false None)
      end.
Proof.
  destruct gates as (Hsize & Hsig & Hhdr).
  unfold PSFFile.Load.
  replace (RawFile.size file <? 16) with false by (symmetry; apply Z.ltb_ge; lia).
  rewrite bool_decide_eq_true_2 by exact Hsig.
  cbv zeta.
  fold (PSFSpec.reservedSize file) (PSFSpec.exeSize file) (PSFSpec.storedCRC file).
  rewrite Hhdr.
  cbn [negb PSFFile.exeCRC PSFFile.set_exeCompData PSFFile.set_exeCRC
       PSFFile.set_version PSFFile.Clear].
  fold (PSFSpec.program_bytes file). fold (PSFSpec.program_crc file).
  destruct (negb (PSFSpec.storedCRC file =? PSFSpec.program_crc file));
    [reflexivity|].
  assert (Hlen : length (PSFSpec.trailing_region file)
                 = Z.to_nat (u32 (RawFile.size file
                                  - u32 (u32 (16 + PSFSpec.reservedSize file)
                                         + PSFSpec.exeSize file)))).
  { unfold PSFSpec.trailing_region, RawFile.GetBytes. cbv zeta.
    rewrite length_map, length_seq. reflexivity. }
  rewrite <- Hlen.
  change (Z.to_nat PSFFile.PSF_TAG_SIG_LEN) with 5%nat.
  reflexivity.
Qed.

(** A file through the three gates that fails the CRC comparison. *)
Lemma Load_crc_mismatch :
  PSFSpec.storedCRC file <> PSFSpec.program_crc file ->
  PSFFile.Load file self
  = Some (false,
          PSFFile.mk DataSeg.empty DataSeg.empty DataSeg.empty ∅
            (nth 3 (RawFile.GetBytes file 0 4) NUL) (PSFSpec.storedCRC file)
            false (Some "CRC failure - executable data is corrupt"%string)).
Proof.
  intros Hcrc. rewrite Load_to_crc.
  apply Z.eqb_neq in Hcrc. rewrite Hcrc. reflexivity.
Qed.

(** A file through the three gates and the CRC comparison: the record
    that [Load] builds around the result of the tag loop. *)
Lemma Load_crc_match :
  PSFSpec.storedCRC file = PSFSpec.program_crc file ->
  PSFFile.Load file self
  = match PSFFile.parse_tags (length (PSFSpec.trailing_region file))
            (PSFSpec.trailing_region file ++ [NUL])
            (length (PSFSpec.trailing_region file)) 5 ∅ with
    | None => None
    | Some m =>
        Some (true,
              PSFFile.mk DataSeg.empty
                (DataSeg.mk (PSFSpec.program_bytes file) (PSFSpec.exeSize file))
                (DataSeg.mk (PSFSpec.reserved_bytes file)
                   (PSFSpec.reservedSize file))
                m (nth 3 (RawFile.GetBytes file 0 4) NUL)
                (PSFSpec.storedCRC file) false None)
    end.
Proof.
  intros Hcrc. rewrite Load_to_crc.
  apply Z.eqb_eq in Hcrc. rewrite Hcrc. reflexivity.
Qed.

(** A file through the three gates is loaded or fails on its CRC: [Load]
    returns, and not with the message of the header gate. *)
Lemma Load_past_gates :
  exists r, PSFFile.Load file self = Some r
    /\ (PSFFile.errorstr (snd r) = None
        \/ PSFFile.errorstr (snd r)
           = Some "CRC failure - executable data is corrupt"%string).
Proof.
  destruct (Z.eq_dec (PSFSpec.storedCRC file) (PSFSpec.program_crc file))
    as [Heq|Hne].
  - rewrite Load_crc_match by exact Heq.
    match goal with
    | |- context [PSFFile.parse_tags ?f ?b ?s ?p ?m] =>
        destruct (parse_tags_total f b s p m) as [m' Hm'];
          [lia | rewrite Hm']
    end.
    eexists. split; [reflexivity | left; reflexivity].
  - rewrite Load_crc_mismatch by exact Hne.
    eexists. split; [reflexivity | right; reflexivity].
Qed.

End LoadGates.

(** [Load] returns on every file. *)
Lemma Load_returns (file : RawFile.t) (self : PSFFile.t) :
  is_Some (PSFFile.Load file self).
Proof.
  unfold PSFFile.Load. cbv zeta.
  destruct (RawFile.size file <? 16); [eauto|].
  destruct (negb (bool_decide _)); [eauto|].
  destruct (PSFFile.header_inconsistent _ _ _); [eauto|].
  destruct (negb (_ =? _)); [eauto|].
  match goal with
  | |- context [PSFFile.parse_tags ?f ?b ?s ?p ?m] =>
      destruct (parse_tags_total f b s p m) as [m' Hm']; [lia | rewrite Hm']
  end.
  eauto.
Qed.

(** With at most five bytes after the program section the loop does not
    run and no tag is recorded. *)
Lemma Load_short_trailer (file : RawFile.t) (self : PSFFile.t) :
  PSFSpec.through_gates file ->
  PSFSpec.storedCRC file = PSFSpec.program_crc file ->
  (length (PSFSpec.trailing_region file) <= 5)%nat ->
  exists p, PSFFile.Load file self = Some (true, p) /\ PSFFile.tags p = ∅.
Proof.
  intros Hgates Hcrc Hlen.
  rewrite (Load_crc_match file self Hgates Hcrc).
  rewrite parse_tags_done by exact Hlen.
  eexists. split; reflexivity.
Qed.

(** C1. The tags are to be recorded only when the bytes after the program
    section begin with "[TAG]". [Load] computes [hasTagSection] and then
    parses the section all the same: in [psf_untagged] the trailing bytes
    are "XXXXXa=b", they do not begin with the marker, and the loaded
    record maps "a" to "b". *)
Theorem Load_untagged_trailer_parsed :
  take 5 (PSFSpec.trailing_region psf_untagged) <> bytes_of_string PSFFile.PSF_TAG_SIG
  /\ PSFFile.Load psf_untagged psf_blank
     = Some (true,
             PSFFile.mk DataSeg.empty DataSeg.empty DataSeg.empty
               {[ "a"%string := "b"%string ]} "001"%char 0 false None).
Proof.
  split.
  - vm_compute. discriminate.
  - vm_compute. reflexivity.
Qed.

(** C4. A header whose exact sum 16 + reservedSize + exeSize exceeds the
    file size is to fail as inconsistent, also when the 32-bit sum wraps.
    In [psf_huge] both sizes are 0x7FFFFFF8 and the file has 2^31 bytes:
    neither size exceeds the file size, the 32-bit sum is 0, and [Load]
    goes past the gate; it returns, and not with the message of an
    inconsistent header. *)
Theorem Load_header_gate_wraps :
  16 + PSFSpec.reservedSize psf_huge + PSFSpec.exeSize psf_huge
    > RawFile.size psf_huge
  /\ PSFFile.header_inconsistent (RawFile.size psf_huge)
       (PSFSpec.reservedSize psf_huge) (PSFSpec.exeSize psf_huge) = false
  /\ exists r, PSFFile.Load psf_huge psf_blank = Some r
       /\ PSFFile.errorstr (snd r) <> Some "PSF header is inconsistent"%string.
Proof.
  split; [vm_compute; reflexivity|].
  split; [vm_compute; reflexivity|].
  destruct (Load_past_gates psf_huge psf_blank) as (r & Hr & Herr).
  - repeat split; vm_compute; (discriminate || reflexivity).
  - exists r. split; [exact Hr|].
    destruct Herr as [-> | ->]; discriminate.
Qed.

(** C5 as stated fails: [ReadExe] succeeds when [uncompress] reports that
    the destination is too small, and fails when it reports a data
    error. *)
Lemma ReadExe_buf_error_succeeds :
  fst (fst (PSFFile.ReadExe (uncompress_reporting Zlib.Z_BUF_ERROR) 16 psf_blank)) = true
  /\ fst (fst (PSFFile.ReadExe (uncompress_reporting Zlib.Z_DATA_ERROR) 16 psf_blank)) = false.
Proof. split; reflexivity. Qed.

(** C5, amended. [ReadExe] returns failure exactly when [uncompress] reports
    a data error; for every other status, a destination too small among
    them, it returns success; and the object is left as it was. *)
Theorem ReadExe_fails_on_data_error
    (uncompress : Z -> list BYTE -> Z -> Zlib.status * list BYTE)
    (readlen : Z) (self : PSFFile.t) :
  (fst (fst (PSFFile.ReadExe uncompress readlen self)) = false
   <-> fst (uncompress readlen (DataSeg.data (PSFFile.exeCompData self))
              (DataSeg.size (PSFFile.exeCompData self))) = Zlib.Z_DATA_ERROR)
  /\ snd (PSFFile.ReadExe uncompress readlen self) = self.
Proof.
  unfold PSFFile.ReadExe.
  destruct (uncompress readlen _ _) as [st buf].
  destruct st; simpl; split; try reflexivity; split; congruence.
Qed.

(** C7. A file through the size, signature and header gates whose stored
    checksum is not the CRC-32 of its program bytes fails to load; the
    compressed program buffer is empty afterwards, and so are the
    reserved data and the tags, which are read only after the check. *)
Theorem Load_checksum_gate (file : RawFile.t) (self : PSFFile.t) :
  PSFSpec.through_gates file ->
  PSFSpec.storedCRC file <> PSFSpec.program_crc file ->
  exists p, PSFFile.Load file self = Some (false, p)
    /\ PSFFile.exeCompData p = DataSeg.empty
    /\ PSFFile.reservedData p = DataSeg.empty
    /\ PSFFile.tags p = ∅
    /\ PSFFile.errorstr p = Some "CRC failure - executable data is corrupt"%string.
Proof.
  intros Hgates Hcrc.
  rewrite (Load_crc_mismatch file self Hgates Hcrc).
  eexists. split; [reflexivity|]. repeat split.
Qed.

Lemma Load_checksum_gate_witness :
  exists p, PSFFile.Load psf_bad_crc psf_blank = Some (false, p)
    /\ PSFFile.exeCompData p = DataSeg.empty
    /\ PSFFile.reservedData p = DataSeg.empty
    /\ PSFFile.tags p = ∅
    /\ PSFFile.errorstr p = Some "CRC failure - executable data is corrupt"%string.
Proof.
  apply (Load_checksum_gate psf_bad_crc psf_blank).
  - repeat split; vm_compute; (discriminate || reflexivity).
  - vm_compute. discriminate.
Defined.

(** C10. [Decompress] with size 0 empties the decompressed buffer and
    succeeds exactly when the compressed program is empty; otherwise it
    fails with its length mismatch message. *)
Theorem Decompress_zero
    (uncompress : Z -> list BYTE -> Z -> Zlib.status * list BYTE)
    (self : PSFFile.t) :
  PSFFile.exeData (snd (PSFFile.Decompress uncompress 0 self)) = DataSeg.empty
  /\ (fst (PSFFile.Decompress uncompress 0 self) = true
      <-> DataSeg.size (PSFFile.exeCompData self) = 0)
  /\ (fst (PSFFile.Decompress uncompress 0 self) = false ->
      PSFFile.errorstr (snd (PSFFile.Decompress uncompress 0 self))
      = Some "Decompression failed"%string).
Proof.
  unfold PSFFile.Decompress. simpl.
  destruct (Z.eqb_spec (DataSeg.size (PSFFile.exeCompData self)) 0) as [E|E];
    simpl; repeat split; try congruence; try reflexivity.
Qed.

(** ** The program scan *)

Lemma byte_val_range (b : BYTE) : 0 <= byte_val b < 256.
Proof.
  unfold byte_val. pose proof (N_ascii_bounded b). lia.
Qed.

(** The scan leaves the source, the offset and the end offset alone. *)
Lemma scan_programs_frame (n : nat) :
  forall (i : nat) (v : Vab.t),
    Vab.rawfile (Vab.scan_programs n i v) = Vab.rawfile v
    /\ Vab.dwOffset (Vab.scan_programs n i v) = Vab.dwOffset v
    /\ Vab.endOffset (Vab.scan_programs n i v) = Vab.endOffset v.
Proof.
  induction n as [|n IH]; intros i v; simpl; [auto|].
  destruct (_ >? Vab.GetEndOffset v); [auto|].
  destruct (_ >? 32).
  - destruct (IH (S i) (Vab.add_log (Vab.TooManyTones
              (Vab.GetByte v (u32 (Vab.offProgs v + Z.of_nat i * 16))) (Z.of_nat i)) v))
      as (-> & -> & ->). auto.
  - destruct (negb _).
    + match goal with
      | |- context [Vab.scan_programs n (S i) ?w] =>
          destruct (IH (S i) w) as (-> & -> & ->)
      end. auto.
    + apply IH.
Qed.

Lemma seq_filter_snoc (P : nat -> bool) (i : nat) :
  filter (λ j, P j = true) (seq 0 (S i))
  = filter (λ j, P j = true) (seq 0 i) ++ (if P i then [i] else []).
Proof.
  rewrite seq_S, filter_app. simpl. f_equal.
  rewrite filter_cons, filter_nil.
  destruct (P i); [rewrite decide_True by reflexivity | rewrite decide_False by discriminate];
    reflexivity.
Qed.

Lemma scanned_slots_stop (v : Vab.t) (i : nat) :
  (i < 128)%nat ->
  (forall j, (j < i)%nat -> VabSpec.stops_at v j = false) ->
  VabSpec.stops_at v i = true ->
  VabSpec.scanned_slots v = i.
Proof.
  intros Hi Hbefore Hstop. unfold VabSpec.scanned_slots.
  assert (H : list_find (λ j, VabSpec.stops_at v j = true) (seq 0 128) = Some (i, i)).
  { apply list_find_Some. split; [|split].
    - apply lookup_seq. lia.
    - exact Hstop.
    - intros j y Hj Hlt. apply lookup_seq in Hj as [-> _]. simpl.
      rewrite (Hbefore j Hlt). discriminate. }
  rewrite H. reflexivity.
Qed.

Lemma scanned_slots_all (v : Vab.t) :
  (forall j, (j < 128)%nat -> VabSpec.stops_at v j = false) ->
  VabSpec.scanned_slots v = 128%nat.
Proof.
  intros Hnone. unfold VabSpec.scanned_slots.
  destruct (list_find _ _) as [[k x]|] eqn:E; [|reflexivity].
  apply list_find_Some in E as (Hk & Hx & _).
  apply lookup_seq in Hk as [-> Hlt]. simpl in Hx.
  rewrite (Hnone k Hlt) in Hx. discriminate.
Qed.

Lemma scan_programs_S (n i : nat) (v : Vab.t) :
  Vab.scan_programs (S n) i v
  = let offCurrProg := u32 (Vab.offProgs v + Z.of_nat i * 16) in
    let offCurrToneAttrs :=
      u32 (Vab.offToneAttrs v + Z.of_nat (length (Vab.aInstrs v)) * 32 * 16) in
    if u32 (offCurrToneAttrs + 32 * 16) >? Vab.GetEndOffset v then v
    else
      let numTones := Vab.GetByte v offCurrProg in
      if numTones >? 32 then
        Vab.scan_programs n (S i)
          (Vab.add_log (Vab.TooManyTones numTones (Z.of_nat i)) v)
      else if negb (numTones =? 0) then
        Vab.scan_programs n (S i)
          (Vab.push_instr (Vab.program_instr v i offCurrToneAttrs)
             (u32 (u32 (offCurrToneAttrs + 32 * 16) - Vab.offToneAttrs v)) v)
      else Vab.scan_programs n (S i) v.
Proof. reflexivity. Qed.

Lemma same_source_numTones (v v0 : Vab.t) (i : nat) :
  VabSpec.same_source v v0 ->
  Vab.GetByte v (u32 (Vab.offProgs v + Z.of_nat i * 16)) = VabSpec.numTones_at v0 i.
Proof.
  intros (Hf & Hd & _). unfold VabSpec.numTones_at, Vab.GetByte, Vab.offProgs.
  rewrite Hf, Hd. reflexivity.
Qed.

Lemma same_source_instr (v v0 : Vab.t) (i : nat) (off : Z) :
  VabSpec.same_source v v0 -> Vab.program_instr v i off = Vab.program_instr v0 i off.
Proof.
  intros (Hf & Hd & _).
  unfold Vab.program_instr, Vab.GetBytes, Vab.GetByte, Vab.offProgs.
  rewrite Hf, Hd. reflexivity.
Qed.

Lemma scan_programs_spec (v0 : Vab.t) (n : nat) :
  forall (i : nat) (v : Vab.t),
    (i + n = 128)%nat ->
    VabSpec.same_source v v0 ->
    Vab.aInstrs v
    = map (VabSpec.slot_instr v0)
        (filter (λ j, VabSpec.accepted v0 j = true) (seq 0 i)) ->
    Vab.log v
    = Vab.log v0
      ++ map (VabSpec.slot_warning v0)
           (filter (λ j, (VabSpec.numTones_at v0 j >? 32) = true) (seq 0 i)) ->
    (forall j, (j < i)%nat -> VabSpec.stops_at v0 j = false) ->
    Vab.aInstrs (Vab.scan_programs n i v)
    = map (VabSpec.slot_instr v0)
        (filter (λ j, VabSpec.accepted v0 j = true)
           (seq 0 (VabSpec.scanned_slots v0)))
    /\ Vab.log (Vab.scan_programs n i v)
       = Vab.log v0
         ++ map (VabSpec.slot_warning v0)
              (filter (λ j, (VabSpec.numTones_at v0 j >? 32) = true)
                 (seq 0 (VabSpec.scanned_slots v0))).
Proof.
  induction n as [|n IH]; intros i v Hin Hsrc Hinstrs Hlog Hbefore.
  - simpl. replace i with 128%nat in * by lia.
    rewrite (scanned_slots_all v0 Hbefore). auto.
  - rewrite scan_programs_S. cbv zeta.
    assert (Hoff : u32 (Vab.offToneAttrs v
                        + Z.of_nat (length (Vab.aInstrs v)) * 32 * 16)
                   = VabSpec.toneAttrOffset v0 i).
    { unfold VabSpec.toneAttrOffset, VabSpec.accepted_before.
      rewrite Hinstrs, length_map.
      destruct Hsrc as (_ & Hd & _).
      unfold Vab.offToneAttrs, Vab.offProgs. rewrite Hd. reflexivity. }
    rewrite Hoff.
    assert (Hstop : (u32 (VabSpec.toneAttrOffset v0 i + 32 * 16) >? Vab.GetEndOffset v)
                    = VabSpec.stops_at v0 i).
    { unfold VabSpec.stops_at, Vab.GetEndOffset.
      destruct Hsrc as (_ & _ & ->). reflexivity. }
    rewrite Hstop.
    destruct (VabSpec.stops_at v0 i) eqn:Estop.
    + rewrite (scanned_slots_stop v0 i) by (lia || assumption). auto.
    + assert (Hbefore' : forall j, (j < S i)%nat -> VabSpec.stops_at v0 j = false).
      { intros j Hj. destruct (decide (j = i)) as [->|]; [assumption|].
        apply Hbefore. lia. }
      rewrite (same_source_numTones v v0 i Hsrc).
      pose proof (byte_val_range
                    (RawFile.byte_at (Vab.rawfile v0)
                       (u32 (Vab.offProgs v0 + Z.of_nat i * 16)))) as Hrange.
      fold (RawFile.GetByte (Vab.rawfile v0)
              (u32 (Vab.offProgs v0 + Z.of_nat i * 16))) in Hrange.
      fold (Vab.GetByte v0 (u32 (Vab.offProgs v0 + Z.of_nat i * 16))) in Hrange.
      fold (VabSpec.numTones_at v0 i) in Hrange.
      destruct (VabSpec.numTones_at v0 i >? 32) eqn:Emany.
      * assert (Hacc : VabSpec.accepted v0 i = false).
        { unfold VabSpec.accepted. apply andb_false_iff. right.
          apply Z.leb_gt. apply Z.gtb_gt in Emany. lia. }
        apply IH; [lia | exact Hsrc | | | exact Hbefore'].
        -- cbn [Vab.aInstrs Vab.add_log].
           rewrite Hinstrs, seq_filter_snoc, Hacc, app_nil_r. reflexivity.
        -- cbn [Vab.log Vab.add_log].
           rewrite Hlog, seq_filter_snoc, Emany, map_app, app_assoc.
           reflexivity.
      * assert (Hle : VabSpec.numTones_at v0 i <= 32).
        { destruct (Z.gtb_spec (VabSpec.numTones_at v0 i) 32); [discriminate | lia]. }
        destruct (Z.eqb_spec (VabSpec.numTones_at v0 i) 0) as [E0|E0]; cbn [negb].
        -- assert (Hacc : VabSpec.accepted v0 i = false).
           { unfold VabSpec.accepted. rewrite E0. reflexivity. }
           apply IH; [lia | exact Hsrc | | | exact Hbefore'].
           ++ rewrite Hinstrs, seq_filter_snoc, Hacc, app_nil_r. reflexivity.
           ++ rewrite Hlog, seq_filter_snoc, Emany, app_nil_r. reflexivity.
        -- assert (Hacc : VabSpec.accepted v0 i = true).
           { unfold VabSpec.accepted. apply andb_true_iff. split.
             - apply Z.ltb_lt. lia.
             - apply Z.leb_le. lia. }
           apply IH; [lia | exact Hsrc | | | exact Hbefore'].
           ++ cbn [Vab.aInstrs Vab.push_instr].
              rewrite Hinstrs, seq_filter_snoc, Hacc, map_app.
              rewrite (same_source_instr v v0 i _ Hsrc). reflexivity.
           ++ cbn [Vab.log Vab.push_instr].
              rewrite Hlog, seq_filter_snoc, Emany, app_nil_r. reflexivity.
Qed.

(** [scanned_slots] is the first slot at which the scan stops, or 128. *)
Lemma scanned_slots_first_stop (v : Vab.t) :
  (VabSpec.scanned_slots v <= 128)%nat
  /\ (forall j, (j < VabSpec.scanned_slots v)%nat -> VabSpec.stops_at v j = false)
  /\ ((VabSpec.scanned_slots v < 128)%nat ->
      VabSpec.stops_at v (VabSpec.scanned_slots v) = true).
Proof.
  unfold VabSpec.scanned_slots.
  destruct (list_find _ _) as [[k x]|] eqn:E.
  - apply list_find_Some in E as (Hk & Hx & Hmin).
    apply lookup_seq in Hk as [-> Hlt]. simpl in Hx.
    split; [lia|]. split; [|intros _; exact Hx].
    intros j Hj. destruct (VabSpec.stops_at v j) eqn:Ej; [|reflexivity].
    exfalso. apply (Hmin j j); [apply lookup_seq; lia | exact Hj | exact Ej].
  - split; [lia|]. split; [|lia].
    intros j Hj. apply list_find_None in E.
    rewrite Forall_forall in E.
    destruct (VabSpec.stops_at v j) eqn:Ej; [|reflexivity].
    exfalso. apply (E j); [apply elem_of_seq; lia | exact Ej].
Qed.

(** Where the table of 128 programs fits below 2^32 the offsets do not
    wrap. *)
Lemma toneAttrOffset_exact (v : Vab.t) (i : nat) :
  0 <= Vab.dwOffset v ->
  Vab.dwOffset v + 0x20 + 16 * 128 + 128 * (32 * 16) < 2 ^ 32 ->
  (i <= 128)%nat ->
  VabSpec.toneAttrOffset v i
  = Vab.dwOffset v + 0x20 + 16 * 128
    + Z.of_nat (VabSpec.accepted_before v i) * (32 * 16).
Proof.
  intros Hlo Hhi Hi.
  assert (Hcount : (VabSpec.accepted_before v i <= i)%nat).
  { unfold VabSpec.accepted_before.
    pose proof (length_filter (λ j, VabSpec.accepted v j = true) (seq 0 i)) as H.
    rewrite length_seq in H. exact H. }
  unfold VabSpec.toneAttrOffset, Vab.offToneAttrs, Vab.offProgs.
  rewrite (u32_small (Vab.dwOffset v + 32)) by lia.
  rewrite (u32_small (Vab.dwOffset v + 32 + 16 * 128)) by lia.
  rewrite u32_small by lia. lia.
Qed.

(** The scan of [file_bad_region] records [instr_bad_region] and nothing
    else. *)
Example scan_programs_bad_region :
  Vab.aInstrs (Vab.scan_programs 128 0 (new_Vab file_bad_region 0))
  = [instr_bad_region].
Proof. vm_compute. reflexivity. Qed.

(** Past the two count checks, the instruments [GetInstrPointers] leaves
    are those of the scan. *)
Lemma GetInstrPointers_instrs (v v' : Vab.t) (ok : bool) :
  Vab.GetShort v (u32 (Vab.dwOffset v + 0x12)) <= 128 ->
  Vab.GetShort v (u32 (Vab.dwOffset v + 0x16)) <= 255 ->
  Vab.GetInstrPointers v = Some (ok, v') ->
  ok = true /\ Vab.aInstrs v' = Vab.aInstrs (Vab.scan_programs 128 0 v).
Proof.
  intros Hprogs Hvags. unfold Vab.GetInstrPointers. cbv zeta.
  replace (Vab.GetShort v (u32 (Vab.dwOffset v + 18)) >? 128) with false
    by (symmetry; rewrite Z.gtb_ltb; apply Z.ltb_ge; lia).
  replace (Vab.GetShort v (u32 (Vab.dwOffset v + 22)) >? 255) with false
    by (symmetry; rewrite Z.gtb_ltb; apply Z.ltb_ge; lia).
  generalize (Vab.scan_programs 128 0 v). intros w.
  destruct (_ <=? Vab.GetEndOffset v).
  - destruct (Vab.vag_loop _ _ _ _ _ _ _); [|discriminate].
    intros [= <- <-]. split; reflexivity.
  - intros [= <- <-]. split; reflexivity.
Qed.

Lemma accepted_before_le (v : Vab.t) (i : nat) :
  (VabSpec.accepted_before v i <= i)%nat.
Proof.
  unfold VabSpec.accepted_before.
  pose proof (length_filter (λ j, VabSpec.accepted v j = true) (seq 0 i)) as Hf.
  rewrite length_seq in Hf. exact Hf.
Qed.

(** *** The scan against the packing rule in exact arithmetic *)

Lemma filter_ext_elem (P Q : nat -> Prop)
    `{!∀ x, Decision (P x)} `{!∀ x, Decision (Q x)} (l : list nat) :
  (forall x, x ∈ l -> (P x <-> Q x)) -> filter P l = filter Q l.
Proof.
  induction l as [|x l IH]; intros Hext; [reflexivity|].
  rewrite !filter_cons.
  assert (Hx : P x <-> Q x) by (apply Hext; left).
  assert (Hl : filter P l = filter Q l).
  { apply IH. intros y Hy. apply Hext. right. exact Hy. }
  destruct (decide (P x)) as [HP|HP]; destruct (decide (Q x)) as [HQ|HQ];
    try tauto; rewrite Hl; reflexivity.
Qed.

Section NoWrap.

Variable v : Vab.t.
Hypothesis dwOffset_lo : 0 <= Vab.dwOffset v.
Hypothesis tables_below_2_32 :
  Vab.dwOffset v + 0x20 + 16 * 128 + 128 * (32 * 16) < 2 ^ 32.

Lemma pack_progOffset (i : nat) :
  (i < 128)%nat ->
  u32 (Vab.offProgs v + Z.of_nat i * 16) = PackSpec.progOffset v i.
Proof.
  intros Hi. unfold Vab.offProgs, PackSpec.progOffset.
  rewrite (u32_small (Vab.dwOffset v + 32)) by lia.
  apply u32_small. lia.
Qed.

Lemma pack_numTones (i : nat) :
  (i < 128)%nat -> VabSpec.numTones_at v i = PackSpec.numTones v i.
Proof.
  intros Hi. unfold VabSpec.numTones_at, PackSpec.numTones, Vab.GetByte.
  rewrite pack_progOffset by exact Hi. reflexivity.
Qed.

Lemma pack_accepted (i : nat) :
  (i < 128)%nat -> VabSpec.accepted v i = PackSpec.accepted v i.
Proof.
  intros Hi. unfold VabSpec.accepted, PackSpec.accepted.
  rewrite pack_numTones by exact Hi. reflexivity.
Qed.

Lemma pack_filter_accepted (k : nat) :
  (k <= 128)%nat ->
  filter (λ j, VabSpec.accepted v j = true) (seq 0 k)
  = filter (λ j, PackSpec.accepted v j = true) (seq 0 k).
Proof.
  intros Hk. apply filter_ext_elem. intros x Hx.
  apply elem_of_seq in Hx. rewrite pack_accepted by lia. reflexivity.
Qed.

Lemma pack_filter_warned (k : nat) :
  (k <= 128)%nat ->
  filter (λ j, (VabSpec.numTones_at v j >? 32) = true) (seq 0 k)
  = filter (λ j, (PackSpec.numTones v j >? 32) = true) (seq 0 k).
Proof.
  intros Hk. apply filter_ext_elem. intros x Hx.
  apply elem_of_seq in Hx. rewrite pack_numTones by lia. reflexivity.
Qed.

Lemma pack_toneAttrOffset (i : nat) :
  (i <= 128)%nat -> VabSpec.toneAttrOffset v i = PackSpec.toneAttrOffset v i.
Proof.
  intros Hi.
  rewrite (toneAttrOffset_exact v i dwOffset_lo tables_below_2_32 Hi).
  unfold PackSpec.toneAttrOffset, PackSpec.toneAttrTableOffset,
    PackSpec.acceptedBefore, VabSpec.accepted_before.
  rewrite pack_filter_accepted by exact Hi. reflexivity.
Qed.

Lemma pack_toneAttrOffset_range (i : nat) :
  (i < 128)%nat ->
  0 <= PackSpec.toneAttrOffset v i
  /\ PackSpec.toneAttrOffset v i + 32 * 16 < 2 ^ 32.
Proof.
  intros Hi. pose proof (accepted_before_le v i) as Hcount.
  rewrite <- pack_toneAttrOffset by lia.
  rewrite (toneAttrOffset_exact v i dwOffset_lo tables_below_2_32) by lia.
  lia.
Qed.

Lemma pack_stops (i : nat) :
  (i < 128)%nat ->
  VabSpec.stops_at v i
  = (PackSpec.toneAttrOffset v i + 32 * 16 >? Vab.GetEndOffset v).
Proof.
  intros Hi. unfold VabSpec.stops_at.
  destruct (pack_toneAttrOffset_range i Hi) as [Hlo Hhi].
  rewrite pack_toneAttrOffset by lia.
  rewrite u32_small by lia. reflexivity.
Qed.

Lemma pack_recorded (i : nat) :
  (i < 128)%nat -> VabSpec.slot_instr v i = PackSpec.recorded v i.
Proof.
  intros Hi. unfold VabSpec.slot_instr, Vab.program_instr. cbv zeta.
  rewrite pack_toneAttrOffset by lia.
  rewrite pack_progOffset by exact Hi.
  assert (Hvol : u32 (PackSpec.progOffset v i + 1) = PackSpec.progOffset v i + 1).
  { apply u32_small. unfold PackSpec.progOffset. lia. }
  rewrite Hvol. reflexivity.
Qed.

Lemma pack_warning (i : nat) :
  (i < 128)%nat -> VabSpec.slot_warning v i = PackSpec.warning v i.
Proof.
  intros Hi. unfold VabSpec.slot_warning, PackSpec.warning.
  rewrite pack_numTones by exact Hi. reflexivity.
Qed.

End NoWrap.

(** C6, amended. In a bank whose program table and 128 tone attribute
    blocks end below 2^32, the scan examines the slots in order up to the
    first slot [k] whose tone attribute offset plus 32 * 16 exceeds the end
    offset, all 128 where there is none, whatever program count the header
    declares. Each accepted slot [i] before [k] is recorded with program
    number [i] at the tone attribute table offset plus 32 * 16 times the
    number of slots accepted before [i], each slot of more than 32 tones
    before [k] is logged, and nothing at or after [k] is. *)
Theorem scan_programs_packing (v : Vab.t) :
  Vab.aInstrs v = [] ->
  0 <= Vab.dwOffset v ->
  Vab.dwOffset v + 0x20 + 16 * 128 + 128 * (32 * 16) < 2 ^ 32 ->
  exists k : nat,
    (k <= 128)%nat
    /\ (forall i, (i < k)%nat ->
        PackSpec.toneAttrOffset v i + 32 * 16 <= Vab.GetEndOffset v)
    /\ ((k < 128)%nat ->
        PackSpec.toneAttrOffset v k + 32 * 16 > Vab.GetEndOffset v)
    /\ map PackSpec.placement (Vab.aInstrs (Vab.scan_programs 128 0 v))
       = map (fun i =>
                (Z.of_nat i,
                 Vab.dwOffset v + 0x20 + 16 * 128
                 + Z.of_nat (length (filter (λ j, PackSpec.accepted v j = true)
                                       (seq 0 i))) * (32 * 16)))
           (filter (λ i, PackSpec.accepted v i = true) (seq 0 k))
    /\ Vab.aInstrs (Vab.scan_programs 128 0 v)
       = map (PackSpec.recorded v)
           (filter (λ i, PackSpec.accepted v i = true) (seq 0 k))
    /\ Vab.log (Vab.scan_programs 128 0 v)
       = Vab.log v
         ++ map (PackSpec.warning v)
              (filter (λ i, (PackSpec.numTones v i >? 32) = true) (seq 0 k)).
Proof.
  intros Hempty Hlo Hhi.
  destruct (scan_programs_spec v 128 0 v) as [Hinstrs Hlog].
  - reflexivity.
  - repeat split.
  - rewrite Hempty. reflexivity.
  - cbn [seq filter map]. rewrite app_nil_r. reflexivity.
  - intros j Hj. lia.
  - revert Hinstrs Hlog. generalize (Vab.scan_programs 128 0 v).
    intros w Hinstrs Hlog.
    destruct (scanned_slots_first_stop v) as (Hle & Hbefore & Hat).
    assert (Hrec : Vab.aInstrs w
                   = map (PackSpec.recorded v)
                       (filter (λ i, PackSpec.accepted v i = true)
                          (seq 0 (VabSpec.scanned_slots v)))).
    { rewrite Hinstrs, (pack_filter_accepted v Hlo Hhi _ Hle).
      apply map_ext_in. intros i Hi.
      apply list_elem_of_In, list_elem_of_filter in Hi as [_ Hi].
      apply elem_of_seq in Hi. apply (pack_recorded v Hlo Hhi). lia. }
    exists (VabSpec.scanned_slots v).
    split; [exact Hle|]. split; [|split; [|split; [|split]]].
    + intros i Hi. specialize (Hbefore i Hi).
      rewrite (pack_stops v Hlo Hhi) in Hbefore by lia.
      rewrite Z.gtb_ltb in Hbefore. apply Z.ltb_ge in Hbefore. exact Hbefore.
    + intros Hlt. specialize (Hat Hlt).
      rewrite (pack_stops v Hlo Hhi) in Hat by lia.
      apply Z.gtb_gt in Hat. lia.
    + rewrite Hrec, map_map. reflexivity.
    + exact Hrec.
    + rewrite Hlog, (pack_filter_warned v Hlo Hhi _ Hle). f_equal.
      apply map_ext_in. intros i Hi.
      apply list_elem_of_In, list_elem_of_filter in Hi as [_ Hi].
      apply elem_of_seq in Hi. apply (pack_warning v Hlo Hhi). lia.
Qed.

Lemma scan_programs_packing_witness :
  exists k : nat,
    (k <= 128)%nat
    /\ map PackSpec.placement (Vab.aInstrs (Vab.scan_programs 128 0 vab_programs))
       = map (fun i =>
                (Z.of_nat i,
                 Vab.dwOffset vab_programs + 0x20 + 16 * 128
                 + Z.of_nat (length (filter (λ j, PackSpec.accepted vab_programs j = true)
                                       (seq 0 i))) * (32 * 16)))
           (filter (λ i, PackSpec.accepted vab_programs i = true) (seq 0 k)).
Proof.
  destruct (scan_programs_packing vab_programs eq_refl)
    as (k & Hk & _ & _ & Hplace & _).
  - vm_compute. discriminate.
  - vm_compute. reflexivity.
  - exists k. exact (conj Hk Hplace).
Defined.

(** C6 as stated fails where the offsets pass 2^32. The tone attribute
    table of [vab_wrapped] would begin at the last byte of the file, so
    the offset of slot 0 plus 32 * 16 exceeds the end offset and the scan
    should stop at once; in [uint32_t] the sum is 511, the scan goes on,
    records slot 0 at 2^32 - 1 and slot 1 at 511, which is not the table
    offset plus 32 * 16. *)
Lemma scan_programs_offset_wraps :
  PackSpec.toneAttrOffset vab_wrapped 0 + 32 * 16 > Vab.GetEndOffset vab_wrapped
  /\ map PackSpec.placement (Vab.aInstrs (Vab.scan_programs 128 0 vab_wrapped))
     = [(0, 2 ^ 32 - 1); (1, 511)]
  /\ PackSpec.toneAttrOffset vab_wrapped 1 = 2 ^ 32 + 511.
Proof. repeat split; vm_compute; reflexivity. Qed.

(** ** The VAG pointer table *)

Section VagWalk.

Variable file : RawFile.t.
Variables offVAGOffsets vagStartOffset nEndOffset : Z.

(** Every turn either records a location or logs a rejection. *)
Lemma vag_iter_count (i : nat) (st st' : Vab.VagScan) :
  Vab.vag_iter file offVAGOffsets vagStartOffset nEndOffset i st = Some st' ->
  (length (Vab.vagLocations st') + length (Vab.vagLog st')
   = S (length (Vab.vagLocations st) + length (Vab.vagLog st)))%nat.
Proof.
  unfold Vab.vag_iter.
  destruct (if (i =? 0)%nat then _ else _) as [vagOffset|]; [|discriminate].
  destruct (_ <=? nEndOffset); intros [= <-]; simpl;
    rewrite length_app; simpl; lia.
Qed.

Lemma vag_loop_count (n : nat) :
  forall (i : nat) (st st' : Vab.VagScan),
    Vab.vag_loop file offVAGOffsets vagStartOffset nEndOffset n i st = Some st' ->
    (length (Vab.vagLocations st') + length (Vab.vagLog st')
     = length (Vab.vagLocations st) + length (Vab.vagLog st) + n)%nat.
Proof.
  induction n as [|n IH]; intros i st st' H; simpl in H.
  - injection H as <-. lia.
  - destruct (Vab.vag_iter _ _ _ _ i st) as [st1|] eqn:E; [|discriminate].
    apply IH in H. apply vag_iter_count in E. lia.
Qed.

(** With nothing rejected so far the last location recorded is that of
    the entry before. *)
Lemma vag_state_no_rejection (i : nat) (st : Vab.VagScan) :
  VabSpec.vag_state_at file offVAGOffsets vagStartOffset nEndOffset i = Some st ->
  Vab.vagLog st = [] ->
  length (Vab.vagLocations st) = i.
Proof.
  intros H Hlog. apply vag_loop_count in H. rewrite Hlog in H. simpl in H. lia.
Qed.

(** The log of the walk holds the rejected entries: an item is logged on
    turn [j] for entry [j + 1] when its end lies beyond the end offset. *)
Lemma vag_iter_log (i : nat) (st st' : Vab.VagScan) :
  Vab.vag_iter file offVAGOffsets vagStartOffset nEndOffset i st = Some st' ->
  Vab.vagLog st' = Vab.vagLog st
  \/ exists off sz : Z,
       Vab.vagLog st' = Vab.vagLog st ++ [Vab.InvalidVAG (Z.of_nat i + 1) off sz]
       /\ u32 (off + sz) > nEndOffset
       /\ Vab.vagLocations st' = Vab.vagLocations st.
Proof.
  unfold Vab.vag_iter.
  destruct (if (i =? 0)%nat then _ else _) as [vagOffset|]; [|discriminate].
  destruct (Z.leb_spec (u32 (vagOffset + RawFile.GetShort file
              (u32 (offVAGOffsets + (Z.of_nat i + 1) * 2)) * 8)) nEndOffset);
    intros [= <-]; simpl; [left; reflexivity|].
  right. eexists _, _. repeat split. lia.
Qed.

Lemma vag_loop_log (n : nat) :
  forall (i : nat) (st st' : Vab.VagScan) (item : Vab.LogItem),
    Vab.vag_loop file offVAGOffsets vagStartOffset nEndOffset n i st = Some st' ->
    item ∈ Vab.vagLog st' ->
    item ∈ Vab.vagLog st
    \/ exists (j : nat) (off sz : Z),
         (i <= j < i + n)%nat
         /\ item = Vab.InvalidVAG (Z.of_nat j + 1) off sz
         /\ u32 (off + sz) > nEndOffset.
Proof.
  induction n as [|n IH]; intros i st st' item H Hin; simpl in H.
  - injection H as <-. left. exact Hin.
  - destruct (Vab.vag_iter _ _ _ _ i st) as [st1|] eqn:E; [|discriminate].
    destruct (IH (S i) st1 st' item H Hin) as [Hin1 | (j & off & sz & Hj & Hitem & Hout)].
    + destruct (vag_iter_log i st st1 E) as [Hsame | (off & sz & Hlog & Hout & _)].
      * left. rewrite Hsame in Hin1. exact Hin1.
      * rewrite Hlog in Hin1. apply elem_of_app in Hin1 as [Hold | Hnew].
        -- left. exact Hold.
        -- right. apply list_elem_of_singleton in Hnew.
           exists i, off, sz. repeat split; [lia | lia | exact Hnew | exact Hout].
    + right. exists j, off, sz. repeat split; [lia | lia | exact Hitem | exact Hout].
Qed.

End VagWalk.

(** C2. For [i > 0] the offset is to chain from entry [i - 1] whether that
    entry was accepted or rejected. The walk reads [vagLocations[i - 1]],
    and [vagLocations] holds the accepted entries only. In [vab_bad_vag]
    entry 0 (offset 0, size 524280) is rejected, so on turn 1 the vector is
    empty, the read is past its end, and the walk has no defined result. *)
Theorem GetInstrPointers_chain_after_rejection :
  VabSpec.vag_state_at (Vab.rawfile vab_bad_vag) 2080 0 2592 1
  = Some (Vab.mkScan [] 0 [Vab.InvalidVAG 1 0 524280])
  /\ Vab.vag_iter (Vab.rawfile vab_bad_vag) 2080 0 2592 1
       (Vab.mkScan [] 0 [Vab.InvalidVAG 1 0 524280]) = None
  /\ Vab.GetInstrPointers vab_bad_vag = None.
Proof. repeat split; vm_compute; reflexivity. Qed.

(** C3. Once an entry has been rejected, the turn for index [i > 0] reads
    the accepted locations at position [i - 1], which is not below their
    number: the lookup has no value and neither has the turn. *)
Theorem vag_lookup_past_end
    (file : RawFile.t) (offVAGOffsets vagStartOffset nEndOffset : Z)
    (i : nat) (st : Vab.VagScan) :
  VabSpec.vag_state_at file offVAGOffsets vagStartOffset nEndOffset i = Some st ->
  Vab.vagLog st <> [] ->
  (0 < i)%nat
  /\ (length (Vab.vagLocations st) <= i - 1)%nat
  /\ Vab.vagLocations st !! (i - 1)%nat = None
  /\ Vab.vag_iter file offVAGOffsets vagStartOffset nEndOffset i st = None.
Proof.
  intros Hst Hlog.
  apply vag_loop_count in Hst. simpl in Hst.
  assert (Hlen : (0 < length (Vab.vagLog st))%nat).
  { destruct (Vab.vagLog st); [congruence | simpl; lia]. }
  assert (Hpast : Vab.vagLocations st !! (i - 1)%nat = None).
  { apply lookup_ge_None. lia. }
  repeat split; try lia; try exact Hpast.
  unfold Vab.vag_iter. rewrite Hpast.
  destruct (Nat.eqb_spec i 0); [lia | reflexivity].
Qed.

Lemma vag_lookup_past_end_witness :
  (0 < 1)%nat
  /\ (length (Vab.vagLocations (Vab.mkScan [] 0 [Vab.InvalidVAG 1 0 524280])) <= 1 - 1)%nat
  /\ Vab.vagLocations (Vab.mkScan [] 0 [Vab.InvalidVAG 1 0 524280]) !! (1 - 1)%nat = None
  /\ Vab.vag_iter (Vab.rawfile vab_bad_vag) 2080 0 2592 1
       (Vab.mkScan [] 0 [Vab.InvalidVAG 1 0 524280]) = None.
Proof.
  apply (vag_lookup_past_end (Vab.rawfile vab_bad_vag) 2080 0 2592 1).
  - vm_compute. reflexivity.
  - simpl. discriminate.
Defined.

(** ** Regions *)

Lemma LoadRgn_keys (file : RawFile.t) (masterVol : Z) (rgn : Vab.VabRgn) :
  Vab.keyLow (snd (Vab.LoadRgn file masterVol rgn))
  = RawFile.GetByte file (u32 (Vab.rgn_dwOffset rgn + 6))
  /\ Vab.keyHigh (snd (Vab.LoadRgn file masterVol rgn))
     = RawFile.GetByte file (u32 (Vab.rgn_dwOffset rgn + 7))
  /\ (fst (Vab.LoadRgn file masterVol rgn) = false
      <-> Vab.keyLow (snd (Vab.LoadRgn file masterVol rgn))
          > Vab.keyHigh (snd (Vab.LoadRgn file masterVol rgn))).
Proof.
  unfold Vab.LoadRgn. cbv zeta.
  match goal with
  | |- context [if ?c then Vab.set_sampNum 0 ?r else ?r] => destruct c
  end;
    cbn [Vab.keyLow Vab.keyHigh Vab.sampNum Vab.rgn_dwOffset
         Vab.set_sampNum Vab.set_ADSR1 Vab.set_ADSR2 Vab.AddSampNum
         Vab.AddKeyHigh Vab.AddKeyLow Vab.AddUnityKey Vab.AddPan Vab.AddVolume
         Vab.set_rgn_attr Vab.set_rgn_unLength];
    destruct (Z.gtb_spec (RawFile.GetByte file (u32 (Vab.rgn_dwOffset rgn + 6)))
                (RawFile.GetByte file (u32 (Vab.rgn_dwOffset rgn + 7)))) as [H|H];
    cbn [fst snd Vab.keyLow Vab.keyHigh Vab.sampNum Vab.rgn_dwOffset
         Vab.SetFineTune Vab.set_sampNum Vab.set_ADSR1 Vab.set_ADSR2
         Vab.AddSampNum Vab.AddKeyHigh Vab.AddKeyLow Vab.AddUnityKey
         Vab.AddPan Vab.AddVolume Vab.set_rgn_attr Vab.set_rgn_unLength];
    repeat split; try lia; try congruence.
Qed.

Lemma LoadInstr_loop_stops (file : RawFile.t) (n : nat) :
  forall (i : nat) (instr : Vab.VabInstr) (k : nat),
    (k < n)%nat ->
    (forall j, (i <= j < i + k)%nat -> fst (VabSpec.region_at file instr j) = true) ->
    fst (VabSpec.region_at file instr (i + k)) = false ->
    fst (Vab.LoadInstr_loop file n (Z.of_nat i) instr) = false
    /\ Vab.aRgns (snd (Vab.LoadInstr_loop file n (Z.of_nat i) instr))
       = Vab.aRgns instr
         ++ map (fun j => snd (VabSpec.region_at file instr j)) (seq i k).
Proof.
  induction n as [|n IH]; intros i instr k Hk Hgood Hbad; [lia|].
  cbn [Vab.LoadInstr_loop]. cbv zeta.
  fold (VabSpec.region_at file instr i).
  destruct (VabSpec.region_at file instr i) as [ok r] eqn:E.
  destruct k as [|k].
  - rewrite Nat.add_0_r, E in Hbad. simpl in Hbad. subst ok.
    simpl. rewrite app_nil_r. auto.
  - assert (Hok : ok = true).
    { specialize (Hgood i). rewrite E in Hgood. apply Hgood. lia. }
    subst ok. cbn [negb].
    replace (Z.of_nat i + 1) with (Z.of_nat (S i)) by lia.
    destruct (IH (S i) (Vab.push_rgn r instr) k) as [Hfst Hrgns].
    + lia.
    + intros j Hj. apply (Hgood j). lia.
    + replace (S i + k)%nat with (i + S k)%nat by lia. exact Hbad.
    + split; [exact Hfst|].
      rewrite Hrgns. cbn [Vab.aRgns Vab.push_rgn seq map].
      rewrite <- app_assoc, E. reflexivity.
Qed.

(** C8 as stated fails in its last part: after a failed [LoadInstr] the
    program keeps the regions decoded before the bad one. The first region
    of [instr_bad_region] is well formed and the second is not; the load
    fails and leaves one region in the list. *)
Lemma LoadInstr_keeps_decoded_regions :
  fst (Vab.LoadInstr file_bad_region instr_bad_region) = false
  /\ length (Vab.aRgns (snd (Vab.LoadInstr file_bad_region instr_bad_region))) = 1%nat.
Proof. split; vm_compute; reflexivity. Qed.

(** C8, amended. A region fails to load exactly when its keyLow byte
    exceeds its keyHigh byte. When region [k] is the first of a program to
    fail, [LoadInstr] stops there and reports failure; the failed region
    is not added, no later region is loaded, and the [k] regions loaded
    before it stay in the program's list. *)
Theorem LoadInstr_stops_at_first_bad_region
    (file : RawFile.t) (instr : Vab.VabInstr) (k : nat) :
  Z.of_nat k < to_int8 (Vab.attr_tones instr) ->
  (forall j, (j < k)%nat -> fst (VabSpec.region_at file instr j) = true) ->
  fst (VabSpec.region_at file instr k) = false ->
  (forall (masterVol : Z) (rgn : Vab.VabRgn),
      Vab.keyLow (snd (Vab.LoadRgn file masterVol rgn))
      = RawFile.GetByte file (u32 (Vab.rgn_dwOffset rgn + 6))
      /\ Vab.keyHigh (snd (Vab.LoadRgn file masterVol rgn))
         = RawFile.GetByte file (u32 (Vab.rgn_dwOffset rgn + 7))
      /\ (fst (Vab.LoadRgn file masterVol rgn) = false
          <-> Vab.keyLow (snd (Vab.LoadRgn file masterVol rgn))
              > Vab.keyHigh (snd (Vab.LoadRgn file masterVol rgn))))
  /\ fst (Vab.LoadInstr file instr) = false
  /\ Vab.aRgns (snd (Vab.LoadInstr file instr))
     = Vab.aRgns instr
       ++ map (fun j => snd (VabSpec.region_at file instr j)) (seq 0 k).
Proof.
  intros Hk Hgood Hbad.
  split; [intros masterVol rgn; apply LoadRgn_keys|].
  unfold Vab.LoadInstr.
  apply (LoadInstr_loop_stops file (Z.to_nat (to_int8 (Vab.attr_tones instr)))
           0 instr k).
  - lia.
  - intros j Hj. apply Hgood. lia.
  - exact Hbad.
Qed.

Lemma LoadInstr_stops_at_first_bad_region_witness :
  fst (Vab.LoadInstr file_bad_region instr_bad_region) = false
  /\ Vab.aRgns (snd (Vab.LoadInstr file_bad_region instr_bad_region))
     = Vab.aRgns instr_bad_region
       ++ map (fun j => snd (VabSpec.region_at file_bad_region instr_bad_region j))
            (seq 0 1).
Proof.
  apply (LoadInstr_stops_at_first_bad_region file_bad_region instr_bad_region 1).
  - vm_compute. reflexivity.
  - intros j Hj. destruct j as [|j]; [vm_compute; reflexivity | lia].
  - vm_compute. reflexivity.
Defined.

(** ** The tag loop and the tag format *)

Lemma nul_free_spec (text : list BYTE) :
  TagSpec.nul_free text = true <-> NUL ∉ text.
Proof.
  unfold TagSpec.nul_free. induction text as [|c text IH]; simpl.
  - split; [intros _; apply not_elem_of_nil | reflexivity].
  - rewrite andb_true_iff, IH, not_elem_of_cons, negb_true_iff.
    rewrite bool_decide_eq_false. intuition congruence.
Qed.

(** *** strchr *)

Lemma strchr_scan_find (c : BYTE) (l rest : list BYTE) :
  forall pos : nat,
    NUL ∉ l -> c <> NUL ->
    PSFFile.strchr_scan (l ++ NUL :: rest) pos c
    = (fun k => (pos + k)%nat) <$> TagSpec.find_char c l.
Proof.
  induction l as [|x l IH]; intros pos Hnul Hc;
    cbn [PSFFile.strchr_scan app TagSpec.find_char].
  - destruct (decide (NUL = c)) as [E|E]; [congruence|].
    destruct (decide (NUL = NUL)) as [E'|E']; [reflexivity | congruence].
  - apply not_elem_of_cons in Hnul as [Hx Hnul].
    destruct (decide (x = c)) as [E|E].
    + cbn. f_equal. lia.
    + destruct (decide (x = NUL)) as [E'|E']; [congruence|].
      rewrite IH by assumption.
      destruct (TagSpec.find_char c l); cbn; [f_equal; lia | reflexivity].
Qed.

Lemma strchr_scan_found (c : BYTE) (l rest : list BYTE) :
  forall pos : nat,
    NUL ∉ l -> c ∉ l ->
    PSFFile.strchr_scan (l ++ c :: rest) pos c = Some (pos + length l)%nat.
Proof.
  induction l as [|x l IH]; intros pos Hnul Hc;
    cbn [PSFFile.strchr_scan app length].
  - destruct (decide (c = c)) as [E|E]; [f_equal; lia | congruence].
  - apply not_elem_of_cons in Hnul as [Hx Hnul].
    apply not_elem_of_cons in Hc as [Hxc Hc].
    destruct (decide (x = c)) as [E|E]; [congruence|].
    destruct (decide (x = NUL)) as [E'|E']; [congruence|].
    rewrite IH by assumption. f_equal. lia.
Qed.

Lemma find_char_None (c : BYTE) (l : list BYTE) :
  c ∉ l -> TagSpec.find_char c l = None.
Proof.
  induction l as [|x l IH]; intros Hc; cbn [TagSpec.find_char]; [reflexivity|].
  apply not_elem_of_cons in Hc as [Hx Hc].
  destruct (decide (x = c)) as [E|E]; [congruence|].
  rewrite IH by assumption. reflexivity.
Qed.

Lemma find_char_Some (c : BYTE) (l : list BYTE) :
  forall k : nat,
    TagSpec.find_char c l = Some k ->
    l = take k l ++ c :: drop (S k) l /\ length (take k l) = k.
Proof.
  induction l as [|x l IH]; intros k H; cbn [TagSpec.find_char] in H;
    [discriminate|].
  destruct (decide (x = c)) as [->|Hne].
  - injection H as <-. cbn. rewrite drop_0. auto.
  - destruct (TagSpec.find_char c l) as [k'|]; [|discriminate].
    injection H as <-. destruct (IH k' eq_refl) as [Hl Hlen].
    cbn [take drop length]. rewrite Hlen.
    split; [cbn; f_equal; exact Hl | reflexivity].
Qed.

(** *** Trimming *)

Lemma skip_spaces_length (l : list BYTE) :
  (length (TagSpec.skip_spaces l) <= length l)%nat.
Proof.
  induction l as [|x l IH]; simpl; [lia|].
  destruct (PSFFile.is_space x); simpl; lia.
Qed.

Lemma skip_spaces_drop (l : list BYTE) :
  TagSpec.skip_spaces l = drop (length l - length (TagSpec.skip_spaces l)) l.
Proof.
  induction l as [|x l IH]; simpl; [reflexivity|].
  destruct (PSFFile.is_space x) eqn:E.
  - pose proof (skip_spaces_length l).
    replace (S (length l) - length (TagSpec.skip_spaces l))%nat
      with (S (length l - length (TagSpec.skip_spaces l))) by lia.
    simpl. exact IH.
  - simpl. rewrite Nat.sub_diag. reflexivity.
Qed.

(** Skipping the spaces of the reversed list leaves a prefix. *)
Lemma skip_spaces_reverse_take (l : list BYTE) :
  reverse (TagSpec.skip_spaces (reverse l))
  = take (length (TagSpec.skip_spaces (reverse l))) l.
Proof.
  induction l as [|x l IH] using rev_ind; [reflexivity|].
  rewrite reverse_snoc. simpl.
  destruct (PSFFile.is_space x).
  - rewrite IH at 1. rewrite take_app_le; [reflexivity|].
    pose proof (skip_spaces_length (reverse l)) as H.
    rewrite length_reverse in H. exact H.
  - rewrite reverse_cons, reverse_involutive. simpl.
    rewrite length_reverse, take_ge; [reflexivity|].
    rewrite length_app. simpl. lia.
Qed.

Lemma char_at_middle (pre l post : list BYTE) (x : BYTE) :
  PSFFile.char_at (pre ++ (l ++ [x]) ++ post) (length pre + length l) = x.
Proof.
  unfold PSFFile.char_at.
  rewrite lookup_app_r by lia.
  replace (length pre + length l - length pre)%nat with (length l) by lia.
  rewrite <- app_assoc. cbn [app].
  rewrite list_lookup_middle by reflexivity. reflexivity.
Qed.

Lemma trim_back_spec (seg : list BYTE) :
  forall pre post : list BYTE,
    PSFFile.trim_back (pre ++ seg ++ post) (length pre) (length pre + length seg)
    = (length pre + length (TagSpec.skip_spaces (reverse seg)))%nat.
Proof.
  induction seg as [|x seg IH] using rev_ind; intros pre post.
  - simpl. rewrite Nat.add_0_r.
    destruct (length pre) as [|e] eqn:E; simpl; [reflexivity|].
    rewrite Nat.ltb_irrefl. reflexivity.
  - rewrite length_app. simpl.
    replace (length pre + (length seg + 1))%nat
      with (S (length pre + length seg)) by lia.
    cbn [PSFFile.trim_back].
    rewrite char_at_middle, reverse_snoc. simpl.
    replace (length pre <? S (length pre + length seg))%nat with true
      by (symmetry; apply Nat.ltb_lt; lia).
    destruct (PSFFile.is_space x); simpl.
    + rewrite <- app_assoc. apply IH.
    + rewrite length_reverse. lia.
Qed.

Lemma trim_front_loop_spec (seg : list BYTE) :
  forall pre post : list BYTE,
    PSFFile.trim_front_loop (length seg) (pre ++ seg ++ post)
      (length pre) (length pre + length seg)
    = (length pre + (length seg - length (TagSpec.skip_spaces seg)))%nat.
Proof.
  induction seg as [|x seg IH]; intros pre post.
  - simpl. lia.
  - cbn [length PSFFile.trim_front_loop TagSpec.skip_spaces].
    replace (length pre <? length pre + S (length seg))%nat with true
      by (symmetry; apply Nat.ltb_lt; lia).
    replace (PSFFile.char_at (pre ++ (x :: seg) ++ post) (length pre)) with x.
    2:{ unfold PSFFile.char_at. rewrite lookup_app_r by lia.
        rewrite Nat.sub_diag. reflexivity. }
    destruct (PSFFile.is_space x); simpl.
    + specialize (IH (pre ++ [x]) post).
      rewrite length_app in IH. simpl in IH.
      replace (length pre + 1)%nat with (S (length pre)) in IH by lia.
      replace (S (length pre) + length seg)%nat
        with (length pre + S (length seg))%nat in IH by lia.
      rewrite <- app_assoc in IH. simpl in IH. rewrite IH.
      pose proof (skip_spaces_length seg). lia.
    + lia.
Qed.

Lemma trim_front_spec (seg pre post : list BYTE) :
  PSFFile.trim_front (pre ++ seg ++ post) (length pre) (length pre + length seg)
  = (length pre + (length seg - length (TagSpec.skip_spaces seg)))%nat.
Proof.
  unfold PSFFile.trim_front.
  replace (length pre + length seg - length pre)%nat with (length seg) by lia.
  apply trim_front_loop_spec.
Qed.

Lemma make_string_spec (seg pre post : list BYTE) :
  PSFFile.make_string (pre ++ seg ++ post) (length pre) (length pre + length seg)
  = string_of_list_ascii seg.
Proof.
  unfold PSFFile.make_string.
  rewrite drop_app_length.
  replace (length pre + length seg - length pre)%nat with (length seg) by lia.
  rewrite take_app_length. reflexivity.
Qed.

(** The two trimming loops and the string built between the pointers they
    leave, on the bytes [seg] of the buffer. *)
Lemma trimmed_string_spec (seg pre post : list BYTE) :
  let buf := pre ++ seg ++ post in
  let pEnd := PSFFile.trim_back buf (length pre) (length pre + length seg) in
  let p := PSFFile.trim_front buf (length pre) pEnd in
  PSFFile.make_string buf p pEnd = string_of_list_ascii (TagSpec.trim seg).
Proof.
  cbv zeta. rewrite trim_back_spec. unfold TagSpec.trim.
  set (R := reverse (TagSpec.skip_spaces (reverse seg))).
  assert (HR : length R = length (TagSpec.skip_spaces (reverse seg))).
  { unfold R. apply length_reverse. }
  assert (Hseg : seg = R ++ drop (length R) seg).
  { unfold R at 1. rewrite skip_spaces_reverse_take, <- HR. symmetry. apply take_drop. }
  rewrite <- HR.
  set (tail := drop (length R) seg) in Hseg.
  rewrite Hseg at 1 2. rewrite <- !app_assoc.
  rewrite trim_front_spec.
  set (d := (length R - length (TagSpec.skip_spaces R))%nat).
  assert (Hskip : TagSpec.skip_spaces R = drop d R) by apply skip_spaces_drop.
  assert (Hd : (d <= length R)%nat) by (unfold d; lia).
  assert (HRsplit : R = take d R ++ TagSpec.skip_spaces R).
  { rewrite Hskip. symmetry. apply take_drop. }
  assert (Hlen : length (take d R) = d) by (apply length_take_le; exact Hd).
  replace (pre ++ R ++ tail ++ post)
    with ((pre ++ take d R) ++ TagSpec.skip_spaces R ++ (tail ++ post)).
  2:{ rewrite HRsplit at 3. rewrite <- !app_assoc. reflexivity. }
  replace (length pre + d)%nat with (length (pre ++ take d R))
    by (rewrite length_app, Hlen; reflexivity).
  replace (length pre + length R)%nat
    with (length (pre ++ take d R) + length (TagSpec.skip_spaces R))%nat.
  2:{ rewrite length_app, Hlen. pose proof (skip_spaces_length R). unfold d. lia. }
  rewrite make_string_spec. reflexivity.
Qed.

(** *** Lines *)

Lemma lines_from_line (l rest : list BYTE) :
  forall cur : list BYTE,
    PSFFile.LF ∉ l ->
    TagSpec.lines_from cur (l ++ PSFFile.LF :: rest)
    = (cur ++ l) :: TagSpec.lines_from [] rest.
Proof.
  induction l as [|x l IH]; intros cur Hlf; cbn [app TagSpec.lines_from].
  - destruct (decide (PSFFile.LF = PSFFile.LF)) as [_|E]; [|congruence].
    rewrite app_nil_r. reflexivity.
  - apply not_elem_of_cons in Hlf as [Hx Hlf].
    destruct (decide (x = PSFFile.LF)) as [E|_]; [congruence|].
    rewrite IH by assumption. rewrite <- app_assoc. reflexivity.
Qed.

Lemma lines_from_last (l : list BYTE) :
  forall cur : list BYTE,
    PSFFile.LF ∉ l -> cur ++ l <> [] ->
    TagSpec.lines_from cur l = [cur ++ l].
Proof.
  induction l as [|x l IH]; intros cur Hlf Hne; cbn [TagSpec.lines_from].
  - rewrite app_nil_r in *. destruct cur; [congruence | reflexivity].
  - apply not_elem_of_cons in Hlf as [Hx Hlf].
    destruct (decide (x = PSFFile.LF)) as [E|_]; [congruence|].
    rewrite IH.
    + rewrite <- app_assoc. reflexivity.
    + assumption.
    + destruct cur; discriminate.
Qed.

Lemma pairs_line (l rest : list BYTE) :
  PSFFile.LF ∉ l ->
  TagSpec.pairs (l ++ PSFFile.LF :: rest)
  = option_list (TagSpec.line_pair l) ++ TagSpec.pairs rest.
Proof.
  intros Hlf. unfold TagSpec.pairs, TagSpec.lines.
  rewrite lines_from_line by assumption. cbn [app omap list_omap].
  destruct (TagSpec.line_pair l); reflexivity.
Qed.

Lemma pairs_last (l : list BYTE) :
  PSFFile.LF ∉ l -> l <> [] ->
  TagSpec.pairs l = option_list (TagSpec.line_pair l).
Proof.
  intros Hlf Hne. unfold TagSpec.pairs, TagSpec.lines.
  rewrite lines_from_last by assumption. cbn [app omap list_omap].
  destruct (TagSpec.line_pair l); reflexivity.
Qed.

(** *** One line of the buffer *)

Lemma strchr_line (c : BYTE) (pre l tail : list BYTE) :
  NUL ∉ l -> c <> NUL ->
  PSFFile.strchr (pre ++ l ++ NUL :: tail) (length pre) c
  = (fun k => (length pre + k)%nat) <$> TagSpec.find_char c l.
Proof.
  intros Hnul Hc. unfold PSFFile.strchr.
  rewrite drop_app_length. apply strchr_scan_find; assumption.
Qed.

(** The name and the value the loop cuts out of a line with a [=] at [k]. *)
Lemma line_strings (pre l tail : list BYTE) (k : nat) :
  TagSpec.find_char "="%char l = Some k ->
  let buf := pre ++ l ++ NUL :: tail in
  let pSeparator := (length pre + k)%nat in
  let pNewLine := (length pre + length l)%nat in
  let pVarNameEnd := PSFFile.trim_back buf (length pre) pSeparator in
  let pVarValEnd := PSFFile.trim_back buf (pSeparator + 1) pNewLine in
  let pVarName := PSFFile.trim_front buf (length pre) pVarNameEnd in
  let pVarVal := PSFFile.trim_front buf (pSeparator + 1) pVarValEnd in
  TagSpec.line_pair l
  = Some (PSFFile.make_string buf pVarName pVarNameEnd,
          PSFFile.make_string buf pVarVal pVarValEnd).
Proof.
  intros Hfind. cbv zeta.
  unfold TagSpec.line_pair. rewrite Hfind.
  destruct (find_char_Some _ _ _ Hfind) as [Hl Hk].
  set (nm := take k l) in *. set (vl := drop (S k) l) in *.
  assert (Hlen : length l = (k + S (length vl))%nat).
  { rewrite Hl at 1. rewrite length_app. simpl. lia. }
  f_equal. f_equal.
  - replace (pre ++ l ++ NUL :: tail)
      with (pre ++ nm ++ ("="%char :: vl ++ NUL :: tail)).
    2:{ rewrite Hl at 1. rewrite <- !app_assoc. reflexivity. }
    replace (length pre + k)%nat with (length pre + length nm)%nat
      by (rewrite Hk; reflexivity).
    symmetry. apply (trimmed_string_spec nm pre).
  - replace (pre ++ l ++ NUL :: tail)
      with ((pre ++ nm ++ ["="%char]) ++ vl ++ NUL :: tail).
    2:{ rewrite Hl at 1. rewrite <- !app_assoc. reflexivity. }
    replace (length pre + k + 1)%nat with (length (pre ++ nm ++ ["="%char])).
    2:{ rewrite !length_app, Hk. simpl. lia. }
    replace (length pre + length l)%nat
      with (length (pre ++ nm ++ ["="%char]) + length vl)%nat.
    2:{ rewrite !length_app, Hk, Hlen. simpl. lia. }
    symmetry. apply (trimmed_string_spec vl).
Qed.

(** *** The loop *)

Lemma parse_tags_turn (fuel : nat) (buf : list BYTE) (sz pos : nat)
    (m : gmap string string) :
  (pos < sz)%nat ->
  PSFFile.parse_tags (S fuel) buf sz pos m
  = let pNewLine :=
      match PSFFile.strchr buf pos PSFFile.LF with
      | Some p => p
      | None => sz
      end in
    let tagSect := <[pNewLine := NUL]> buf in
    match PSFFile.strchr tagSect pos "="%char with
    | None => PSFFile.parse_tags fuel tagSect sz (pNewLine + 1)%nat m
    | Some pSeparator =>
        let pVarNameEnd := PSFFile.trim_back tagSect pos pSeparator in
        let pVarValEnd := PSFFile.trim_back tagSect (pSeparator + 1) pNewLine in
        let pVarName := PSFFile.trim_front tagSect pos pVarNameEnd in
        let pVarVal := PSFFile.trim_front tagSect (pSeparator + 1) pVarValEnd in
        PSFFile.parse_tags fuel tagSect sz (pNewLine + 1)%nat
          (PSFFile.tags_add (PSFFile.make_string tagSect pVarName pVarNameEnd)
             (PSFFile.make_string tagSect pVarVal pVarValEnd) m)
    end.
Proof.
  intros H. cbn [PSFFile.parse_tags].
  replace (pos <? sz)%nat with true by (symmetry; apply Nat.ltb_lt; lia).
  reflexivity.
Qed.

Lemma insert_nul (pre l tail : list BYTE) (x : BYTE) :
  <[(length pre + length l)%nat := NUL]> (pre ++ l ++ x :: tail)
  = pre ++ l ++ NUL :: tail.
Proof.
  rewrite insert_app_r.
  replace (length l) with (length l + 0)%nat at 1 by lia.
  rewrite insert_app_r. reflexivity.
Qed.

(** On a text without NUL the loop records the pairs of its lines in
    order, and as much fuel as the text is long is enough. *)
Lemma parse_tags_refines (fuel : nat) :
  forall (text pre : list BYTE) (m : gmap string string),
    NUL ∉ text ->
    (length text <= fuel)%nat ->
    PSFFile.parse_tags fuel (pre ++ text ++ [NUL])
      (length pre + length text) (length pre) m
    = Some (foldl TagSpec.add_pair m (TagSpec.pairs text)).
Proof.
  induction fuel as [|fuel IH]; intros text pre m Hnul Hfuel.
  - destruct text; [|simpl in Hfuel; lia].
    apply parse_tags_done. simpl. lia.
  - destruct (decide (text = [])) as [->|Hne].
    { apply parse_tags_done. simpl. lia. }
    assert (Hpos : (length pre < length pre + length text)%nat).
    { destruct text; [congruence | simpl; lia]. }
    rewrite parse_tags_turn by exact Hpos.
    assert (Hline : exists (l tail : list BYTE) (ps : list (string * string)),
      match PSFFile.strchr (pre ++ text ++ [NUL]) (length pre) PSFFile.LF with
      | Some p => p
      | None => (length pre + length text)%nat
      end = (length pre + length l)%nat
      /\ (<[(length pre + length l)%nat := NUL]> (pre ++ text ++ [NUL])
          = pre ++ l ++ NUL :: tail)
      /\ (NUL ∉ l)
      /\ TagSpec.pairs text = option_list (TagSpec.line_pair l) ++ ps
      /\ forall m' : gmap string string,
           PSFFile.parse_tags fuel (pre ++ l ++ NUL :: tail)
             (length pre + length text) (length pre + length l + 1) m'
           = Some (foldl TagSpec.add_pair m' ps)).
    { destruct (decide (PSFFile.LF ∈ text)) as [Hin|Hnin].
      - apply list_elem_of_split_l in Hin as (l & rest & -> & Hl).
        apply not_elem_of_app in Hnul as [Hnl Hnrest].
        apply not_elem_of_cons in Hnrest as [_ Hnrest].
        exists l, (rest ++ [NUL]), (TagSpec.pairs rest).
        assert (Hfound : PSFFile.strchr (pre ++ (l ++ PSFFile.LF :: rest) ++ [NUL])
                           (length pre) PSFFile.LF = Some (length pre + length l)%nat).
        { unfold PSFFile.strchr. rewrite drop_app_length, <- app_assoc.
          cbn [app]. apply strchr_scan_found; assumption. }
        rewrite Hfound. split; [reflexivity|].
        split.
        { rewrite <- (app_assoc l). cbn [app]. apply insert_nul. }
        split; [exact Hnl|].
        split; [apply pairs_line; exact Hl|].
        intros m'.
        replace (pre ++ l ++ NUL :: rest ++ [NUL])
          with ((pre ++ l ++ [NUL]) ++ rest ++ [NUL])
          by (rewrite <- !app_assoc; reflexivity).
        replace (length pre + length (l ++ PSFFile.LF :: rest))%nat
          with (length (pre ++ l ++ [NUL]) + length rest)%nat
          by (rewrite !length_app; simpl; lia).
        replace (length pre + length l + 1)%nat with (length (pre ++ l ++ [NUL]))
          by (rewrite !length_app; simpl; lia).
        apply IH; [exact Hnrest|].
        rewrite length_app in Hfuel. simpl in Hfuel. lia.
      - exists text, [], [].
        assert (Hnone : PSFFile.strchr (pre ++ text ++ [NUL]) (length pre) PSFFile.LF = None).
        { rewrite strchr_line by (assumption || discriminate).
          rewrite find_char_None by exact Hnin. reflexivity. }
        rewrite Hnone. split; [reflexivity|].
        split; [apply insert_nul|].
        split; [exact Hnul|].
        split; [rewrite app_nil_r; apply pairs_last; assumption|].
        intros m'. apply parse_tags_done. lia. }
    destruct Hline as (l & tail & ps & HpNewLine & Hbuf & Hnl & Hpairs & Hrest).
    cbv zeta. rewrite HpNewLine, Hbuf, Hpairs, foldl_app.
    rewrite strchr_line by (assumption || discriminate).
    destruct (TagSpec.find_char "="%char l) as [k|] eqn:Hfind.
    + cbn [fmap option_fmap option_map].
      pose proof (line_strings pre l tail k Hfind) as Hpair.
      cbv zeta in Hpair. rewrite Hpair. cbn [option_list foldl].
      rewrite Hrest. reflexivity.
    + cbn [fmap option_fmap option_map].
      unfold TagSpec.line_pair. rewrite Hfind. cbn [option_list foldl].
      apply Hrest.
Qed.

(** *** Merging *)

Lemma values_of_cons (k k' v' : string) (ps : list (string * string)) :
  TagSpec.values_of k ((k', v') :: ps)
  = if decide (k' = k) then v' :: TagSpec.values_of k ps
    else TagSpec.values_of k ps.
Proof.
  unfold TagSpec.values_of. rewrite filter_cons. simpl.
  destruct (decide (k' = k)); reflexivity.
Qed.

(** The value under a name after recording the pairs: what was there,
    then the values of that name in order, LF between them. *)
Lemma foldl_add_pair_lookup (ps : list (string * string)) :
  forall (m : gmap string string) (k : string),
    foldl TagSpec.add_pair m ps !! k
    = match m !! k with
      | Some v => Some (foldl TagSpec.join2 v (TagSpec.values_of k ps))
      | None => TagSpec.merged (TagSpec.values_of k ps)
      end.
Proof.
  induction ps as [|[k' v'] ps IH]; intros m k; cbn [foldl].
  - destruct (m !! k); reflexivity.
  - rewrite IH, values_of_cons.
    unfold TagSpec.add_pair, PSFFile.tags_add. cbn [fst snd].
    destruct (decide (k' = k)) as [->|Hne].
    + destruct (m !! k) as [old|]; rewrite lookup_insert_eq; reflexivity.
    + destruct (m !! k') as [old|]; rewrite lookup_insert_ne by exact Hne;
        reflexivity.
Qed.

(** C9 as stated fails on a tag section that holds a NUL: the searches of
    the loop end at the NUL, and the lines after it are not read. In
    [psf_nul_tags] the lines "comment=foo" and "comment=bar" are separated
    by a line holding one NUL, and the tag is "foo" alone. *)
Lemma Load_nul_hides_later_lines :
  exists p, PSFFile.Load psf_nul_tags psf_blank = Some (true, p)
    /\ PSFFile.tags p !! "comment"%string = Some "foo"%string.
Proof.
  eexists. split; vm_compute; reflexivity.
Qed.

(** C9, amended. In a tag section without NUL, every name maps to the
    values of the lines of that name, wherever they stand in the section,
    in the order met and with one LF between a value and the next; names
    are compared after trimming, by equality. (The five bytes before the
    text are skipped unread.) *)
Theorem Load_merges_tag_lines
    (file : RawFile.t) (self : PSFFile.t) (sig text : list BYTE) :
  PSFSpec.through_gates file ->
  PSFSpec.storedCRC file = PSFSpec.program_crc file ->
  PSFSpec.trailing_region file = sig ++ text ->
  length sig = 5%nat ->
  TagSpec.nul_free text = true ->
  exists p, PSFFile.Load file self = Some (true, p)
    /\ forall k : string,
         PSFFile.tags p !! k
         = TagSpec.merged (TagSpec.values_of k (TagSpec.pairs text)).
Proof.
  intros Hgates Hcrc Hregion Hlen Hnul.
  rewrite (Load_crc_match file self Hgates Hcrc).
  rewrite Hregion, length_app, Hlen, <- app_assoc.
  apply nul_free_spec in Hnul.
  pose proof (parse_tags_refines (5 + length text) text sig ∅ Hnul) as Hparse.
  rewrite Hlen in Hparse. rewrite Hparse by lia.
  eexists. split; [reflexivity|].
  intros k. cbn [PSFFile.tags].
  rewrite foldl_add_pair_lookup, lookup_empty. reflexivity.
Qed.

Lemma Load_merges_tag_lines_witness :
  exists p, PSFFile.Load psf_merge psf_blank = Some (true, p)
    /\ forall k : string,
         PSFFile.tags p !! k
         = TagSpec.merged (TagSpec.values_of k (TagSpec.pairs merge_text)).
Proof.
  apply (Load_merges_tag_lines psf_merge psf_blank (bytes_of_string "[TAG]") merge_text).
  - repeat split; vm_compute; (discriminate || reflexivity).
  - vm_compute. reflexivity.
  - vm_compute. reflexivity.
  - reflexivity.
  - vm_compute. reflexivity.
Defined.

(** The two [comment] lines of [psf_merge], a [title] line between them. *)
Example Load_merge_comment :
  exists p, PSFFile.Load psf_merge psf_blank = Some (true, p)
    /\ PSFFile.tags p !! "comment"%string
       = Some (TagSpec.join2 "foo" "bar")
    /\ PSFFile.tags p !! "title"%string = Some "Song"%string.
Proof.
  eexists. repeat split; vm_compute; reflexivity.
Qed.

(** * Further properties *)

(** ** The gates of Load one by one *)

Lemma Load_too_small (file : RawFile.t) (self : PSFFile.t) :
  RawFile.size file < 16 ->
  PSFFile.Load file self
  = Some (false,
          PSFFile.mk DataSeg.empty DataSeg.empty DataSeg.empty ∅ NUL
            (PSFFile.exeCRC self) false
            (Some "PSF too small - likely corrupt"%string)).
Proof.
  intros H. unfold PSFFile.Load.
  replace (RawFile.size file <? 16) with true by (symmetry; apply Z.ltb_lt; lia).
  reflexivity.
Qed.

Lemma Load_bad_signature (file : RawFile.t) (self : PSFFile.t) :
  16 <= RawFile.size file ->
  take 3 (RawFile.GetBytes file 0 4) <> bytes_of_string "PSF" ->
  PSFFile.Load file self
  = Some (false,
          PSFFile.mk DataSeg.empty DataSeg.empty DataSeg.empty ∅ NUL
            (PSFFile.exeCRC self) false (Some "Invalid PSF signature"%string)).
Proof.
  intros Hsize Hsig. unfold PSFFile.Load.
  replace (RawFile.size file <? 16) with false by (symmetry; apply Z.ltb_ge; lia).
  rewrite bool_decide_eq_false_2 by exact Hsig.
  reflexivity.
Qed.

Lemma Load_inconsistent (file : RawFile.t) (self : PSFFile.t) :
  16 <= RawFile.size file ->
  take 3 (RawFile.GetBytes file 0 4) = bytes_of_string "PSF" ->
  PSFFile.header_inconsistent (RawFile.size file) (PSFSpec.reservedSize file)
    (PSFSpec.exeSize file) = true ->
  PSFFile.Load file self
  = Some (false,
          PSFFile.mk DataSeg.empty DataSeg.empty DataSeg.empty ∅
            (nth 3 (RawFile.GetBytes file 0 4) NUL) (PSFSpec.storedCRC file)
            false (Some "PSF header is inconsistent"%string)).
Proof.
  intros Hsize Hsig Hhdr. unfold PSFFile.Load.
  replace (RawFile.size file <? 16) with false by (symmetry; apply Z.ltb_ge; lia).
  rewrite bool_decide_eq_true_2 by exact Hsig.
  cbv zeta.
  fold (PSFSpec.reservedSize file) (PSFSpec.exeSize file) (PSFSpec.storedCRC file).
  rewrite Hhdr. reflexivity.
Qed.

(** The outcome of [Load] on any file: the result, and the record when it
    is a failure. *)
Lemma Load_cases (file : RawFile.t) (self : PSFFile.t) :
  (PSFSpec.through_gates file
   /\ PSFSpec.storedCRC file = PSFSpec.program_crc file
   /\ exists p, PSFFile.Load file self = Some (true, p)
        /\ PSFFile.errorstr p = None)
  \/ ((~ (PSFSpec.through_gates file
          /\ PSFSpec.storedCRC file = PSFSpec.program_crc file))
      /\ exists (ver : BYTE) (crc : Z) (msg : string),
           PSFFile.Load file self
           = Some (false,
                   PSFFile.mk DataSeg.empty DataSeg.empty DataSeg.empty ∅
                     ver crc false (Some msg))).
Proof.
  destruct (Z_lt_le_dec (RawFile.size file) 16) as [Hsmall|Hsize].
  { right. split.
    - intros [(H & _) _]. lia.
    - rewrite Load_too_small by exact Hsmall. eauto. }
  destruct (decide (take 3 (RawFile.GetBytes file 0 4) = bytes_of_string "PSF"))
    as [Hsig|Hsig].
  2:{ right. split.
      - intros [(_ & H & _) _]. contradiction.
      - rewrite Load_bad_signature by assumption. eauto. }
  destruct (PSFFile.header_inconsistent (RawFile.size file)
              (PSFSpec.reservedSize file) (PSFSpec.exeSize file)) eqn:Hhdr.
  { right. split.
    - intros [(_ & _ & H) _]. congruence.
    - rewrite Load_inconsistent by assumption. eauto. }
  assert (Hgates : PSFSpec.through_gates file) by (repeat split; assumption).
  destruct (Z.eq_dec (PSFSpec.storedCRC file) (PSFSpec.program_crc file))
    as [Hcrc|Hcrc].
  - left. split; [exact Hgates|]. split; [exact Hcrc|].
    rewrite (Load_crc_match file self Hgates Hcrc).
    match goal with
    | |- context [PSFFile.parse_tags ?f ?b ?s ?p ?m] =>
        destruct (parse_tags_total f b s p m) as [m' Hm']; [lia | rewrite Hm']
    end.
    eexists. split; reflexivity.
  - right. split.
    + intros [_ H]. contradiction.
    + rewrite (Load_crc_mismatch file self Hgates Hcrc). eauto.
Qed.

Lemma tag_buffer_fits (file : RawFile.t) :
  RawFile.size file < 2 ^ 32 - 1 ->
  PSFSpec.through_gates file ->
  TagBufRef.written file = TagBufRef.allocated file.
Proof.
  intros Hsize (Hmin & _ & Hhdr).
  unfold TagBufRef.written, TagBufRef.allocated, PSFSpec.trailing_region. cbv zeta.
  unfold PSFFile.header_inconsistent in Hhdr.
  apply orb_false_iff in Hhdr as [_ Hsum].
  rewrite Z.gtb_ltb in Hsum. apply Z.ltb_ge in Hsum.
  pose proof (u32_range (u32 (16 + PSFSpec.reservedSize file) + PSFSpec.exeSize file))
    as Hoff.
  revert Hsum Hoff.
  generalize (u32 (u32 (16 + PSFSpec.reservedSize file) + PSFSpec.exeSize file)).
  intros off Hsum Hoff.
  unfold RawFile.GetBytes.
  rewrite length_app, length_map, length_seq. cbn [length].
  rewrite (u32_small (RawFile.size file - off)) by lia.
  rewrite u32_small by lia. lia.
Qed.

(** At 2^32 - 1 bytes the bound is lost: where the two lengths of the
    header wrap the section offset to 0, the section is the whole file and
    the buffer allocated for it and its terminator has no byte. *)
Lemma tag_buffer_empty_at_wrap :
  RawFile.size psf_wrapped_tags = 2 ^ 32 - 1
  /\ PSFFile.header_inconsistent (RawFile.size psf_wrapped_tags)
       (PSFSpec.reservedSize psf_wrapped_tags) (PSFSpec.exeSize psf_wrapped_tags)
     = false
  /\ TagBufRef.allocated psf_wrapped_tags = 0.
Proof. repeat split; vm_compute; reflexivity. Qed.

(** X1. On a file below 2^32 - 1 bytes [Load] returns, and it returns
    true exactly for a file through the size, signature and header gates
    whose stored CRC is that of its program bytes; the error message is
    NULL after a success and only then. Below that size the buffer
    allocated for the tag section holds the section and the NUL after
    it. *)
Theorem Load_succeeds_iff (file : RawFile.t) (self : PSFFile.t) :
  RawFile.size file < 2 ^ 32 - 1 ->
  (exists r, PSFFile.Load file self = Some r
     /\ (fst r = true
         <-> PSFSpec.through_gates file
             /\ PSFSpec.storedCRC file = PSFSpec.program_crc file)
     /\ (fst r = true <-> PSFFile.GetError (snd r) = None))
  /\ (PSFSpec.through_gates file ->
      TagBufRef.written file = TagBufRef.allocated file).
Proof.
  intros Hsize. split; [|apply tag_buffer_fits; exact Hsize].
  destruct (Load_cases file self)
    as [(Hg & Hc & p & -> & Herr) | (Hno & ver & crc & msg & ->)].
  - eexists. split; [reflexivity|]. cbn [fst snd]. unfold PSFFile.GetError.
    rewrite Herr. tauto.
  - eexists. split; [reflexivity|]. cbn [fst snd]. unfold PSFFile.GetError.
    cbn [PSFFile.errorstr]. split; split; intros H; try discriminate; tauto.
Qed.

Lemma Load_succeeds_iff_witness :
  exists r, PSFFile.Load psf_merge psf_loaded = Some r
    /\ (fst r = true
        <-> PSFSpec.through_gates psf_merge
            /\ PSFSpec.storedCRC psf_merge = PSFSpec.program_crc psf_merge)
    /\ (fst r = true <-> PSFFile.GetError (snd r) = None).
Proof.
  refine (proj1 (Load_succeeds_iff psf_merge psf_loaded _)).
  vm_compute. reflexivity.
Defined.

(** X2. Whenever [Load] fails, at whichever gate, the three buffers and
    the tags of the object are empty and it is not flagged as decompressed,
    whatever it held before the call. *)
Theorem Load_failure_leaves_nothing (file : RawFile.t) (self : PSFFile.t) :
  exists r, PSFFile.Load file self = Some r
    /\ (fst r = false ->
        PSFFile.exeData (snd r) = DataSeg.empty
        /\ PSFFile.exeCompData (snd r) = DataSeg.empty
        /\ PSFFile.reservedData (snd r) = DataSeg.empty
        /\ PSFFile.tags (snd r) = ∅
        /\ PSFFile.IsDecompressed (snd r) = false
        /\ PSFFile.GetExeSize (snd r) = 0
        /\ PSFFile.GetCompressedExeSize (snd r) = 0
        /\ PSFFile.GetReservedSize (snd r) = 0).
Proof.
  destruct (Load_cases file self)
    as [(Hg & Hc & p & -> & Herr) | (Hno & ver & crc & msg & ->)].
  - eexists. split; [reflexivity|]. cbn [fst]. discriminate.
  - eexists. split; [reflexivity|]. intros _. repeat split.
Qed.

(** X3. On a file of at least 16 bytes with the signature, what [Load]
    returns does not depend on the object it is called on: nothing of
    an earlier load, not even its CRC, is left. *)
Theorem Load_forgets_prior_state (file : RawFile.t) (self self' : PSFFile.t) :
  16 <= RawFile.size file ->
  take 3 (RawFile.GetBytes file 0 4) = bytes_of_string "PSF" ->
  PSFFile.Load file self = PSFFile.Load file self'.
Proof.
  intros Hsize Hsig.
  destruct (PSFFile.header_inconsistent (RawFile.size file)
              (PSFSpec.reservedSize file) (PSFSpec.exeSize file)) eqn:Hhdr.
  - rewrite !Load_inconsistent by assumption. reflexivity.
  - assert (Hgates : PSFSpec.through_gates file) by (repeat split; assumption).
    rewrite !(Load_to_crc file _ Hgates). reflexivity.
Qed.

Lemma Load_forgets_prior_state_witness :
  PSFFile.Load psf_merge psf_blank = PSFFile.Load psf_merge psf_loaded.
Proof.
  apply (Load_forgets_prior_state psf_merge psf_blank psf_loaded).
  - vm_compute. discriminate.
  - vm_compute. reflexivity.
Defined.

(** ** Decompression *)

(** X4. With a size other than 0, [Decompress] succeeds exactly when
    [uncompress] reports Z_OK. On success the decompressed buffer is the
    destination buffer with the size asked for and the object is flagged
    as decompressed; on any other status only the error message
    changes. *)
Theorem Decompress_nonzero
    (uncompress : Z -> list BYTE -> Z -> Zlib.status * list BYTE)
    (n : Z) (self : PSFFile.t) :
  n <> 0 ->
  (fst (PSFFile.Decompress uncompress n self) = true
   <-> fst (uncompress n (DataSeg.data (PSFFile.exeCompData self))
              (DataSeg.size (PSFFile.exeCompData self))) = Zlib.Z_OK)
  /\ (fst (PSFFile.Decompress uncompress n self) = true ->
      PSFFile.exeData (snd (PSFFile.Decompress uncompress n self))
      = DataSeg.mk
          (snd (uncompress n (DataSeg.data (PSFFile.exeCompData self))
                  (DataSeg.size (PSFFile.exeCompData self)))) n
      /\ PSFFile.IsDecompressed (snd (PSFFile.Decompress uncompress n self)) = true
      /\ PSFFile.GetExeSize (snd (PSFFile.Decompress uncompress n self)) = n
      /\ PSFFile.GetError (snd (PSFFile.Decompress uncompress n self))
         = PSFFile.GetError self)
  /\ (fst (PSFFile.Decompress uncompress n self) = false ->
      snd (PSFFile.Decompress uncompress n self)
      = PSFFile.set_errorstr "Decompression failed" self).
Proof.
  intros Hn. unfold PSFFile.Decompress.
  replace (n =? 0) with false by (symmetry; apply Z.eqb_neq; exact Hn).
  destruct (uncompress n _ _) as [st buf].
  destruct st; cbn; repeat split; congruence.
Qed.

Lemma Decompress_nonzero_witness :
  fst (PSFFile.Decompress (uncompress_reporting Zlib.Z_OK) 16 psf_blank) = true
  <-> fst (uncompress_reporting Zlib.Z_OK 16
             (DataSeg.data (PSFFile.exeCompData psf_blank))
             (DataSeg.size (PSFFile.exeCompData psf_blank))) = Zlib.Z_OK.
Proof.
  apply (Decompress_nonzero (uncompress_reporting Zlib.Z_OK) 16 psf_blank).
  discriminate.
Defined.

(** X5. [Decompress] leaves the compressed program, the reserved data,
    the tags, the version and the CRC as they are, and never clears the
    decompressed flag: the flag afterwards is the flag before, or a success
    with a size other than 0. A successful [Decompress] of size 0 does not
    set it. *)
Theorem Decompress_frame
    (uncompress : Z -> list BYTE -> Z -> Zlib.status * list BYTE)
    (n : Z) (self : PSFFile.t) :
  PSFFile.exeCompData (snd (PSFFile.Decompress uncompress n self))
  = PSFFile.exeCompData self
  /\ PSFFile.reservedData (snd (PSFFile.Decompress uncompress n self))
     = PSFFile.reservedData self
  /\ PSFFile.tags (snd (PSFFile.Decompress uncompress n self)) = PSFFile.tags self
  /\ PSFFile.GetVersion (snd (PSFFile.Decompress uncompress n self))
     = PSFFile.GetVersion self
  /\ PSFFile.exeCRC (snd (PSFFile.Decompress uncompress n self))
     = PSFFile.exeCRC self
  /\ PSFFile.IsDecompressed (snd (PSFFile.Decompress uncompress n self))
     = PSFFile.IsDecompressed self
       || (negb (n =? 0) && fst (PSFFile.Decompress uncompress n self)).
Proof.
  unfold PSFFile.Decompress, PSFFile.IsDecompressed, PSFFile.GetVersion.
  destruct (n =? 0).
  - destruct (DataSeg.size _ =? 0); cbn; rewrite orb_false_r; repeat split.
  - destruct (uncompress n _ _) as [st buf].
    destruct st; cbn; rewrite ?orb_false_r, ?orb_true_r; repeat split.
Qed.

(** X6. The two decompressing methods disagree on two statuses. With a
    size other than 0, a successful [Decompress] means a successful
    [ReadExe]; [ReadExe] succeeds where [Decompress] fails exactly when
    [uncompress] reports Z_BUF_ERROR or Z_MEM_ERROR. *)
Theorem ReadExe_tolerates_more
    (uncompress : Z -> list BYTE -> Z -> Zlib.status * list BYTE)
    (n : Z) (self : PSFFile.t) :
  n <> 0 ->
  (fst (PSFFile.Decompress uncompress n self) = true ->
   fst (fst (PSFFile.ReadExe uncompress n self)) = true)
  /\ (fst (fst (PSFFile.ReadExe uncompress n self)) = true
      /\ fst (PSFFile.Decompress uncompress n self) = false
      <-> fst (uncompress n (DataSeg.data (PSFFile.exeCompData self))
                 (DataSeg.size (PSFFile.exeCompData self))) = Zlib.Z_BUF_ERROR
          \/ fst (uncompress n (DataSeg.data (PSFFile.exeCompData self))
                    (DataSeg.size (PSFFile.exeCompData self))) = Zlib.Z_MEM_ERROR).
Proof.
  intros Hn. unfold PSFFile.Decompress, PSFFile.ReadExe.
  replace (n =? 0) with false by (symmetry; apply Z.eqb_neq; exact Hn).
  destruct (uncompress n _ _) as [st buf].
  destruct st; cbn; split; try tauto; try congruence;
    split; intros H; try tauto; try (destruct H; congruence);
    try (destruct H as [H | H]; discriminate).
Qed.

Lemma ReadExe_tolerates_more_witness :
  fst (fst (PSFFile.ReadExe (uncompress_reporting Zlib.Z_BUF_ERROR) 16 psf_blank)) = true
  /\ fst (PSFFile.Decompress (uncompress_reporting Zlib.Z_BUF_ERROR) 16 psf_blank) = false.
Proof.
  apply (ReadExe_tolerates_more (uncompress_reporting Zlib.Z_BUF_ERROR) 16 psf_blank).
  - discriminate.
  - left. reflexivity.
Defined.

(** ** The sections of a file *)

Lemma GetByte_range (file : RawFile.t) (i : Z) :
  0 <= RawFile.GetByte file i < 256.
Proof. apply byte_val_range. Qed.

Lemma GetShort_range (file : RawFile.t) (i : Z) :
  0 <= RawFile.GetShort file i < 2 ^ 16.
Proof.
  unfold RawFile.GetShort.
  pose proof (GetByte_range file i). pose proof (GetByte_range file (i + 1)).
  lia.
Qed.

Lemma GetWord_range (file : RawFile.t) (i : Z) :
  0 <= RawFile.GetWord file i < 2 ^ 32.
Proof.
  unfold RawFile.GetWord.
  pose proof (GetByte_range file i). pose proof (GetByte_range file (i + 1)).
  pose proof (GetByte_range file (i + 2)). pose proof (GetByte_range file (i + 3)).
  lia.
Qed.

Lemma GetBytes_length (file : RawFile.t) (i n : Z) :
  length (RawFile.GetBytes file i n) = Z.to_nat n.
Proof. unfold RawFile.GetBytes. rewrite length_map, length_seq. reflexivity. Qed.

(** X7. In a file below 2^31 - 8 bytes that is through the gates, the
    sections the header declares lie inside the file: the 16 header bytes,
    the reserved bytes, the program bytes and the trailing region are as
    long together as the file. *)
Theorem gates_keep_sections_inside (file : RawFile.t) :
  PSFSpec.through_gates file ->
  RawFile.size file < 2 ^ 31 - 8 ->
  16 + PSFSpec.reservedSize file + PSFSpec.exeSize file <= RawFile.size file
  /\ 16 + Z.of_nat (length (PSFSpec.reserved_bytes file))
     + Z.of_nat (length (PSFSpec.program_bytes file))
     + Z.of_nat (length (PSFSpec.trailing_region file))
     = RawFile.size file.
Proof.
  intros (Hsize & _ & Hhdr) Hsmall.
  pose proof (GetWord_range file 4) as Hr. fold (PSFSpec.reservedSize file) in Hr.
  pose proof (GetWord_range file 8) as He. fold (PSFSpec.exeSize file) in He.
  assert (Hsum : 16 + PSFSpec.reservedSize file + PSFSpec.exeSize file
                 <= RawFile.size file).
  { destruct (Z_le_gt_dec (16 + PSFSpec.reservedSize file + PSFSpec.exeSize file)
                (RawFile.size file)) as [H|H]; [exact H|].
    apply header_gate_exact in H; [congruence | lia | lia | exact Hsmall]. }
  split; [exact Hsum|].
  unfold PSFSpec.reserved_bytes, PSFSpec.program_bytes, PSFSpec.trailing_region.
  cbv zeta. rewrite !GetBytes_length.
  rewrite (u32_small (16 + PSFSpec.reservedSize file)) by lia.
  rewrite (u32_small (16 + PSFSpec.reservedSize file + PSFSpec.exeSize file)) by lia.
  rewrite u32_small by lia. lia.
Qed.

Lemma gates_keep_sections_inside_witness :
  16 + PSFSpec.reservedSize psf_bad_crc + PSFSpec.exeSize psf_bad_crc
    <= RawFile.size psf_bad_crc
  /\ 16 + Z.of_nat (length (PSFSpec.reserved_bytes psf_bad_crc))
     + Z.of_nat (length (PSFSpec.program_bytes psf_bad_crc))
     + Z.of_nat (length (PSFSpec.trailing_region psf_bad_crc))
     = RawFile.size psf_bad_crc.
Proof.
  apply (gates_keep_sections_inside psf_bad_crc).
  - repeat split; vm_compute; (discriminate || reflexivity).
  - vm_compute. reflexivity.
Defined.

(** ** Files built in memory *)

Lemma byte_val_of_Z (z : Z) : byte_val (byte_of_Z z) = z mod 256.
Proof.
  unfold byte_val, byte_of_Z.
  pose proof (Z.mod_pos_bound z 256 ltac:(lia)) as H.
  rewrite N_ascii_embedding by lia.
  apply Z2N.id. lia.
Qed.

(** The four bytes of [le32 x], read back little-endian, are [x]. *)
Lemma le32_value (x : Z) :
  0 <= x < 2 ^ 32 ->
  x mod 256 + 2 ^ 8 * ((x / 2 ^ 8) mod 256)
  + 2 ^ 16 * ((x / 2 ^ 16) mod 256) + 2 ^ 24 * ((x / 2 ^ 24) mod 256) = x.
Proof.
  intros Hx.
  change (2 ^ 8) with 256. change (2 ^ 16) with (256 * 256).
  change (2 ^ 24) with (256 * 256 * 256).
  rewrite <- !Z.div_div by lia.
  pose proof (Z.div_mod x 256 ltac:(lia)) as H0.
  pose proof (Z.div_mod (x / 256) 256 ltac:(lia)) as H1.
  pose proof (Z.div_mod (x / 256 / 256) 256 ltac:(lia)) as H2.
  assert (H3 : (x / 256 / 256 / 256) mod 256 = x / 256 / 256 / 256).
  { apply Z.mod_small. split.
    - repeat apply Z.div_pos; lia.
    - repeat (apply Z.div_lt_upper_bound; [lia|]). lia. }
  pose proof (Z.div_mod (x / 256 / 256 / 256) 256 ltac:(lia)) as H4.
  lia.
Qed.

Lemma byte_at_of_bytes (l : list BYTE) (n k : nat) :
  RawFile.byte_at (RawFile.of_bytes l) (Z.of_nat n + Z.of_nat k)
  = nth (n + k) l NUL.
Proof.
  unfold RawFile.of_bytes. cbn [RawFile.byte_at].
  replace (Z.of_nat n + Z.of_nat k <? 0) with false
    by (symmetry; apply Z.ltb_ge; lia).
  f_equal. lia.
Qed.

(** Reading the middle of a file held in memory. *)
Lemma GetBytes_of_bytes (a b c : list BYTE) :
  RawFile.GetBytes (RawFile.of_bytes (a ++ b ++ c))
    (Z.of_nat (length a)) (Z.of_nat (length b)) = b.
Proof.
  unfold RawFile.GetBytes. rewrite Nat2Z.id.
  apply (nth_ext _ _ NUL NUL).
  - rewrite length_map, length_seq. reflexivity.
  - intros i Hi. rewrite length_map, length_seq in Hi.
    rewrite (nth_indep _ NUL
               (RawFile.byte_at (RawFile.of_bytes (a ++ b ++ c))
                  (Z.of_nat (length a) + Z.of_nat 0)))
      by (rewrite length_map, length_seq; exact Hi).
    rewrite (map_nth (fun k => RawFile.byte_at (RawFile.of_bytes (a ++ b ++ c))
                                 (Z.of_nat (length a) + Z.of_nat k))).
    rewrite seq_nth by exact Hi. cbn [Nat.add].
    rewrite byte_at_of_bytes, app_nth2_plus, app_nth1 by exact Hi.
    reflexivity.
Qed.

Lemma byte_at_of_bytes_Z (l : list BYTE) (n : nat) (z : Z) :
  0 <= z ->
  RawFile.byte_at (RawFile.of_bytes l) (Z.of_nat n + z)
  = nth (n + Z.to_nat z) l NUL.
Proof.
  intros Hz. rewrite <- (Z2Nat.id z) at 1 by exact Hz.
  apply byte_at_of_bytes.
Qed.

Lemma GetWord_of_bytes (a c : list BYTE) (x : Z) :
  0 <= x < 2 ^ 32 ->
  RawFile.GetWord (RawFile.of_bytes (a ++ le32 x ++ c)) (Z.of_nat (length a)) = x.
Proof.
  intros Hx. unfold RawFile.GetWord, RawFile.GetByte.
  rewrite !byte_at_of_bytes_Z by lia.
  replace (Z.of_nat (length a)) with (Z.of_nat (length a) + 0) at 1 by lia.
  rewrite byte_at_of_bytes_Z by lia.
  rewrite !app_nth2_plus.
  change (Z.to_nat 0) with 0%nat. change (Z.to_nat 1) with 1%nat.
  change (Z.to_nat 2) with 2%nat. change (Z.to_nat 3) with 3%nat.
  cbn [le32 app nth]. rewrite !byte_val_of_Z.
  apply le32_value. exact Hx.
Qed.

(** *** The CRC is a 32-bit value *)

Lemma lxor_u32 (a b : Z) :
  0 <= a < 2 ^ 32 -> 0 <= b < 2 ^ 32 -> 0 <= Z.lxor a b < 2 ^ 32.
Proof.
  intros Ha Hb.
  assert (Hnn : 0 <= Z.lxor a b) by (apply Z.lxor_nonneg; lia).
  split; [exact Hnn|].
  destruct (Z.eq_dec (Z.lxor a b) 0) as [->|Hne]; [lia|].
  apply Z.log2_lt_pow2; [lia|].
  pose proof (Z.log2_lxor a b ltac:(lia) ltac:(lia)) as Hlog.
  assert (Hla : Z.log2 a < 32).
  { destruct (Z.eq_dec a 0) as [->|]; [reflexivity|].
    apply Z.log2_lt_pow2; lia. }
  assert (Hlb : Z.log2 b < 32).
  { destruct (Z.eq_dec b 0) as [->|]; [reflexivity|].
    apply Z.log2_lt_pow2; lia. }
  lia.
Qed.

Lemma crc_bit_range (c : Z) : 0 <= c < 2 ^ 32 -> 0 <= Zlib.crc_bit c < 2 ^ 32.
Proof.
  intros Hc. unfold Zlib.crc_bit.
  assert (Hs : 0 <= Z.shiftr c 1 < 2 ^ 32).
  { rewrite Z.shiftr_div_pow2 by lia. change (2 ^ 1) with 2.
    split; [apply Z.div_pos; lia|].
    apply Z.div_lt_upper_bound; lia. }
  destruct (Z.testbit c 0); [|exact Hs].
  apply lxor_u32; [exact Hs | lia].
Qed.

Lemma crc_byte_range (c : Z) (b : BYTE) :
  0 <= c < 2 ^ 32 -> 0 <= Zlib.crc_byte c b < 2 ^ 32.
Proof.
  intros Hc. unfold Zlib.crc_byte.
  assert (H0 : 0 <= Z.lxor c (byte_val b) < 2 ^ 32).
  { apply lxor_u32; [exact Hc|]. pose proof (byte_val_range b). lia. }
  cbn [Nat.iter nat_rect]. unfold Nat.iter. cbn [nat_rect].
  repeat apply crc_bit_range. exact H0.
Qed.

Lemma crc_fold_range (l : list BYTE) :
  forall c : Z, 0 <= c < 2 ^ 32 -> 0 <= fold_left Zlib.crc_byte l c < 2 ^ 32.
Proof.
  induction l as [|b l IH]; intros c Hc; cbn [fold_left]; [exact Hc|].
  apply IH. apply crc_byte_range. exact Hc.
Qed.

Lemma crc32_range (crc : Z) (buf : option (list BYTE)) :
  0 <= crc < 2 ^ 32 -> 0 <= Zlib.crc32 crc buf < 2 ^ 32.
Proof.
  intros Hc. unfold Zlib.crc32. destruct buf as [l|]; [|lia].
  apply lxor_u32; [|lia].
  apply crc_fold_range. apply lxor_u32; lia.
Qed.

(** *** What Load reads from an image *)

Lemma psf_image_split (ver : BYTE) (reserved payload : list BYTE) (crc : Z)
    (trailer : list BYTE) :
  psf_image ver reserved payload crc trailer
  = psf_header ver (Z.of_nat (length reserved)) (Z.of_nat (length payload)) crc
    ++ reserved ++ payload ++ trailer.
Proof. reflexivity. Qed.

Section Image.

Variable ver : BYTE.
Variables reserved payload trailer : list BYTE.
Variable crc : Z.

Hypothesis fits_u32 :
  16 + Z.of_nat (length reserved) + Z.of_nat (length payload)
  + Z.of_nat (length trailer) < 2 ^ 32.
Hypothesis crc_u32 : 0 <= crc < 2 ^ 32.

Lemma image_size :
  RawFile.size (RawFile.of_bytes (psf_image ver reserved payload crc trailer))
  = 16 + Z.of_nat (length reserved) + Z.of_nat (length payload)
    + Z.of_nat (length trailer).
Proof.
  unfold RawFile.of_bytes. cbn [RawFile.size].
  rewrite psf_image_split, !length_app.
  change (length (psf_header _ _ _ _)) with 16%nat. lia.
Qed.

Lemma image_signature :
  RawFile.GetBytes (RawFile.of_bytes (psf_image ver reserved payload crc trailer)) 0 4
  = bytes_of_string "PSF" ++ [ver].
Proof. reflexivity. Qed.

Lemma image_reservedSize :
  PSFSpec.reservedSize (RawFile.of_bytes (psf_image ver reserved payload crc trailer))
  = Z.of_nat (length reserved).
Proof.
  unfold PSFSpec.reservedSize, psf_image.
  rewrite (app_assoc (bytes_of_string "PSF") [ver]).
  apply (GetWord_of_bytes (bytes_of_string "PSF" ++ [ver])). lia.
Qed.

Lemma image_exeSize :
  PSFSpec.exeSize (RawFile.of_bytes (psf_image ver reserved payload crc trailer))
  = Z.of_nat (length payload).
Proof.
  unfold PSFSpec.exeSize, psf_image.
  rewrite (app_assoc [ver]), (app_assoc (bytes_of_string "PSF")).
  apply (GetWord_of_bytes
           (bytes_of_string "PSF" ++ [ver] ++ le32 (Z.of_nat (length reserved)))).
  lia.
Qed.

Lemma image_storedCRC :
  PSFSpec.storedCRC (RawFile.of_bytes (psf_image ver reserved payload crc trailer))
  = crc.
Proof.
  unfold PSFSpec.storedCRC, psf_image.
  rewrite (app_assoc (le32 (Z.of_nat (length reserved)))), (app_assoc [ver]),
    (app_assoc (bytes_of_string "PSF")).
  apply (GetWord_of_bytes
           (bytes_of_string "PSF" ++ [ver] ++ le32 (Z.of_nat (length reserved))
            ++ le32 (Z.of_nat (length payload)))).
  exact crc_u32.
Qed.

Lemma image_reserved_bytes :
  PSFSpec.reserved_bytes (RawFile.of_bytes (psf_image ver reserved payload crc trailer))
  = reserved.
Proof.
  unfold PSFSpec.reserved_bytes. rewrite image_reservedSize, psf_image_split.
  apply (GetBytes_of_bytes
           (psf_header ver (Z.of_nat (length reserved))
              (Z.of_nat (length payload)) crc)).
Qed.

Lemma image_program_bytes :
  PSFSpec.program_bytes (RawFile.of_bytes (psf_image ver reserved payload crc trailer))
  = payload.
Proof.
  unfold PSFSpec.program_bytes.
  rewrite image_reservedSize, image_exeSize, psf_image_split.
  rewrite u32_small by lia.
  rewrite (app_assoc _ reserved).
  replace (16 + Z.of_nat (length reserved))
    with (Z.of_nat (length (psf_header ver (Z.of_nat (length reserved))
                              (Z.of_nat (length payload)) crc ++ reserved))).
  - apply GetBytes_of_bytes.
  - rewrite length_app.
    change (length (psf_header _ _ _ _)) with 16%nat. lia.
Qed.

Lemma image_trailing_region :
  PSFSpec.trailing_region (RawFile.of_bytes (psf_image ver reserved payload crc trailer))
  = trailer.
Proof.
  unfold PSFSpec.trailing_region. cbv zeta.
  rewrite image_reservedSize, image_exeSize, image_size.
  rewrite (u32_small (16 + Z.of_nat (length reserved))) by lia.
  rewrite (u32_small (16 + Z.of_nat (length reserved) + Z.of_nat (length payload)))
    by lia.
  replace (16 + Z.of_nat (length reserved) + Z.of_nat (length payload)
           + Z.of_nat (length trailer)
           - (16 + Z.of_nat (length reserved) + Z.of_nat (length payload)))
    with (Z.of_nat (length trailer)) by lia.
  rewrite u32_small by lia.
  rewrite psf_image_split.
  rewrite (app_assoc reserved), (app_assoc _ (reserved ++ payload)).
  rewrite <- (app_nil_r trailer) at 1.
  replace (16 + Z.of_nat (length reserved) + Z.of_nat (length payload))
    with (Z.of_nat (length (psf_header ver (Z.of_nat (length reserved))
                              (Z.of_nat (length payload)) crc
                            ++ reserved ++ payload))).
  - apply GetBytes_of_bytes.
  - rewrite !length_app.
    change (length (psf_header _ _ _ _)) with 16%nat. lia.
Qed.

Lemma image_through_gates :
  PSFSpec.through_gates (RawFile.of_bytes (psf_image ver reserved payload crc trailer)).
Proof.
  unfold PSFSpec.through_gates.
  rewrite image_size, image_reservedSize, image_exeSize.
  split; [lia|]. split; [reflexivity|].
  unfold PSFFile.header_inconsistent.
  rewrite (u32_small (16 + Z.of_nat (length reserved))) by lia.
  rewrite u32_small by lia.
  rewrite !orb_false_iff, !Z.gtb_ltb, !Z.ltb_ge. lia.
Qed.

End Image.

(** [Load] on an image with the right CRC. *)
Lemma Load_psf_file (ver : BYTE) (reserved payload trailer : list BYTE)
    (self : PSFFile.t) :
  16 + Z.of_nat (length reserved) + Z.of_nat (length payload)
  + Z.of_nat (length trailer) < 2 ^ 32 ->
  PSFFile.Load (psf_file ver reserved payload trailer) self
  = match PSFFile.parse_tags (length trailer) (trailer ++ [NUL])
            (length trailer) 5 ∅ with
    | None => None
    | Some m =>
        Some (true,
              PSFFile.mk DataSeg.empty
                (DataSeg.mk payload (Z.of_nat (length payload)))
                (DataSeg.mk reserved (Z.of_nat (length reserved)))
                m ver (Zlib.crc32 (Zlib.crc32 0 None) (Some payload)) false None)
    end.
Proof.
  intros Hfits. unfold psf_file.
  assert (Hcrc : 0 <= Zlib.crc32 (Zlib.crc32 0 None) (Some payload) < 2 ^ 32).
  { apply crc32_range. cbn. lia. }
  set (crc := Zlib.crc32 (Zlib.crc32 0 None) (Some payload)) in *.
  rewrite (Load_crc_match _ self
             (image_through_gates ver reserved payload trailer crc Hfits)).
  - rewrite (image_trailing_region ver reserved payload trailer crc Hfits),
      (image_program_bytes ver reserved payload trailer crc Hfits),
      (image_reserved_bytes ver reserved payload trailer crc Hfits),
      (image_exeSize ver reserved payload trailer crc Hfits),
      (image_reservedSize ver reserved payload trailer crc Hfits),
      (image_storedCRC ver reserved payload trailer crc Hcrc).
    reflexivity.
  - rewrite (image_storedCRC ver reserved payload trailer crc Hcrc).
    unfold PSFSpec.program_crc.
    rewrite (image_program_bytes ver reserved payload trailer crc Hfits).
    reflexivity.
Qed.

(** X8. Round trip. A file made of the signature, a version byte, the two
    lengths, the CRC-32 of the program bytes, the reserved bytes, the
    program bytes and any trailer, below 2^32 bytes in all, loads; the
    loaded record gives back the version, the reserved bytes and the
    program bytes, and is neither decompressed nor in error. *)
Theorem Load_round_trip (ver : BYTE) (reserved payload trailer : list BYTE)
    (self : PSFFile.t) :
  16 + Z.of_nat (length reserved) + Z.of_nat (length payload)
  + Z.of_nat (length trailer) < 2 ^ 32 ->
  exists p,
    PSFFile.Load (psf_file ver reserved payload trailer) self = Some (true, p)
    /\ PSFFile.GetVersion p = ver
    /\ PSFFile.reservedData p = DataSeg.mk reserved (Z.of_nat (length reserved))
    /\ PSFFile.exeCompData p = DataSeg.mk payload (Z.of_nat (length payload))
    /\ PSFFile.exeCRC p = Zlib.crc32 (Zlib.crc32 0 None) (Some payload)
    /\ PSFFile.exeData p = DataSeg.empty
    /\ PSFFile.IsDecompressed p = false
    /\ PSFFile.GetError p = None.
Proof.
  intros Hfits. rewrite Load_psf_file by exact Hfits.
  destruct (parse_tags_total (length trailer) (trailer ++ [NUL])
              (length trailer) 5 ∅) as [m Hm]; [lia|].
  rewrite Hm. eexists. split; [reflexivity|]. repeat split.
Qed.

Lemma Load_round_trip_witness :
  exists p,
    PSFFile.Load (psf_file "002"%char (bytes_of_string "rsv") (bytes_of_string "abc")
                    (bytes_of_string "[TAG]a=b")) psf_loaded = Some (true, p)
    /\ PSFFile.GetVersion p = "002"%char
    /\ PSFFile.reservedData p = DataSeg.mk (bytes_of_string "rsv") 3
    /\ PSFFile.exeCompData p = DataSeg.mk (bytes_of_string "abc") 3
    /\ PSFFile.exeCRC p
       = Zlib.crc32 (Zlib.crc32 0 None) (Some (bytes_of_string "abc"))
    /\ PSFFile.exeData p = DataSeg.empty
    /\ PSFFile.IsDecompressed p = false
    /\ PSFFile.GetError p = None.
Proof.
  apply (Load_round_trip "002"%char (bytes_of_string "rsv") (bytes_of_string "abc")
           (bytes_of_string "[TAG]a=b") psf_loaded).
  vm_compute. reflexivity.
Defined.

(** ** More on the tag section *)

(** The tags [Load] records from an image whose trailer is five bytes and
    a text without NUL. *)
Lemma Load_psf_file_tags (ver : BYTE) (reserved payload sig text : list BYTE)
    (self : PSFFile.t) :
  16 + Z.of_nat (length reserved) + Z.of_nat (length payload)
  + Z.of_nat (length (sig ++ text)) < 2 ^ 32 ->
  length sig = 5%nat ->
  TagSpec.nul_free text = true ->
  exists p,
    PSFFile.Load (psf_file ver reserved payload (sig ++ text)) self = Some (true, p)
    /\ PSFFile.tags p = foldl TagSpec.add_pair ∅ (TagSpec.pairs text).
Proof.
  intros Hfits Hlen Hnul.
  rewrite Load_psf_file by exact Hfits.
  rewrite length_app, Hlen, <- app_assoc.
  apply nul_free_spec in Hnul.
  pose proof (parse_tags_refines (5 + length text) text sig ∅ Hnul) as Hparse.
  rewrite Hlen in Hparse. rewrite Hparse by lia.
  eexists. split; reflexivity.
Qed.

Lemma lines_from_app (a rest : list BYTE) :
  forall cur : list BYTE,
    TagSpec.lines_from cur (a ++ PSFFile.LF :: rest)
    = TagSpec.lines_from cur (a ++ [PSFFile.LF]) ++ TagSpec.lines_from [] rest.
Proof.
  induction a as [|c a IH]; intros cur; cbn [app TagSpec.lines_from].
  - destruct (decide (PSFFile.LF = PSFFile.LF)) as [_|E]; [reflexivity | congruence].
  - destruct (decide (c = PSFFile.LF)) as [_|_].
    + rewrite IH. reflexivity.
    + apply IH.
Qed.

Lemma pairs_app (a rest : list BYTE) :
  TagSpec.pairs (a ++ PSFFile.LF :: rest)
  = TagSpec.pairs (a ++ [PSFFile.LF]) ++ TagSpec.pairs rest.
Proof.
  unfold TagSpec.pairs, TagSpec.lines.
  rewrite lines_from_app, omap_app. reflexivity.
Qed.

Lemma line_pair_nil : TagSpec.line_pair [] = None.
Proof. reflexivity. Qed.

(** A LF at the end ends the last line and starts no other. *)
Lemma pairs_final_newline (text : list BYTE) :
  TagSpec.pairs (text ++ [PSFFile.LF]) = TagSpec.pairs text.
Proof.
  unfold TagSpec.pairs, TagSpec.lines. generalize (@nil BYTE) at 1 3.
  induction text as [|c text IH]; intros cur; cbn [app TagSpec.lines_from].
  - destruct (decide (PSFFile.LF = PSFFile.LF)) as [_|E]; [|congruence].
    destruct cur; reflexivity.
  - destruct (decide (c = PSFFile.LF)) as [_|_].
    + cbn [omap list_omap]. rewrite IH. reflexivity.
    + apply IH.
Qed.

Lemma plain_line_spec (l : list BYTE) :
  TagRef.plain_line l = true -> ("="%char ∉ l) /\ (PSFFile.LF ∉ l).
Proof.
  unfold TagRef.plain_line. induction l as [|c l IH]; cbn [forallb].
  - intros _. split; apply not_elem_of_nil.
  - rewrite !andb_true_iff, !negb_true_iff, !bool_decide_eq_false.
    intros [[Heq Hlf] Hrest]. destruct (IH Hrest) as [H1 H2].
    split; apply not_elem_of_cons; split; congruence || assumption.
Qed.

Lemma at_line_start_spec (a : list BYTE) :
  TagRef.at_line_start a = true -> a = [] \/ exists a0, a = a0 ++ [PSFFile.LF].
Proof.
  unfold TagRef.at_line_start.
  destruct a as [|c a] using rev_ind; [left; reflexivity|].
  rewrite last_snoc. intros H. apply bool_decide_eq_true in H. subst.
  right. eauto.
Qed.

(** A line without [=] at a line start adds no pair. *)
Lemma pairs_plain_line (a j b : list BYTE) :
  TagRef.at_line_start a = true ->
  TagRef.plain_line j = true ->
  TagSpec.pairs (a ++ j ++ PSFFile.LF :: b) = TagSpec.pairs (a ++ b).
Proof.
  intros Ha Hj. apply plain_line_spec in Hj as [Heq Hlf].
  assert (Hjb : TagSpec.pairs (j ++ PSFFile.LF :: b) = TagSpec.pairs b).
  { rewrite pairs_line by exact Hlf. unfold TagSpec.line_pair.
    rewrite find_char_None by exact Heq. reflexivity. }
  destruct (at_line_start_spec a Ha) as [-> | [a0 ->]].
  - exact Hjb.
  - rewrite <- !app_assoc. cbn [app].
    rewrite (pairs_app a0 (j ++ PSFFile.LF :: b)), (pairs_app a0 b), Hjb.
    reflexivity.
Qed.

(** X9. The tag section need not end with a newline: with or without a
    final LF after the text, the same tags are recorded. *)
Theorem tags_ignore_final_newline
    (ver : BYTE) (reserved payload sig text : list BYTE) (self : PSFFile.t) :
  16 + Z.of_nat (length reserved) + Z.of_nat (length payload)
  + Z.of_nat (length (sig ++ text ++ [PSFFile.LF])) < 2 ^ 32 ->
  length sig = 5%nat ->
  TagSpec.nul_free text = true ->
  exists p p',
    PSFFile.Load (psf_file ver reserved payload (sig ++ text)) self = Some (true, p)
    /\ PSFFile.Load (psf_file ver reserved payload (sig ++ text ++ [PSFFile.LF])) self
       = Some (true, p')
    /\ PSFFile.tags p' = PSFFile.tags p.
Proof.
  intros Hfits Hlen Hnul.
  destruct (Load_psf_file_tags ver reserved payload sig text self)
    as (p & Hp & Htags); [|exact Hlen|exact Hnul|].
  { rewrite !length_app in *. cbn [length] in Hfits. lia. }
  destruct (Load_psf_file_tags ver reserved payload sig (text ++ [PSFFile.LF]) self)
    as (p' & Hp' & Htags'); [exact Hfits|exact Hlen| |].
  { apply nul_free_spec. apply nul_free_spec in Hnul.
    apply not_elem_of_app. split; [exact Hnul|].
    apply not_elem_of_cons. split; [discriminate | apply not_elem_of_nil]. }
  exists p, p'. split; [exact Hp|]. split; [exact Hp'|].
  rewrite Htags, Htags', pairs_final_newline. reflexivity.
Qed.

Lemma tags_ignore_final_newline_witness :
  exists p p',
    PSFFile.Load (psf_file "001"%char [] [] (bytes_of_string "[TAG]" ++ ragged_text))
      psf_blank = Some (true, p)
    /\ PSFFile.Load
         (psf_file "001"%char [] []
            (bytes_of_string "[TAG]" ++ ragged_text ++ [PSFFile.LF])) psf_blank
       = Some (true, p')
    /\ PSFFile.tags p' = PSFFile.tags p.
Proof.
  apply (tags_ignore_final_newline "001"%char [] [] (bytes_of_string "[TAG]")
           ragged_text psf_blank).
  - vm_compute. reflexivity.
  - reflexivity.
  - vm_compute. reflexivity.
Defined.

(** X10. A line without [=], blank or not, is ignored: put at the start
    of a line anywhere in a tag text, it leaves the recorded tags as
    they are. *)
Theorem tags_ignore_plain_line
    (ver : BYTE) (reserved payload sig a j b : list BYTE) (self : PSFFile.t) :
  16 + Z.of_nat (length reserved) + Z.of_nat (length payload)
  + Z.of_nat (length (sig ++ a ++ j ++ PSFFile.LF :: b)) < 2 ^ 32 ->
  length sig = 5%nat ->
  TagSpec.nul_free (a ++ j ++ b) = true ->
  TagRef.at_line_start a = true ->
  TagRef.plain_line j = true ->
  exists p p',
    PSFFile.Load (psf_file ver reserved payload (sig ++ a ++ b)) self = Some (true, p)
    /\ PSFFile.Load (psf_file ver reserved payload (sig ++ a ++ j ++ PSFFile.LF :: b))
         self = Some (true, p')
    /\ PSFFile.tags p' = PSFFile.tags p.
Proof.
  intros Hfits Hlen Hnul Ha Hj.
  apply nul_free_spec in Hnul.
  apply not_elem_of_app in Hnul as [Hna Hnjb].
  apply not_elem_of_app in Hnjb as [Hnj Hnb].
  destruct (Load_psf_file_tags ver reserved payload sig (a ++ b) self)
    as (p & Hp & Htags); [|exact Hlen| |].
  { rewrite !length_app in *. cbn [length] in Hfits. lia. }
  { apply nul_free_spec. apply not_elem_of_app. split; assumption. }
  destruct (Load_psf_file_tags ver reserved payload sig
              (a ++ j ++ PSFFile.LF :: b) self)
    as (p' & Hp' & Htags'); [exact Hfits|exact Hlen| |].
  { apply nul_free_spec. apply not_elem_of_app. split; [exact Hna|].
    apply not_elem_of_app. split; [exact Hnj|].
    apply not_elem_of_cons. split; [discriminate | exact Hnb]. }
  exists p, p'. split; [exact Hp|]. split; [exact Hp'|].
  rewrite Htags, Htags', pairs_plain_line by assumption. reflexivity.
Qed.

Lemma tags_ignore_plain_line_witness :
  exists p p',
    PSFFile.Load
      (psf_file "001"%char [] []
         (bytes_of_string "[TAG]" ++ merge_text ++ ragged_text)) psf_blank
    = Some (true, p)
    /\ PSFFile.Load
         (psf_file "001"%char [] []
            (bytes_of_string "[TAG]" ++ merge_text ++ plain_text
             ++ PSFFile.LF :: ragged_text)) psf_blank
       = Some (true, p')
    /\ PSFFile.tags p' = PSFFile.tags p.
Proof.
  apply (tags_ignore_plain_line "001"%char [] [] (bytes_of_string "[TAG]")
           merge_text plain_text ragged_text psf_blank).
  - vm_compute. reflexivity.
  - reflexivity.
  - vm_compute. reflexivity.
  - vm_compute. reflexivity.
  - vm_compute. reflexivity.
Defined.

(** *** Trimmed names *)

Lemma skip_spaces_head (l : list BYTE) :
  TagRef.edge_ok (head (TagSpec.skip_spaces l)) = true.
Proof.
  induction l as [|c l IH]; cbn [TagSpec.skip_spaces]; [reflexivity|].
  destruct (PSFFile.is_space c) eqn:E; [exact IH|].
  cbn. rewrite E. reflexivity.
Qed.

Lemma skip_spaces_last (l : list BYTE) :
  TagRef.edge_ok (last l) = true ->
  TagRef.edge_ok (last (TagSpec.skip_spaces l)) = true.
Proof.
  intros Hl.
  pose proof (skip_spaces_drop l) as Hdrop.
  set (d := (length l - length (TagSpec.skip_spaces l))%nat) in Hdrop.
  rewrite <- (take_drop d l), last_app, <- Hdrop in Hl.
  destruct (last (TagSpec.skip_spaces l)); [exact Hl | reflexivity].
Qed.

Lemma trim_trimmed (l : list BYTE) : TagRef.trimmed (TagSpec.trim l) = true.
Proof.
  unfold TagRef.trimmed, TagSpec.trim. apply andb_true_iff. split.
  - apply skip_spaces_head.
  - apply skip_spaces_last. rewrite last_reverse. apply skip_spaces_head.
Qed.

(** X11. The names of the recorded tags are trimmed: no name begins or
    ends with a byte up to 0x20, whatever blanks the line had around the
    name. *)
Theorem tag_names_trimmed
    (ver : BYTE) (reserved payload sig text : list BYTE) (self : PSFFile.t) :
  16 + Z.of_nat (length reserved) + Z.of_nat (length payload)
  + Z.of_nat (length (sig ++ text)) < 2 ^ 32 ->
  length sig = 5%nat ->
  TagSpec.nul_free text = true ->
  exists p,
    PSFFile.Load (psf_file ver reserved payload (sig ++ text)) self = Some (true, p)
    /\ forall k v : string,
         PSFFile.tags p !! k = Some v ->
         TagRef.trimmed (bytes_of_string k) = true.
Proof.
  intros Hfits Hlen Hnul.
  destruct (Load_psf_file_tags ver reserved payload sig text self Hfits Hlen Hnul)
    as (p & Hp & Htags).
  exists p. split; [exact Hp|].
  intros k v Hk. rewrite Htags, foldl_add_pair_lookup, lookup_empty in Hk.
  assert (Hin : exists w, (k, w) ∈ TagSpec.pairs text).
  { unfold TagSpec.values_of in Hk.
    destruct (filter (λ q : string * string, q.1 = k) (TagSpec.pairs text))
      as [|[k' w] rest] eqn:E; [discriminate|].
    assert (Hq : (k', w) ∈ filter (λ q : string * string, q.1 = k)
                              (TagSpec.pairs text))
      by (rewrite E; apply list_elem_of_here).
    apply list_elem_of_filter in Hq as [Hk' Hq]. cbn in Hk'. subst k'.
    eauto. }
  destruct Hin as [w Hin].
  unfold TagSpec.pairs in Hin.
  apply list_elem_of_omap in Hin as (l & _ & Hpair).
  unfold TagSpec.line_pair in Hpair.
  destruct (TagSpec.find_char "="%char l) as [i|]; [|discriminate].
  injection Hpair as <- _.
  unfold bytes_of_string. rewrite list_ascii_of_string_of_list_ascii.
  apply trim_trimmed.
Qed.

Lemma tag_names_trimmed_witness :
  exists p,
    PSFFile.Load
      (psf_file "001"%char [] [] (bytes_of_string "[TAG]" ++ ragged_text)) psf_blank
    = Some (true, p)
    /\ forall k v : string,
         PSFFile.tags p !! k = Some v ->
         TagRef.trimmed (bytes_of_string k) = true.
Proof.
  apply (tag_names_trimmed "001"%char [] [] (bytes_of_string "[TAG]")
           ragged_text psf_blank).
  - vm_compute. reflexivity.
  - reflexivity.
  - vm_compute. reflexivity.
Defined.

(** ** More on the VAG pointer table *)

Section VagWalkClosed.

Variable file : RawFile.t.
Variables offVAGOffsets vagStartOffset nEndOffset : Z.

Lemma vag_loop_app (n m : nat) :
  forall (i : nat) (st : Vab.VagScan),
    Vab.vag_loop file offVAGOffsets vagStartOffset nEndOffset (n + m) i st
    = match Vab.vag_loop file offVAGOffsets vagStartOffset nEndOffset n i st with
      | Some st' =>
          Vab.vag_loop file offVAGOffsets vagStartOffset nEndOffset m (i + n) st'
      | None => None
      end.
Proof.
  induction n as [|n IH]; intros i st; cbn [Nat.add Vab.vag_loop].
  - rewrite Nat.add_0_r. reflexivity.
  - destruct (Vab.vag_iter _ _ _ _ i st) as [st1|]; [|reflexivity].
    rewrite IH. replace (S i + n)%nat with (i + S n)%nat by lia. reflexivity.
Qed.

(** The state on entering turn [S k] is the state on entering turn [k]
    after that turn. *)
Lemma vag_state_at_S (k : nat) :
  VabSpec.vag_state_at file offVAGOffsets vagStartOffset nEndOffset (S k)
  = match VabSpec.vag_state_at file offVAGOffsets vagStartOffset nEndOffset k with
    | Some st => Vab.vag_iter file offVAGOffsets vagStartOffset nEndOffset k st
    | None => None
    end.
Proof.
  unfold VabSpec.vag_state_at. replace (S k) with (k + 1)%nat by lia.
  rewrite vag_loop_app.
  destruct (Vab.vag_loop _ _ _ _ k 0 _) as [st|]; [|reflexivity].
  cbn [Vab.vag_loop Nat.add].
  destruct (Vab.vag_iter _ _ _ _ k st); reflexivity.
Qed.

(** The state with entries 0 to [k - 1] all accepted. *)
Lemma vag_iter_accepted (k : nat) :
  Vab.vag_iter file offVAGOffsets vagStartOffset nEndOffset k
    (Vab.mkScan (map (VagRef.location file offVAGOffsets vagStartOffset) (seq 0 k))
       (VagRef.total file offVAGOffsets vagStartOffset k) [])
  = Some
      (if VagRef.fits file offVAGOffsets vagStartOffset nEndOffset k then
         Vab.mkScan
           (map (VagRef.location file offVAGOffsets vagStartOffset) (seq 0 (S k)))
           (VagRef.total file offVAGOffsets vagStartOffset (S k)) []
       else
         Vab.mkScan
           (map (VagRef.location file offVAGOffsets vagStartOffset) (seq 0 k))
           (VagRef.total file offVAGOffsets vagStartOffset k)
           [Vab.InvalidVAG (Z.of_nat k + 1)
              (VagRef.vag_offset file offVAGOffsets vagStartOffset k)
              (VagRef.vag_size file offVAGOffsets k)]).
Proof.
  unfold Vab.vag_iter. cbn [Vab.vagLocations Vab.totalVAGSize Vab.vagLog].
  fold (VagRef.vag_size file offVAGOffsets k).
  assert (Hoff :
    (if (k =? 0)%nat then Some vagStartOffset
     else
       match map (VagRef.location file offVAGOffsets vagStartOffset) (seq 0 k)
             !! (k - 1)%nat with
       | Some prev =>
           Some (u32 (u32 (vagStartOffset + Vab.offset prev) + Vab.size prev))
       | None => None
       end)
    = Some (VagRef.vag_offset file offVAGOffsets vagStartOffset k)).
  { destruct k as [|k]; [reflexivity|].
    cbn [Nat.eqb]. replace (S k - 1)%nat with k by lia.
    rewrite seq_S, map_app, lookup_app_r by (rewrite length_map, length_seq; lia).
    rewrite length_map, length_seq, Nat.sub_diag. reflexivity. }
  rewrite Hoff. unfold VagRef.fits.
  destruct (_ <=? nEndOffset); [|reflexivity].
  rewrite seq_S, map_app. reflexivity.
Qed.

Lemma vag_state_accepted (k : nat) :
  (forall j, (j < k)%nat ->
     VagRef.fits file offVAGOffsets vagStartOffset nEndOffset j = true) ->
  VabSpec.vag_state_at file offVAGOffsets vagStartOffset nEndOffset k
  = Some (Vab.mkScan
            (map (VagRef.location file offVAGOffsets vagStartOffset) (seq 0 k))
            (VagRef.total file offVAGOffsets vagStartOffset k) []).
Proof.
  induction k as [|k IH]; intros Hfits; [reflexivity|].
  rewrite vag_state_at_S, IH by (intros j Hj; apply Hfits; lia).
  rewrite vag_iter_accepted, Hfits by lia. reflexivity.
Qed.


(** Whatever the walk records ends at or before the end offset. *)
Lemma vag_loop_in_bounds (n : nat) :
  forall (i : nat) (st st' : Vab.VagScan),
    Forall (fun loc => u32 (Vab.offset loc + Vab.size loc) <= nEndOffset)
      (Vab.vagLocations st) ->
    Vab.vag_loop file offVAGOffsets vagStartOffset nEndOffset n i st = Some st' ->
    Forall (fun loc => u32 (Vab.offset loc + Vab.size loc) <= nEndOffset)
      (Vab.vagLocations st').
Proof.
  induction n as [|n IH]; intros i st st' Hst H; cbn [Vab.vag_loop] in H.
  - injection H as <-. exact Hst.
  - destruct (Vab.vag_iter _ _ _ _ i st) as [st1|] eqn:E; [|discriminate].
    apply (IH (S i) st1 st'); [|exact H].
    unfold Vab.vag_iter in E.
    destruct (if (i =? 0)%nat then _ else _) as [vagOffset|]; [|discriminate].
    destruct (Z.leb_spec (u32 (vagOffset + RawFile.GetShort file
                (u32 (offVAGOffsets + (Z.of_nat i + 1) * 2)) * 8)) nEndOffset)
      as [Hle|Hgt]; injection E as <-; cbn [Vab.vagLocations]; [|exact Hst].
    apply Forall_app. split; [exact Hst|].
    apply Forall_cons. split; [exact Hle | apply Forall_nil_2].
Qed.

(** The running total is the start offset plus the sizes, in 32 bits. *)
Lemma total_sum (n : nat) :
  VagRef.total file offVAGOffsets vagStartOffset n
  = (if n is O then vagStartOffset
     else u32 (vagStartOffset
               + foldr Z.add 0 (map (VagRef.vag_size file offVAGOffsets) (seq 0 n)))).
Proof.
  induction n as [|n IH]; [reflexivity|].
  cbn [VagRef.total]. rewrite IH.
  rewrite seq_S, map_app, foldr_app. cbn [map foldr].
  assert (Hsum : forall (l : list Z) (a : Z),
            foldr Z.add a l = foldr Z.add 0 l + a).
  { induction l as [|x l IHl]; intros a; cbn [foldr]; [lia|].
    rewrite IHl. lia. }
  rewrite (Hsum _ (VagRef.vag_size file offVAGOffsets n + 0)).
  destruct n as [|n].
  - cbn [seq map foldr]. f_equal. lia.
  - unfold u32. rewrite Zplus_mod_idemp_l. f_equal. lia.
Qed.

End VagWalkClosed.

(** ** GetInstrPointers as a whole *)

(** The scan writes the instruments, the log and the length of the tone
    attributes header, and nothing else. *)
Lemma scan_programs_frame_rest (n : nat) :
  forall (i : nat) (v : Vab.t),
    Vab.unLength (Vab.scan_programs n i v) = Vab.unLength v
    /\ Vab.sampColl (Vab.scan_programs n i v) = Vab.sampColl v.
Proof.
  induction n as [|n IH]; intros i v; [split; reflexivity|].
  rewrite scan_programs_S. cbv zeta.
  destruct (_ >? Vab.GetEndOffset v); [split; reflexivity|].
  destruct (_ >? 32); [|destruct (negb _)].
  - destruct (IH (S i) (Vab.add_log (Vab.TooManyTones
        (Vab.GetByte v (u32 (Vab.offProgs v + Z.of_nat i * 16))) (Z.of_nat i)) v))
      as [-> ->].
    split; reflexivity.
  - match goal with
    | |- context [Vab.scan_programs n (S i) ?w] => destruct (IH (S i) w) as [-> ->]
    end.
    split; reflexivity.
  - apply IH.
Qed.

(** [GetInstrPointers] past its two count checks, in terms of the scan
    and of the walk. *)
Lemma GetInstrPointers_past_counts (v : Vab.t) :
  VabRef.numPrograms v <= 128 ->
  VabRef.numVAGs v <= 255 ->
  Vab.GetInstrPointers v
  = if VabRef.has_vag_table v then
      match VabSpec.vag_state_at (Vab.rawfile v) (VabRef.offVAGOffsets v)
              (VabRef.vagStartOffset v) (Vab.GetEndOffset v)
              (Z.to_nat (VabRef.numVAGs v)) with
      | None => None
      | Some st =>
          Some (true,
                Vab.mk (Vab.rawfile v) (Vab.dwOffset v)
                  (u32 (u32 (VabRef.offVAGOffsets v + 2 * 256) - Vab.dwOffset v))
                  (Vab.endOffset v)
                  (Vab.aInstrs (Vab.scan_programs 128 0 v))
                  (Vab.toneAttrsHdr_unLength (Vab.scan_programs 128 0 v))
                  (Vab.log (Vab.scan_programs 128 0 v) ++ Vab.vagLog st)
                  (if (Vab.dwOffset v =? 0)
                      && negb (length (Vab.vagLocations st) =? 0)%nat
                   then Some (u32 (VabRef.offVAGOffsets v + 2 * 256),
                              Vab.totalVAGSize st, Vab.vagLocations st)
                   else Vab.sampColl v))
      end
    else Some (true, Vab.scan_programs 128 0 v).
Proof.
  intros Hprogs Hvags.
  destruct (scan_programs_frame 128 0 v) as (Hfile & Hoff & Hend).
  destruct (scan_programs_frame_rest 128 0 v) as (_ & Hsamp).
  unfold Vab.GetInstrPointers. cbv zeta.
  fold (VabRef.numPrograms v) (VabRef.numVAGs v).
  fold (VabRef.offVAGOffsets v). fold (VabRef.has_vag_table v).
  replace (VabRef.numPrograms v >? 128) with false
    by (symmetry; rewrite Z.gtb_ltb; apply Z.ltb_ge; lia).
  replace (VabRef.numVAGs v >? 255) with false
    by (symmetry; rewrite Z.gtb_ltb; apply Z.ltb_ge; lia).
  revert Hfile Hoff Hend Hsamp.
  generalize (Vab.scan_programs 128 0 v). intros w Hfile Hoff Hend Hsamp.
  assert (Hstart : Vab.GetShort w (VabRef.offVAGOffsets v) * 8
                   = VabRef.vagStartOffset v).
  { unfold VabRef.vagStartOffset, Vab.GetShort. rewrite Hfile. reflexivity. }
  rewrite Hstart, Hfile, Hoff, Hend, Hsamp.
  reflexivity.
Qed.

Lemma GetInstrPointers_over_counts (v : Vab.t) :
  128 < VabRef.numPrograms v \/ 255 < VabRef.numVAGs v ->
  Vab.GetInstrPointers v = Some (false, v).
Proof.
  intros Hover. unfold Vab.GetInstrPointers. cbv zeta.
  fold (VabRef.numPrograms v) (VabRef.numVAGs v).
  destruct (Z.gtb_spec (VabRef.numPrograms v) 128) as [Hp|Hp]; [reflexivity|].
  destruct (Z.gtb_spec (VabRef.numVAGs v) 255) as [Hv|Hv]; [reflexivity|].
  lia.
Qed.

Lemma GetInstrPointers_within_counts (v : Vab.t) (r : bool * Vab.t) :
  VabRef.numPrograms v <= 128 ->
  VabRef.numVAGs v <= 255 ->
  Vab.GetInstrPointers v = Some r ->
  fst r = true.
Proof.
  intros Hp Hv. rewrite GetInstrPointers_past_counts by assumption.
  generalize (Vab.scan_programs 128 0 v). intros w.
  destruct (VabRef.has_vag_table v).
  - destruct (VabSpec.vag_state_at _ _ _ _ _) as [st|]; [|discriminate].
    intros H. injection H as <-. reflexivity.
  - intros H. injection H as <-. reflexivity.
Qed.

(** X12. Where the header declares more than 128 programs or more than
    255 VAGs, [GetInstrPointers] returns false, and the instruments, the
    log, the length, the sample collection, the file and the two offsets
    of the bank are as they were: nothing was scanned. Within both limits
    it never returns false. *)
Theorem GetInstrPointers_fails_iff (v : Vab.t) :
  (128 < VabRef.numPrograms v \/ 255 < VabRef.numVAGs v ->
   exists v' : Vab.t,
     Vab.GetInstrPointers v = Some (false, v')
     /\ Vab.aInstrs v' = Vab.aInstrs v
     /\ Vab.log v' = Vab.log v
     /\ Vab.unLength v' = Vab.unLength v
     /\ Vab.sampColl v' = Vab.sampColl v
     /\ Vab.rawfile v' = Vab.rawfile v
     /\ Vab.dwOffset v' = Vab.dwOffset v
     /\ Vab.endOffset v' = Vab.endOffset v)
  /\ (VabRef.numPrograms v <= 128 ->
      VabRef.numVAGs v <= 255 ->
      forall r, Vab.GetInstrPointers v = Some r -> fst r = true).
Proof.
  split.
  - intros Hover. exists v.
    split; [apply GetInstrPointers_over_counts; exact Hover|].
    repeat split.
  - intros Hp Hv r. apply GetInstrPointers_within_counts; assumption.
Qed.

Lemma GetInstrPointers_fails_iff_witness :
  exists v' : Vab.t,
    Vab.GetInstrPointers vab_too_many_programs = Some (false, v')
    /\ Vab.aInstrs v' = Vab.aInstrs vab_too_many_programs
    /\ Vab.log v' = Vab.log vab_too_many_programs.
Proof.
  destruct (proj1 (GetInstrPointers_fails_iff vab_too_many_programs))
    as (v' & Hget & Hinstrs & Hlog & _).
  - left. vm_compute. reflexivity.
  - exists v'. exact (conj Hget (conj Hinstrs Hlog)).
Defined.



(** X14. Where every declared entry fits, [GetInstrPointers] succeeds
    without a VAG warning. Entry [i] is located with size table[i + 1] * 8
    at the start offset for [i = 0] and at start offset + previous offset
    + previous size after that; the total is the start offset plus the
    sizes; the length of the bank runs to the end of the table; and the
    sample collection is asked for when the bank is at offset 0 and
    declares at least one VAG. *)
Theorem GetInstrPointers_all_fit (v : Vab.t) :
  VabRef.numPrograms v <= 128 ->
  VabRef.numVAGs v <= 255 ->
  VabRef.has_vag_table v = true ->
  (forall j, (j < Z.to_nat (VabRef.numVAGs v))%nat -> VabRef.fits v j = true) ->
  exists v',
    Vab.GetInstrPointers v = Some (true, v')
    /\ Vab.aInstrs v' = Vab.aInstrs (Vab.scan_programs 128 0 v)
    /\ Vab.log v' = Vab.log (Vab.scan_programs 128 0 v)
    /\ Vab.unLength v'
       = u32 (u32 (VabRef.offVAGOffsets v + 2 * 256) - Vab.dwOffset v)
    /\ Vab.sampColl v'
       = if (Vab.dwOffset v =? 0) && (0 <? VabRef.numVAGs v)
         then Some (u32 (VabRef.offVAGOffsets v + 2 * 256),
                    VagRef.total (Vab.rawfile v) (VabRef.offVAGOffsets v)
                      (VabRef.vagStartOffset v) (Z.to_nat (VabRef.numVAGs v)),
                    VabRef.locations v (Z.to_nat (VabRef.numVAGs v)))
         else Vab.sampColl v.
Proof.
  intros Hp Hv Htable Hfits.
  rewrite GetInstrPointers_past_counts, Htable by assumption.
  rewrite vag_state_accepted by exact Hfits.
  generalize (Vab.scan_programs 128 0 v). intros w.
  eexists. split; [reflexivity|].
  cbn [Vab.aInstrs Vab.log Vab.unLength Vab.sampColl Vab.vagLog
       Vab.vagLocations Vab.totalVAGSize].
  rewrite app_nil_r, length_map, length_seq.
  repeat split.
  destruct (Vab.dwOffset v =? 0); [|reflexivity]. cbn [andb].
  destruct (Z.ltb_spec 0 (VabRef.numVAGs v)) as [Hpos|Hzero].
  - replace (Z.to_nat (VabRef.numVAGs v) =? 0)%nat with false
      by (symmetry; apply Nat.eqb_neq; lia).
    reflexivity.
  - replace (Z.to_nat (VabRef.numVAGs v) =? 0)%nat with true
      by (symmetry; apply Nat.eqb_eq; lia).
    reflexivity.
Qed.

Lemma GetInstrPointers_all_fit_witness :
  exists v',
    Vab.GetInstrPointers vab_three_vags = Some (true, v')
    /\ Vab.aInstrs v' = Vab.aInstrs (Vab.scan_programs 128 0 vab_three_vags)
    /\ Vab.log v' = Vab.log (Vab.scan_programs 128 0 vab_three_vags)
    /\ Vab.unLength v'
       = u32 (u32 (VabRef.offVAGOffsets vab_three_vags + 2 * 256)
              - Vab.dwOffset vab_three_vags)
    /\ Vab.sampColl v'
       = if (Vab.dwOffset vab_three_vags =? 0) && (0 <? VabRef.numVAGs vab_three_vags)
         then Some (u32 (VabRef.offVAGOffsets vab_three_vags + 2 * 256),
                    VagRef.total (Vab.rawfile vab_three_vags)
                      (VabRef.offVAGOffsets vab_three_vags)
                      (VabRef.vagStartOffset vab_three_vags)
                      (Z.to_nat (VabRef.numVAGs vab_three_vags)),
                    VabRef.locations vab_three_vags
                      (Z.to_nat (VabRef.numVAGs vab_three_vags)))
         else Vab.sampColl vab_three_vags.
Proof.
  apply (GetInstrPointers_all_fit vab_three_vags).
  - vm_compute. discriminate.
  - vm_compute. discriminate.
  - vm_compute. reflexivity.
  - intros j Hj. change (Z.to_nat (VabRef.numVAGs vab_three_vags)) with 3%nat in Hj.
    destruct j as [|[|[|j]]]; [vm_compute; reflexivity .. | lia].
Defined.

(** The three locations of [vab_three_vags], as handed on. *)
Example GetInstrPointers_three_vags :
  exists v',
    Vab.GetInstrPointers vab_three_vags = Some (true, v')
    /\ Vab.sampColl v'
       = Some (2592, 56, [Vab.mkPair 8 16; Vab.mkPair 32 8; Vab.mkPair 48 24]).
Proof. eexists. split; vm_compute; reflexivity. Qed.

(** X15. The sample collection is asked for only for a bank at offset 0
    with at least one accepted location, at the end of the pointer table;
    every location handed on ends at or before the end offset, and there
    are no more of them than VAGs declared. *)
Theorem GetInstrPointers_request_in_bounds
    (v v' : Vab.t) (ok : bool) (offVAGs totalVAGSize : Z)
    (locs : list Vab.SizeOffsetPair) :
  Vab.GetInstrPointers v = Some (ok, v') ->
  Vab.sampColl v = None ->
  Vab.sampColl v' = Some (offVAGs, totalVAGSize, locs) ->
  Vab.dwOffset v = 0
  /\ locs <> []
  /\ offVAGs = u32 (VabRef.offVAGOffsets v + 2 * 256)
  /\ Forall (VabRef.in_bounds v) locs
  /\ (length locs <= Z.to_nat (VabRef.numVAGs v))%nat.
Proof.
  intros Hget Hnone Hreq.
  destruct (Z_le_gt_dec (VabRef.numPrograms v) 128) as [Hp|Hp];
    [destruct (Z_le_gt_dec (VabRef.numVAGs v) 255) as [Hv|Hv]|].
  2,3: rewrite GetInstrPointers_over_counts in Hget by lia;
       injection Hget as _ <-; rewrite Hnone in Hreq; discriminate.
  rewrite GetInstrPointers_past_counts in Hget by assumption.
  destruct (scan_programs_frame_rest 128 0 v) as (_ & Hsamp).
  revert Hget Hsamp. generalize (Vab.scan_programs 128 0 v). intros w Hget Hsamp.
  destruct (VabRef.has_vag_table v).
  2:{ injection Hget as _ <-. rewrite Hsamp, Hnone in Hreq. discriminate. }
  destruct (VabSpec.vag_state_at _ _ _ _ _) as [st|] eqn:Est; [|discriminate].
  injection Hget as _ <-. cbn [Vab.sampColl] in Hreq.
  destruct (Z.eqb_spec (Vab.dwOffset v) 0) as [Hzero|];
    [|rewrite Hnone in Hreq; discriminate].
  destruct (Nat.eqb_spec (length (Vab.vagLocations st)) 0) as [|Hlen];
    cbn [andb negb] in Hreq; [rewrite Hnone in Hreq; discriminate|].
  injection Hreq as <- _ <-.
  split; [exact Hzero|].
  split; [destruct (Vab.vagLocations st); [contradiction | discriminate]|].
  split; [reflexivity|].
  split.
  - unfold VabSpec.vag_state_at in Est.
    apply (vag_loop_in_bounds _ _ _ _ _ _ _ _
             (Forall_nil_2 _ : Forall _ (Vab.vagLocations (Vab.mkScan [] _ [])))
             Est).
  - apply vag_loop_count in Est. cbn in Est. lia.
Qed.

Lemma GetInstrPointers_request_in_bounds_witness :
  Vab.dwOffset vab_three_vags = 0
  /\ [Vab.mkPair 8 16; Vab.mkPair 32 8; Vab.mkPair 48 24] <> []
  /\ 2592 = u32 (VabRef.offVAGOffsets vab_three_vags + 2 * 256)
  /\ Forall (VabRef.in_bounds vab_three_vags)
       [Vab.mkPair 8 16; Vab.mkPair 32 8; Vab.mkPair 48 24]
  /\ (length [Vab.mkPair 8 16; Vab.mkPair 32 8; Vab.mkPair 48 24]
      <= Z.to_nat (VabRef.numVAGs vab_three_vags))%nat.
Proof.
  apply (GetInstrPointers_request_in_bounds vab_three_vags
           (Vab.mk (Vab.rawfile vab_three_vags) 0 2592 4096 [] 512 []
              (Some (2592, 56, [Vab.mkPair 8 16; Vab.mkPair 32 8; Vab.mkPair 48 24])))
           true 2592 56).
  - vm_compute. reflexivity.
  - reflexivity.
  - reflexivity.
Defined.

(** ** The instruments of the scan *)

Lemma program_instr_fields (v : Vab.t) (i : nat) (off : Z) :
  Vab.attr_tones (Vab.program_instr v i off) = VabSpec.numTones_at v i
  /\ Vab.instrNum (Vab.program_instr v i off) = Z.of_nat i
  /\ Vab.instr_dwOffset (Vab.program_instr v i off) = off
  /\ Vab.instr_unLength (Vab.program_instr v i off) = 0x20 * 16
  /\ Vab.bank (Vab.program_instr v i off) = 0
  /\ Vab.aRgns (Vab.program_instr v i off) = []
  /\ Vab.masterVol (Vab.program_instr v i off)
     = Vab.GetByte v (u32 (u32 (Vab.offProgs v + Z.of_nat i * 16) + 1)).
Proof.
  unfold Vab.program_instr, Vab.attr_tones, VabSpec.numTones_at. cbv zeta.
  cbn [Vab.attr Vab.set_masterVol Vab.set_attr Vab.new_VabInstr Vab.instrNum
       Vab.instr_dwOffset Vab.instr_unLength Vab.bank Vab.aRgns Vab.masterVol].
  repeat split.
  unfold Vab.GetBytes, RawFile.GetBytes, Vab.GetByte, RawFile.GetByte.
  change (Z.to_nat 16) with 16%nat. cbn [seq map nth].
  rewrite Z.add_0_r. reflexivity.
Qed.

Lemma scan_from_empty (v : Vab.t) :
  Vab.aInstrs v = [] ->
  Vab.aInstrs (Vab.scan_programs 128 0 v)
  = map (VabSpec.slot_instr v)
      (filter (λ j, VabSpec.accepted v j = true)
         (seq 0 (VabSpec.scanned_slots v))).
Proof.
  intros Hempty.
  destruct (scan_programs_spec v 128 0 v) as [Hinstrs _].
  - reflexivity.
  - repeat split.
  - rewrite Hempty. reflexivity.
  - cbn [seq filter map]. rewrite app_nil_r. reflexivity.
  - intros j Hj. lia.
  - revert Hinstrs. generalize (Vab.scan_programs 128 0 v). intros w Hinstrs.
    exact Hinstrs.
Qed.

Lemma scan_instr_slot (v : Vab.t) (instr : Vab.VabInstr) :
  Vab.aInstrs v = [] ->
  instr ∈ Vab.aInstrs (Vab.scan_programs 128 0 v) ->
  exists i : nat,
    (i < VabSpec.scanned_slots v)%nat /\ (i < 128)%nat
    /\ VabSpec.accepted v i = true /\ instr = VabSpec.slot_instr v i.
Proof.
  intros Hempty Hin.
  pose proof (scan_from_empty v Hempty) as Hinstrs.
  revert Hin Hinstrs. generalize (Vab.scan_programs 128 0 v). intros w Hin Hinstrs.
  destruct (scanned_slots_first_stop v) as (Hle & _ & _).
  rewrite Hinstrs in Hin.
  apply list_elem_of_In, in_map_iff in Hin as (i & <- & Hi).
  apply list_elem_of_In, list_elem_of_filter in Hi as [Hacc Hi].
  apply elem_of_seq in Hi.
  exists i. repeat split; [lia | lia | exact Hacc].
Qed.

Lemma accepted_tones (v : Vab.t) (i : nat) :
  VabSpec.accepted v i = true ->
  1 <= VabSpec.numTones_at v i <= 32
  /\ to_int8 (VabSpec.numTones_at v i) = VabSpec.numTones_at v i.
Proof.
  unfold VabSpec.accepted. intros Hacc.
  apply andb_true_iff in Hacc as [Hlo Hhi].
  apply Z.ltb_lt in Hlo. apply Z.leb_le in Hhi.
  split; [lia|].
  unfold to_int8.
  replace (128 <=? VabSpec.numTones_at v i) with false
    by (symmetry; apply Z.leb_gt; lia).
  reflexivity.
Qed.

(** X16. Every instrument the scan records has between 1 and 32 tones,
    so the signed byte [LoadInstr] reads its count into is never negative;
    it carries the number of its slot, below 128, spans 32 * 16 bytes and
    has no region yet; and there are at most 128 of them. *)
Theorem scan_instruments_well_formed (v : Vab.t) (instr : Vab.VabInstr) :
  Vab.aInstrs v = [] ->
  instr ∈ Vab.aInstrs (Vab.scan_programs 128 0 v) ->
  1 <= Vab.attr_tones instr <= 32
  /\ to_int8 (Vab.attr_tones instr) = Vab.attr_tones instr
  /\ 0 <= Vab.instrNum instr < 128
  /\ Vab.instr_unLength instr = 32 * 16
  /\ Vab.aRgns instr = []
  /\ (length (Vab.aInstrs (Vab.scan_programs 128 0 v)) <= 128)%nat.
Proof.
  intros Hempty Hin.
  destruct (scan_instr_slot v instr Hempty Hin) as (i & _ & Hi & Hacc & ->).
  pose proof (scan_from_empty v Hempty) as Hinstrs.
  revert Hinstrs. generalize (Vab.scan_programs 128 0 v). intros w Hinstrs.
  destruct (scanned_slots_first_stop v) as (Hle & _ & _).
  assert (Hcount : (length (Vab.aInstrs w) <= 128)%nat).
  { rewrite Hinstrs, length_map.
    pose proof (length_filter (λ j, VabSpec.accepted v j = true)
                  (seq 0 (VabSpec.scanned_slots v))) as Hf.
    rewrite length_seq in Hf. lia. }
  unfold VabSpec.slot_instr.
  destruct (program_instr_fields v i (VabSpec.toneAttrOffset v i))
    as (-> & -> & _ & -> & _ & -> & _).
  destruct (accepted_tones v i Hacc) as [Hrange Hint].
  split; [exact Hrange|]. split; [exact Hint|].
  split; [lia|]. split; [reflexivity|]. split; [reflexivity | exact Hcount].
Qed.

Lemma scan_instruments_well_formed_witness :
  1 <= Vab.attr_tones instr_bad_region <= 32
  /\ to_int8 (Vab.attr_tones instr_bad_region) = Vab.attr_tones instr_bad_region
  /\ 0 <= Vab.instrNum instr_bad_region < 128
  /\ Vab.instr_unLength instr_bad_region = 32 * 16
  /\ Vab.aRgns instr_bad_region = []
  /\ (length (Vab.aInstrs (Vab.scan_programs 128 0 (new_Vab file_bad_region 0)))
      <= 128)%nat.
Proof.
  apply (scan_instruments_well_formed (new_Vab file_bad_region 0) instr_bad_region).
  - reflexivity.
  - apply list_elem_of_In. vm_compute. left. reflexivity.
Defined.

(** ** Loading the regions of a program *)

Lemma region_at_ok (file : RawFile.t) (instr : Vab.VabInstr) (j : nat) :
  fst (VabSpec.region_at file instr j) = RgnRef.key_range_ok file instr j.
Proof.
  unfold VabSpec.region_at, RgnRef.key_range_ok, RgnRef.rgn_offset.
  destruct (LoadRgn_keys file (Vab.masterVol instr)
              (Vab.new_VabRgn (u32 (Vab.instr_dwOffset instr + Z.of_nat j * 0x20))))
    as (Hlow & Hhigh & Hfail).
  rewrite Hlow, Hhigh in Hfail. cbn [Vab.rgn_dwOffset Vab.new_VabRgn] in Hfail.
  destruct (fst (Vab.LoadRgn _ _ _)).
  - symmetry. apply Z.leb_le.
    destruct (Z.le_gt_cases
                (RawFile.GetByte file
                   (u32 (u32 (Vab.instr_dwOffset instr + Z.of_nat j * 0x20) + 6)))
                (RawFile.GetByte file
                   (u32 (u32 (Vab.instr_dwOffset instr + Z.of_nat j * 0x20) + 7))))
      as [H|H]; [exact H|].
    assert (true = false) by (apply Hfail; lia). discriminate.
  - symmetry. apply Z.leb_gt. apply Z.gt_lt. apply Hfail. reflexivity.
Qed.

Lemma LoadInstr_loop_S (file : RawFile.t) (n i : nat) (instr : Vab.VabInstr) :
  Vab.LoadInstr_loop file (S n) (Z.of_nat i) instr
  = if fst (VabSpec.region_at file instr i)
    then Vab.LoadInstr_loop file n (Z.of_nat i + 1)
           (Vab.push_rgn (snd (VabSpec.region_at file instr i)) instr)
    else (false, instr).
Proof.
  unfold VabSpec.region_at.
  change (Vab.LoadInstr_loop file (S n) (Z.of_nat i) instr)
    with (let '(ok, rgn) :=
            Vab.LoadRgn file (Vab.masterVol instr)
              (Vab.new_VabRgn (u32 (Vab.instr_dwOffset instr + Z.of_nat i * 0x20))) in
          if negb ok then (false, instr)
          else Vab.LoadInstr_loop file n (Z.of_nat i + 1) (Vab.push_rgn rgn instr)).
  generalize (Vab.LoadRgn file (Vab.masterVol instr)
                (Vab.new_VabRgn (u32 (Vab.instr_dwOffset instr + Z.of_nat i * 0x20)))).
  intros [[] r]; reflexivity.
Qed.

Lemma LoadInstr_loop_spec (file : RawFile.t) (n : nat) :
  forall (i : nat) (instr : Vab.VabInstr),
    fst (Vab.LoadInstr_loop file n (Z.of_nat i) instr)
    = forallb (RgnRef.key_range_ok file instr) (seq i n)
    /\ (fst (Vab.LoadInstr_loop file n (Z.of_nat i) instr) = true ->
        Vab.aRgns (snd (Vab.LoadInstr_loop file n (Z.of_nat i) instr))
        = Vab.aRgns instr
          ++ map (fun j => snd (VabSpec.region_at file instr j)) (seq i n))
    /\ Vab.instr_dwOffset (snd (Vab.LoadInstr_loop file n (Z.of_nat i) instr))
       = Vab.instr_dwOffset instr
    /\ Vab.instr_unLength (snd (Vab.LoadInstr_loop file n (Z.of_nat i) instr))
       = Vab.instr_unLength instr
    /\ Vab.bank (snd (Vab.LoadInstr_loop file n (Z.of_nat i) instr))
       = Vab.bank instr
    /\ Vab.instrNum (snd (Vab.LoadInstr_loop file n (Z.of_nat i) instr))
       = Vab.instrNum instr
    /\ Vab.attr (snd (Vab.LoadInstr_loop file n (Z.of_nat i) instr))
       = Vab.attr instr
    /\ Vab.masterVol (snd (Vab.LoadInstr_loop file n (Z.of_nat i) instr))
       = Vab.masterVol instr.
Proof.
  induction n as [|n IH]; intros i instr.
  - cbn [Vab.LoadInstr_loop seq forallb map fst snd]. rewrite app_nil_r.
    repeat split.
  - rewrite LoadInstr_loop_S. cbn [seq forallb map].
    rewrite <- (region_at_ok file instr i).
    destruct (VabSpec.region_at file instr i) as [ok r] eqn:E.
    cbn [fst snd]. destruct ok; cbn [andb].
    + replace (Z.of_nat i + 1) with (Z.of_nat (S i)) by lia.
      destruct (IH (S i) (Vab.push_rgn r instr))
        as (Hfst & Hrgns & Hoff & Hlen & Hbank & Hnum & Hattr & Hvol).
      split; [exact Hfst|].
      split.
      { intros Hok. rewrite (Hrgns Hok). cbn [Vab.aRgns Vab.push_rgn snd].
        rewrite <- app_assoc. reflexivity. }
      repeat split; assumption.
    + cbn [fst snd]. repeat split. discriminate.
Qed.

(** X17. [LoadInstr] succeeds exactly when every one of the program's
    regions has its key range in order (byte 6 not above byte 7), the count
    of regions being the tone byte read as signed: a tone byte of 0 or of
    128 and above gives no turn at all and success. On success the regions
    are appended in order, one per tone; in every case the other members of
    the program stay as they were. *)
Theorem LoadInstr_succeeds_iff (file : RawFile.t) (instr : Vab.VabInstr) :
  fst (Vab.LoadInstr file instr)
  = forallb (RgnRef.key_range_ok file instr) (seq 0 (RgnRef.numRgns instr))
  /\ (fst (Vab.LoadInstr file instr) = true ->
      Vab.aRgns (snd (Vab.LoadInstr file instr))
      = Vab.aRgns instr
        ++ map (fun j => snd (VabSpec.region_at file instr j))
             (seq 0 (RgnRef.numRgns instr)))
  /\ (fst (Vab.LoadInstr file instr) = true ->
      length (Vab.aRgns (snd (Vab.LoadInstr file instr)))
      = (length (Vab.aRgns instr) + RgnRef.numRgns instr)%nat)
  /\ (Vab.attr_tones instr = 0 \/ 128 <= Vab.attr_tones instr ->
      Vab.LoadInstr file instr = (true, instr))
  /\ Vab.instr_dwOffset (snd (Vab.LoadInstr file instr)) = Vab.instr_dwOffset instr
  /\ Vab.attr (snd (Vab.LoadInstr file instr)) = Vab.attr instr
  /\ Vab.masterVol (snd (Vab.LoadInstr file instr)) = Vab.masterVol instr
  /\ Vab.instrNum (snd (Vab.LoadInstr file instr)) = Vab.instrNum instr.
Proof.
  unfold Vab.LoadInstr. cbv zeta. fold (RgnRef.numRgns instr).
  destruct (LoadInstr_loop_spec file (RgnRef.numRgns instr) 0 instr)
    as (Hfst & Hrgns & Hoff & _ & _ & Hnum & Hattr & Hvol).
  change (Z.of_nat 0) with 0 in *.
  split; [exact Hfst|]. split; [exact Hrgns|].
  split.
  { intros Hok. rewrite (Hrgns Hok), length_app, length_map, length_seq.
    reflexivity. }
  split.
  { intros Htones.
    assert (Hzero : RgnRef.numRgns instr = 0%nat).
    { unfold RgnRef.numRgns, to_int8.
      destruct (Z.leb_spec 128 (Vab.attr_tones instr)) as [H|H].
      - pose proof (byte_val_range (nth 0 (Vab.attr instr) NUL)) as Hb.
        unfold Vab.attr_tones in *. lia.
      - destruct Htones as [-> | Hbig]; [reflexivity | lia]. }
    rewrite Hzero. reflexivity. }
  repeat split; assumption.
Qed.

(** ** The members of a decoded region *)

Lemma LoadRgn_fields (file : RawFile.t) (masterVol : Z) (rgn : Vab.VabRgn) :
  Vab.sampNum (snd (Vab.LoadRgn file masterVol rgn))
  = (if to_int32 (u32 (RawFile.GetShort file (u32 (Vab.rgn_dwOffset rgn + 22)) - 1)) <? 0
     then 0
     else u32 (RawFile.GetShort file (u32 (Vab.rgn_dwOffset rgn + 22)) - 1))
  /\ Vab.rgn_dwOffset (snd (Vab.LoadRgn file masterVol rgn)) = Vab.rgn_dwOffset rgn
  /\ Vab.rgn_unLength (snd (Vab.LoadRgn file masterVol rgn)) = 0x20
  /\ Vab.rgn_attr (snd (Vab.LoadRgn file masterVol rgn))
     = RawFile.GetBytes file (Vab.rgn_dwOffset rgn) 0x20
  /\ Vab.pan (snd (Vab.LoadRgn file masterVol rgn))
     = RawFile.GetByte file (u32 (Vab.rgn_dwOffset rgn + 3))
  /\ Vab.unityKey (snd (Vab.LoadRgn file masterVol rgn))
     = RawFile.GetByte file (u32 (Vab.rgn_dwOffset rgn + 4))
  /\ Vab.ADSR1 (snd (Vab.LoadRgn file masterVol rgn))
     = RawFile.GetShort file (u32 (Vab.rgn_dwOffset rgn + 16))
  /\ Vab.ADSR2 (snd (Vab.LoadRgn file masterVol rgn))
     = RawFile.GetShort file (u32 (Vab.rgn_dwOffset rgn + 18))
  /\ Vab.fineTune (snd (Vab.LoadRgn file masterVol rgn))
     = (if fst (Vab.LoadRgn file masterVol rgn)
        then Z.quot (to_int8 (RawFile.GetByte file (u32 (Vab.rgn_dwOffset rgn + 5))) * 100) 128
        else Vab.fineTune rgn).
Proof.
  unfold Vab.LoadRgn. cbv zeta.
  cbn [Vab.keyLow Vab.keyHigh Vab.sampNum Vab.rgn_dwOffset
       Vab.set_sampNum Vab.set_ADSR1 Vab.set_ADSR2 Vab.AddSampNum
       Vab.AddKeyHigh Vab.AddKeyLow Vab.AddUnityKey Vab.AddPan Vab.AddVolume
       Vab.set_rgn_attr Vab.set_rgn_unLength].
  destruct (to_int32 (u32 (RawFile.GetShort file (u32 (Vab.rgn_dwOffset rgn + 22)) - 1)) <? 0);
    cbn [Vab.keyLow Vab.keyHigh Vab.sampNum Vab.rgn_dwOffset
         Vab.set_sampNum Vab.set_ADSR1 Vab.set_ADSR2 Vab.AddSampNum
         Vab.AddKeyHigh Vab.AddKeyLow Vab.AddUnityKey Vab.AddPan Vab.AddVolume
         Vab.set_rgn_attr Vab.set_rgn_unLength];
    destruct (RawFile.GetByte file (u32 (Vab.rgn_dwOffset rgn + 6))
              >? RawFile.GetByte file (u32 (Vab.rgn_dwOffset rgn + 7)));
    cbn [fst snd Vab.keyLow Vab.keyHigh Vab.sampNum Vab.rgn_dwOffset
         Vab.rgn_unLength Vab.rgn_attr Vab.pan Vab.unityKey Vab.ADSR1 Vab.ADSR2
         Vab.fineTune Vab.SetFineTune
         Vab.set_sampNum Vab.set_ADSR1 Vab.set_ADSR2 Vab.AddSampNum
         Vab.AddKeyHigh Vab.AddKeyLow Vab.AddUnityKey Vab.AddPan Vab.AddVolume
         Vab.set_rgn_attr Vab.set_rgn_unLength];
    repeat split.
Qed.

(** X18. The sample number of a decoded region is the short at offset 22
    less one, and 0 where that short is 0: the wrapped value 0xFFFFFFFF
    is negative as an [int] and is replaced. It is never above 65534. *)
Theorem LoadRgn_sample_number (file : RawFile.t) (masterVol : Z) (rgn : Vab.VabRgn) :
  Vab.sampNum (snd (Vab.LoadRgn file masterVol rgn))
  = Z.max 0 (RawFile.GetShort file (u32 (Vab.rgn_dwOffset rgn + 22)) - 1)
  /\ 0 <= Vab.sampNum (snd (Vab.LoadRgn file masterVol rgn)) <= 65534.
Proof.
  destruct (LoadRgn_fields file masterVol rgn) as (-> & _).
  pose proof (GetShort_range file (u32 (Vab.rgn_dwOffset rgn + 22))) as Hs.
  revert Hs.
  generalize (RawFile.GetShort file (u32 (Vab.rgn_dwOffset rgn + 22))).
  intros s Hs. change (2 ^ 16) with 65536 in Hs.
  destruct (Z.eq_dec s 0) as [-> | Hne].
  - change (to_int32 (u32 (0 - 1)) <? 0) with true. cbv iota. lia.
  - rewrite (u32_small (s - 1)) by lia.
    unfold to_int32.
    replace (2 ^ 31 <=? s - 1) with false by (symmetry; apply Z.leb_gt; lia).
    replace (s - 1 <? 0) with false by (symmetry; apply Z.ltb_ge; lia).
    lia.
Qed.

(** X19. A region that loads has its key range in order within a byte,
    a fine tune between -100 and 99 cents (the signed byte at offset 5
    scaled by 100/128 and cut towards zero), a length of 32 with 32
    attribute bytes, and byte and short members within their widths. *)
Theorem LoadRgn_success_ranges (file : RawFile.t) (masterVol : Z) (rgn : Vab.VabRgn) :
  fst (Vab.LoadRgn file masterVol rgn) = true ->
  0 <= Vab.keyLow (snd (Vab.LoadRgn file masterVol rgn))
    <= Vab.keyHigh (snd (Vab.LoadRgn file masterVol rgn))
  /\ Vab.keyHigh (snd (Vab.LoadRgn file masterVol rgn)) <= 255
  /\ -100 <= Vab.fineTune (snd (Vab.LoadRgn file masterVol rgn)) <= 99
  /\ Vab.rgn_unLength (snd (Vab.LoadRgn file masterVol rgn)) = 32
  /\ length (Vab.rgn_attr (snd (Vab.LoadRgn file masterVol rgn))) = 32%nat
  /\ 0 <= Vab.pan (snd (Vab.LoadRgn file masterVol rgn)) <= 255
  /\ 0 <= Vab.unityKey (snd (Vab.LoadRgn file masterVol rgn)) <= 255
  /\ 0 <= Vab.ADSR1 (snd (Vab.LoadRgn file masterVol rgn)) <= 65535
  /\ 0 <= Vab.ADSR2 (snd (Vab.LoadRgn file masterVol rgn)) <= 65535.
Proof.
  intros Hok.
  destruct (LoadRgn_keys file masterVol rgn) as (Hlow & Hhigh & Hfail).
  destruct (LoadRgn_fields file masterVol rgn)
    as (_ & _ & Hlen & Hattr & Hpan & Hkey & H1 & H2 & Hft).
  rewrite Hok in Hft, Hfail.
  pose proof (GetByte_range file (u32 (Vab.rgn_dwOffset rgn + 3))) as R3.
  pose proof (GetByte_range file (u32 (Vab.rgn_dwOffset rgn + 4))) as R4.
  pose proof (GetByte_range file (u32 (Vab.rgn_dwOffset rgn + 5))) as R5.
  pose proof (GetByte_range file (u32 (Vab.rgn_dwOffset rgn + 6))) as R6.
  pose proof (GetByte_range file (u32 (Vab.rgn_dwOffset rgn + 7))) as R7.
  pose proof (GetShort_range file (u32 (Vab.rgn_dwOffset rgn + 16))) as R16.
  pose proof (GetShort_range file (u32 (Vab.rgn_dwOffset rgn + 18))) as R18.
  assert (Hkeys : Vab.keyLow (snd (Vab.LoadRgn file masterVol rgn))
                  <= Vab.keyHigh (snd (Vab.LoadRgn file masterVol rgn))).
  { destruct (Z.le_gt_cases (Vab.keyLow (snd (Vab.LoadRgn file masterVol rgn)))
                (Vab.keyHigh (snd (Vab.LoadRgn file masterVol rgn)))) as [H|H];
      [exact H|].
    assert (true = false) by (apply Hfail; lia). discriminate. }
  assert (Hcents : -100 <= Vab.fineTune (snd (Vab.LoadRgn file masterVol rgn)) <= 99).
  { rewrite Hft.
    assert (Hb : -128 <= to_int8 (RawFile.GetByte file (u32 (Vab.rgn_dwOffset rgn + 5)))
                 <= 127).
    { unfold to_int8.
      destruct (Z.leb_spec 128 (RawFile.GetByte file (u32 (Vab.rgn_dwOffset rgn + 5))));
        lia. }
    revert Hb.
    generalize (to_int8 (RawFile.GetByte file (u32 (Vab.rgn_dwOffset rgn + 5)))).
    intros b Hb. split.
    - change (-100) with (Z.quot (-128 * 100) 128).
      apply Z.quot_le_mono; lia.
    - change 99 with (Z.quot (127 * 100) 128).
      apply Z.quot_le_mono; lia. }
  rewrite Hlen, Hattr, Hpan, Hkey, H1, H2, GetBytes_length.
  rewrite Hlow in *. rewrite Hhigh in *.
  change (2 ^ 16) with 65536 in *.
  repeat split; try lia.
Qed.

Lemma LoadRgn_success_ranges_witness :
  0 <= Vab.keyLow (snd (Vab.LoadRgn file_good_regions 127 (Vab.new_VabRgn 2080)))
    <= Vab.keyHigh (snd (Vab.LoadRgn file_good_regions 127 (Vab.new_VabRgn 2080)))
  /\ -100 <= Vab.fineTune (snd (Vab.LoadRgn file_good_regions 127 (Vab.new_VabRgn 2080)))
     <= 99.
Proof.
  destruct (LoadRgn_success_ranges file_good_regions 127 (Vab.new_VabRgn 2080) eq_refl)
    as (Hkeys & _ & Hcents & _).
  exact (conj Hkeys Hcents).
Defined.

(** ** Where the regions of a scanned program lie *)

(** X20. In a bank whose tables end below 2^32, the 32 * 16 byte block of
    every program the scan records ends at or before the end offset, and
    region [j] of the program is read at the block's start plus 32 * j
    without wrap-around. The first 16 regions lie inside the block; since
    the scan accepts up to 32 tones, a region numbered 16 or more starts
    at or after the end of the block of its program. *)
Theorem scan_regions_inside_block (v : Vab.t) (instr : Vab.VabInstr) (j : nat) :
  Vab.aInstrs v = [] ->
  0 <= Vab.dwOffset v ->
  Vab.dwOffset v + 0x20 + 16 * 128 + 129 * (32 * 16) <= 2 ^ 32 ->
  instr ∈ Vab.aInstrs (Vab.scan_programs 128 0 v) ->
  (j < RgnRef.numRgns instr)%nat ->
  Vab.instr_dwOffset instr + Vab.instr_unLength instr <= Vab.GetEndOffset v
  /\ (j < 32)%nat
  /\ RgnRef.rgn_offset instr j = Vab.instr_dwOffset instr + Z.of_nat j * 0x20
  /\ ((j < 16)%nat ->
      RgnRef.rgn_offset instr j + 0x20
      <= Vab.instr_dwOffset instr + Vab.instr_unLength instr)
  /\ ((16 <= j)%nat ->
      Vab.instr_dwOffset instr + Vab.instr_unLength instr
      <= RgnRef.rgn_offset instr j).
Proof.
  intros Hempty Hlo Hhi Hin Hj.
  destruct (scan_instr_slot v instr Hempty Hin) as (i & Hscan & Hi & Hacc & ->).
  destruct (scanned_slots_first_stop v) as (_ & Hgo & _).
  specialize (Hgo i Hscan).
  unfold RgnRef.numRgns, RgnRef.rgn_offset, VabSpec.slot_instr in *.
  destruct (program_instr_fields v i (VabSpec.toneAttrOffset v i))
    as (Htones & _ & Hoff & Hlen & _).
  rewrite Htones in Hj. rewrite Hoff, Hlen.
  destruct (accepted_tones v i Hacc) as [Hrange Hint].
  rewrite Hint in Hj.
  pose proof (accepted_before_le v i) as Hcount.
  unfold VabSpec.stops_at in Hgo.
  rewrite (toneAttrOffset_exact v i Hlo) in * by lia.
  rewrite u32_small in Hgo by lia.
  rewrite Z.gtb_ltb in Hgo. apply Z.ltb_ge in Hgo.
  rewrite u32_small by lia.
  repeat split; lia.
Qed.

Lemma scan_regions_inside_block_witness :
  Vab.instr_dwOffset instr_bad_region + Vab.instr_unLength instr_bad_region
  <= Vab.GetEndOffset (new_Vab file_bad_region 0)
  /\ RgnRef.rgn_offset instr_bad_region 1 = 2080 + 32.
Proof.
  destruct (scan_regions_inside_block (new_Vab file_bad_region 0) instr_bad_region 1)
    as (Hend & _ & Hoff & _).
  - reflexivity.
  - vm_compute. discriminate.
  - vm_compute. discriminate.
  - apply list_elem_of_In. vm_compute. left. reflexivity.
  - vm_compute. lia.
  - exact (conj Hend Hoff).
Defined.

(** ** From the scan to the regions *)

Lemma forallb_seq_lt (f : nat -> bool) (n j : nat) :
  forallb f (seq 0 n) = true -> (j < n)%nat -> f j = true.
Proof.
  intros Hall Hj. rewrite forallb_forall in Hall.
  apply Hall. apply in_seq. lia.
Qed.

(** X21. The scan and the region loader, one after the other. A program
    the scan records, when its regions load, holds exactly as many regions
    as its tone byte says, between 1 and 32, and every one of them has its
    key range in order, a length of 32 and a sample number of at most
    65534. *)
Theorem scan_then_LoadInstr (v : Vab.t) (instr : Vab.VabInstr) :
  Vab.aInstrs v = [] ->
  instr ∈ Vab.aInstrs (Vab.scan_programs 128 0 v) ->
  fst (Vab.LoadInstr (Vab.rawfile v) instr) = true ->
  Z.of_nat (length (Vab.aRgns (snd (Vab.LoadInstr (Vab.rawfile v) instr))))
  = Vab.attr_tones instr
  /\ (1 <= length (Vab.aRgns (snd (Vab.LoadInstr (Vab.rawfile v) instr))) <= 32)%nat
  /\ Forall (fun r => Vab.keyLow r <= Vab.keyHigh r
                      /\ Vab.rgn_unLength r = 32
                      /\ 0 <= Vab.sampNum r <= 65534)
       (Vab.aRgns (snd (Vab.LoadInstr (Vab.rawfile v) instr))).
Proof.
  intros Hempty Hin.
  destruct (scan_instr_slot v instr Hempty Hin) as (i & _ & _ & Hacc & ->).
  unfold Vab.LoadInstr. cbv zeta.
  fold (RgnRef.numRgns (VabSpec.slot_instr v i)).
  destruct (LoadInstr_loop_spec (Vab.rawfile v)
              (RgnRef.numRgns (VabSpec.slot_instr v i)) 0 (VabSpec.slot_instr v i))
    as (Hfst & Hrgns & _).
  change (Z.of_nat 0) with 0 in *.
  intros Hok. rewrite (Hrgns Hok). rewrite Hok in Hfst. symmetry in Hfst.
  assert (Hnum : Z.of_nat (RgnRef.numRgns (VabSpec.slot_instr v i))
                 = Vab.attr_tones (VabSpec.slot_instr v i)
                 /\ 1 <= Vab.attr_tones (VabSpec.slot_instr v i) <= 32).
  { unfold RgnRef.numRgns, VabSpec.slot_instr.
    destruct (program_instr_fields v i (VabSpec.toneAttrOffset v i)) as (-> & _).
    destruct (accepted_tones v i Hacc) as [Hrange ->]. lia. }
  destruct Hnum as [Hnum Hrange].
  assert (Hnone : Vab.aRgns (VabSpec.slot_instr v i) = []).
  { unfold VabSpec.slot_instr.
    apply (program_instr_fields v i (VabSpec.toneAttrOffset v i)). }
  rewrite Hnone. cbn [app]. rewrite length_map, length_seq.
  split; [exact Hnum|]. split; [lia|].
  apply Forall_forall. intros r Hr.
  apply list_elem_of_In, in_map_iff in Hr as (j & <- & Hj).
  apply in_seq in Hj.
  assert (Hgood : fst (VabSpec.region_at (Vab.rawfile v) (VabSpec.slot_instr v i) j)
                  = true).
  { rewrite region_at_ok. apply (forallb_seq_lt _ _ j Hfst). lia. }
  unfold VabSpec.region_at in *.
  destruct (LoadRgn_keys (Vab.rawfile v) (Vab.masterVol (VabSpec.slot_instr v i))
              (Vab.new_VabRgn
                 (u32 (Vab.instr_dwOffset (VabSpec.slot_instr v i) + Z.of_nat j * 0x20))))
    as (_ & _ & Hfail).
  destruct (LoadRgn_fields (Vab.rawfile v) (Vab.masterVol (VabSpec.slot_instr v i))
              (Vab.new_VabRgn
                 (u32 (Vab.instr_dwOffset (VabSpec.slot_instr v i) + Z.of_nat j * 0x20))))
    as (Hsamp & _ & Hlen & _).
  revert Hgood Hfail Hsamp Hlen.
  generalize (Vab.LoadRgn (Vab.rawfile v) (Vab.masterVol (VabSpec.slot_instr v i))
                (Vab.new_VabRgn
                   (u32 (Vab.instr_dwOffset (VabSpec.slot_instr v i)
                         + Z.of_nat j * 0x20)))).
  intros [ok r] Hgood Hfail Hsamp Hlen. cbn [fst snd] in *. subst ok.
  split.
  { destruct (Z.le_gt_cases (Vab.keyLow r) (Vab.keyHigh r)) as [H|H]; [exact H|].
    assert (true = false) by (apply Hfail; lia). discriminate. }
  split; [exact Hlen|].
  rewrite Hsamp.
  pose proof (GetShort_range (Vab.rawfile v)
                (u32 (Vab.rgn_dwOffset
                        (Vab.new_VabRgn
                           (u32 (Vab.instr_dwOffset (VabSpec.slot_instr v i)
                                 + Z.of_nat j * 0x20))) + 22))) as Hs.
  revert Hs.
  generalize (RawFile.GetShort (Vab.rawfile v)
                (u32 (Vab.rgn_dwOffset
                        (Vab.new_VabRgn
                           (u32 (Vab.instr_dwOffset (VabSpec.slot_instr v i)
                                 + Z.of_nat j * 0x20))) + 22))).
  intros s Hs. change (2 ^ 16) with 65536 in Hs.
  destruct (Z.eq_dec s 0) as [-> | Hne].
  - change (to_int32 (u32 (0 - 1)) <? 0) with true. cbv iota. lia.
  - rewrite (u32_small (s - 1)) by lia.
    unfold to_int32.
    replace (2 ^ 31 <=? s - 1) with false by (symmetry; apply Z.leb_gt; lia).
    replace (s - 1 <? 0) with false by (symmetry; apply Z.ltb_ge; lia).
    lia.
Qed.

Lemma scan_then_LoadInstr_witness :
  Z.of_nat (length (Vab.aRgns (snd (Vab.LoadInstr file_good_regions instr_good_regions))))
  = Vab.attr_tones instr_good_regions.
Proof.
  destruct (scan_then_LoadInstr (new_Vab file_good_regions 0) instr_good_regions)
    as (Hcount & _).
  - reflexivity.
  - apply list_elem_of_In. vm_compute. left. reflexivity.
  - vm_compute. reflexivity.
  - exact Hcount.
Defined.

(** ** The stored checksum across a failed load *)

(** X22. [Clear] does not reset [exeCRC], and [Load] assigns it only after
    the size and signature checks: a load that fails at either of them
    leaves the checksum of the previous load in the object, while the
    version is back at 0 and the error message is set. *)
Theorem Load_early_failure_keeps_checksum (file : RawFile.t) (self : PSFFile.t) :
  RawFile.size file < 16
  \/ take 3 (RawFile.GetBytes file 0 4) <> bytes_of_string "PSF" ->
  exists p : PSFFile.t,
    PSFFile.Load file self = Some (false, p)
    /\ PSFFile.exeCRC p = PSFFile.exeCRC self
    /\ PSFFile.exeCRC (PSFFile.Clear self) = PSFFile.exeCRC self
    /\ PSFFile.version p = NUL
    /\ PSFFile.GetError p <> None.
Proof.
  intros Hearly.
  destruct (Z_lt_le_dec (RawFile.size file) 16) as [Hsmall|Hsize].
  - rewrite (Load_too_small file self Hsmall).
    eexists. split; [reflexivity|]. repeat split. discriminate.
  - destruct Hearly as [Hsmall|Hsig]; [lia|].
    rewrite (Load_bad_signature file self Hsize Hsig).
    eexists. split; [reflexivity|]. repeat split. discriminate.
Qed.

Lemma Load_early_failure_keeps_checksum_witness :
  exists p : PSFFile.t,
    PSFFile.Load (RawFile.of_bytes (bytes_of_string "PSF")) psf_loaded = Some (false, p)
    /\ PSFFile.exeCRC p = 99.
Proof.
  destruct (Load_early_failure_keeps_checksum
              (RawFile.of_bytes (bytes_of_string "PSF")) psf_loaded)
    as (p & Hload & Hcrc & _).
  - left. vm_compute. reflexivity.
  - exists p. exact (conj Hload Hcrc).
Defined.

(** ** What the scan keeps account of *)

Lemma block_length_wrap (a k : Z) :
  u32 (u32 (u32 (a + k * 32 * 16) + 32 * 16) - a) = u32 ((k + 1) * (32 * 16)).
Proof.
  unfold u32.
  rewrite Zminus_mod_idemp_l.
  replace ((a + k * 32 * 16) mod 2 ^ 32 + 32 * 16 - a)
    with ((a + k * 32 * 16) mod 2 ^ 32 + (32 * 16 - a)) by lia.
  rewrite Zplus_mod_idemp_l.
  f_equal. lia.
Qed.

Lemma scan_programs_table_length (n : nat) :
  forall (i : nat) (v : Vab.t),
    (length (Vab.aInstrs v) <= length (Vab.aInstrs (Vab.scan_programs n i v)))%nat
    /\ Vab.toneAttrsHdr_unLength (Vab.scan_programs n i v)
       = (if (length (Vab.aInstrs (Vab.scan_programs n i v))
              =? length (Vab.aInstrs v))%nat
          then Vab.toneAttrsHdr_unLength v
          else u32 (Z.of_nat (length (Vab.aInstrs (Vab.scan_programs n i v)))
                    * (32 * 16))).
Proof.
  induction n as [|n IH]; intros i v.
  - cbn [Vab.scan_programs]. rewrite Nat.eqb_refl. split; [lia | reflexivity].
  - rewrite scan_programs_S. cbv zeta.
    destruct (_ >? Vab.GetEndOffset v).
    { rewrite Nat.eqb_refl. split; [lia | reflexivity]. }
    destruct (_ >? 32); [|destruct (negb _)].
    + exact (IH (S i) (Vab.add_log _ v)).
    + rewrite block_length_wrap.
      match goal with
      | |- context [Vab.scan_programs n (S i) ?w] =>
          destruct (IH (S i) w) as [Hle Hlen]; revert Hle Hlen;
          generalize (Vab.scan_programs n (S i) w)
      end.
      intros w. cbn [Vab.aInstrs Vab.toneAttrsHdr_unLength Vab.push_instr].
      rewrite length_app. cbn [length]. intros Hle Hlen.
      split; [lia|].
      replace (length (Vab.aInstrs w) =? length (Vab.aInstrs v))%nat with false
        by (symmetry; apply Nat.eqb_neq; lia).
      rewrite Hlen.
      destruct (Nat.eqb_spec (length (Vab.aInstrs w)) (length (Vab.aInstrs v) + 1))
        as [Heq|Hne]; [|reflexivity].
      rewrite Heq. f_equal. lia.
    + exact (IH (S i) v).
Qed.

Lemma filter_accepted_warned (v : Vab.t) (l : list nat) :
  (length (filter (λ j, VabSpec.accepted v j = true) l)
   + length (filter (λ j, (VabSpec.numTones_at v j >? 32) = true) l)
   <= length l)%nat.
Proof.
  induction l as [|j l IH]; [reflexivity|].
  rewrite !filter_cons.
  destruct (decide (VabSpec.accepted v j = true)) as [Hacc|Hacc];
    destruct (decide ((VabSpec.numTones_at v j >? 32) = true)) as [Hbig|Hbig];
    cbn [length]; try lia.
  destruct (accepted_tones v j Hacc) as [Hrange _].
  apply Z.gtb_lt in Hbig. lia.
Qed.

(** X23. The bookkeeping of the scan started with no instrument. The
    length of the tone attributes table is left alone when no program is
    recorded and is 32 * 16 bytes per recorded program otherwise; a
    warning is logged for each slot scanned that declares more than 32
    tones, in slot order, and for no other; and the recorded programs and
    the warnings together are no more than the slots scanned, at most
    128. *)
Theorem scan_bookkeeping (v : Vab.t) :
  Vab.aInstrs v = [] ->
  Vab.toneAttrsHdr_unLength (Vab.scan_programs 128 0 v)
  = (if (length (Vab.aInstrs (Vab.scan_programs 128 0 v)) =? 0)%nat
     then Vab.toneAttrsHdr_unLength v
     else Z.of_nat (length (Vab.aInstrs (Vab.scan_programs 128 0 v))) * (32 * 16))
  /\ Vab.log (Vab.scan_programs 128 0 v)
     = Vab.log v
       ++ map (VabSpec.slot_warning v)
            (filter (λ j, (VabSpec.numTones_at v j >? 32) = true)
               (seq 0 (VabSpec.scanned_slots v)))
  /\ (length (Vab.aInstrs (Vab.scan_programs 128 0 v))
      + (length (Vab.log (Vab.scan_programs 128 0 v)) - length (Vab.log v))
      <= VabSpec.scanned_slots v <= 128)%nat.
Proof.
  intros Hempty.
  destruct (scan_programs_spec v 128 0 v) as [_ Hlog].
  - reflexivity.
  - repeat split.
  - rewrite Hempty. reflexivity.
  - cbn [seq filter map]. rewrite app_nil_r. reflexivity.
  - intros j Hj. lia.
  - pose proof (scan_from_empty v Hempty) as Hinstrs.
    destruct (scan_programs_table_length 128 0 v) as [_ Hlen].
    rewrite Hempty in Hlen. cbn [length] in Hlen.
    revert Hlog Hinstrs Hlen. generalize (Vab.scan_programs 128 0 v).
    intros w Hlog Hinstrs Hlen.
    destruct (scanned_slots_first_stop v) as (Hle & _ & _).
    pose proof (filter_accepted_warned v (seq 0 (VabSpec.scanned_slots v))) as Hpart.
    rewrite length_seq in Hpart.
    assert (Hcount : length (Vab.aInstrs w)
                     = length (filter (λ j, VabSpec.accepted v j = true)
                                 (seq 0 (VabSpec.scanned_slots v)))).
    { rewrite Hinstrs, length_map. reflexivity. }
    split.
    { rewrite Hlen.
      destruct (length (Vab.aInstrs w) =? 0)%nat; [reflexivity|].
      apply u32_small. lia. }
    split; [exact Hlog|].
    rewrite Hlog, length_app, length_map. lia.
Qed.

Lemma scan_bookkeeping_witness :
  Vab.toneAttrsHdr_unLength (Vab.scan_programs 128 0 vab_programs)
  = (if (length (Vab.aInstrs (Vab.scan_programs 128 0 vab_programs)) =? 0)%nat
     then Vab.toneAttrsHdr_unLength vab_programs
     else Z.of_nat (length (Vab.aInstrs (Vab.scan_programs 128 0 vab_programs)))
          * (32 * 16)).
Proof.
  exact (proj1 (scan_bookkeeping vab_programs eq_refl)).
Defined.
